(** * baseMelUI: a shallow embedding of the widget wrappers

    The Python module [baseMelUI.py] wraps the host application's
    procedural GUI commands in classes.  Every method is a short sequence of
    host commands plus some bookkeeping on Python lists and attributes.

    The embedding keeps that shape: the host is an explicit state, a method is
    a computation in a small state-and-exception monad, Python integers are
    [Z], Python lists are [list] with the index conventions of Python written
    out (negative indices, clamping [insert], raising [pop]). *)

From Stdlib Require Import ZArith List Lia Bool Arith String Ascii DecimalString DecimalNat.
From Stdlib Require Import Permutation Sorted.
From stdpp Require Import base list gmap strings.
Import ListNotations.

Local Open Scope Z_scope.

(** ** Python exceptions and the state-and-exception monad *)

Inductive PyExn : Type :=
| IndexError
| TypeError
| AttributeError
| HostError               (* the RuntimeError a host command raises *)
| MelUIError (msg : string).

Inductive Result (A : Type) : Type :=
| Ok (a : A)
| Raise (e : PyExn).
Arguments Ok {A} a.
Arguments Raise {A} e.

(** A computation over a store [S]: the store is threaded through and is
    still there after an exception (Python does not roll anything back). *)
Definition M (S A : Type) : Type := S -> Result A * S.

Definition ret {S A} (a : A) : M S A := fun s => (Ok a, s).
Definition throw {S A} (e : PyExn) : M S A := fun s => (Raise e, s).
Definition bind {S A B} (m : M S A) (k : A -> M S B) : M S B :=
  fun s => match m s with
           | (Ok a, s') => k a s'
           | (Raise e, s') => (Raise e, s')
           end.
Definition lift {S A} (r : Result A) : M S A := fun s => (r, s).
Definition get_state {S} : M S S := fun s => (Ok s, s).
Definition put_state {S} (s : S) : M S unit := fun _ => (Ok tt, s).
Definition modify {S} (f : S -> S) : M S unit := fun s => (Ok tt, f s).

Declare Scope py_scope.
Delimit Scope py_scope with py.
Notation "x <- m ;; k" := (bind m (fun x => k))
  (at level 100, m at next level, right associativity) : py_scope.
Notation "m ;;; k" := (bind m (fun _ => k))
  (at level 100, right associativity) : py_scope.
Local Open Scope py_scope.

(** [for x in l: body x] *)
Fixpoint for_each {S A} (l : list A) (body : A -> M S unit) : M S unit :=
  match l with
  | [] => ret tt
  | x :: l' => body x ;;; for_each l' body
  end.

(** ** Python lists *)

Module PyList.
Section Ops.
Context {A : Type}.

(** Normalisation of a subscript: [0 <= i < n] is itself, [-n <= i < 0]
    counts from the end, everything else is out of range. *)
Definition norm_index (n : nat) (i : Z) : option nat :=
  if (0 <=? i) && (i <? Z.of_nat n) then Some (Z.to_nat i)
  else if (- Z.of_nat n <=? i) && (i <? 0) then Some (Z.to_nat (i + Z.of_nat n))
  else None.

(** [l[i]] *)
Definition getitem (l : list A) (i : Z) : Result A :=
  match norm_index (length l) i with
  | Some k => match nth_error l k with
              | Some x => Ok x
              | None => Raise IndexError
              end
  | None => Raise IndexError
  end.

(** removal of position [k] *)
Definition remove_at (k : nat) (l : list A) : list A :=
  firstn k l ++ skipn (S k) l.

(** insertion before position [k] *)
Definition insert_at (k : nat) (x : A) (l : list A) : list A :=
  firstn k l ++ x :: skipn k l.

(** [l.pop(i)]: the popped item and the list that is left *)
Definition pop (l : list A) (i : Z) : Result (A * list A) :=
  match norm_index (length l) i with
  | Some k => match nth_error l k with
              | Some x => Ok (x, remove_at k l)
              | None => Raise IndexError
              end
  | None => Raise IndexError
  end.

(** [l.insert(i, x)]: never raises, the position is clamped to [0..len] *)
Definition insert (l : list A) (i : Z) (x : A) : list A :=
  let n := Z.of_nat (length l) in
  let j := if i <? 0 then Z.max 0 (i + n) else Z.min i n in
  insert_at (Z.to_nat j) x l.
End Ops.

(** [l.sort()] on integers (insertion sort: on integers every sort agrees) *)
Fixpoint sort_insert (x : Z) (l : list Z) : list Z :=
  match l with
  | [] => [x]
  | y :: l' => if x <=? y then x :: l else y :: sort_insert x l'
  end.

Definition sort (l : list Z) : list Z := fold_right sort_insert [] l.

(** [[f(x) for x in l]] where [f] may raise *)
Fixpoint comprehension {A B} (f : A -> Result B) (l : list A) : Result (list B) :=
  match l with
  | [] => Ok []
  | x :: l' =>
      match f x with
      | Ok y => match comprehension f l' with
                | Ok ys => Ok (y :: ys)
                | Raise e => Raise e
                end
      | Raise e => Raise e
      end
  end.
End PyList.

(** A host query that returns an array hands Python [None] instead of an
    empty list; the source guards for it with [or []] (lines 248, 545, 547,
    741, 780, 937).  [None] is [None], [Some l] is the list [l]. *)
Definition host_array {A} (l : list A) : option (list A) :=
  match l with
  | [] => None
  | _ => Some l
  end.

(** [x or []] *)
Definition or_empty {A} (x : option (list A)) : list A :=
  match x with
  | Some l => l
  | None => []
  end.

(** ** The host's [textScrollList] command

    The host keeps, for one text scroll list, the displayed strings and the
    selected positions.  Host positions are 1-based. *)

Module Host.

Record TextScrollList : Type := mkTSL {
  tsl_items : list string;       (* -allItems *)
  tsl_sel : list Z;              (* -selectIndexedItem, 1-based *)
  tsl_ams : bool                 (* -allowMultiSelection *)
}.

Definition in_range (i : Z) (h : TextScrollList) : bool :=
  (1 <=? i) && (i <=? Z.of_nat (length (tsl_items h))).

(** [-e -append s] *)
Definition append (s : string) : M TextScrollList unit :=
  modify (fun h => mkTSL (tsl_items h ++ [s]) (tsl_sel h) (tsl_ams h)).

(** [-e -removeAll] *)
Definition removeAll : M TextScrollList unit :=
  modify (fun h => mkTSL [] [] (tsl_ams h)).

(** [-e -deselectAll] *)
Definition deselectAll : M TextScrollList unit :=
  modify (fun h => mkTSL (tsl_items h) [] (tsl_ams h)).

Definition mem (i : Z) (l : list Z) : bool := existsb (Z.eqb i) l.

(** [-e -selectIndexedItem i]: a position that is not in the list is a host
    error; without multi-selection the new selection replaces the old. *)
Definition selectIndexedItem (i : Z) : M TextScrollList unit :=
  fun h =>
    if in_range i h then
      let sel' := if tsl_ams h
                  then (if mem i (tsl_sel h) then tsl_sel h else tsl_sel h ++ [i])
                  else [i] in
      (Ok tt, mkTSL (tsl_items h) sel' (tsl_ams h))
    else (Raise HostError, h).

(** what is left of a selection when position [i] goes away *)
Definition sel_after_remove (i : Z) (sel : list Z) : list Z :=
  map (fun j => if i <? j then j - 1 else j)
      (List.filter (fun j => negb (j =? i)) sel).

(** [-e -removeIndexedItem i] *)
Definition removeIndexedItem (i : Z) : M TextScrollList unit :=
  fun h =>
    if in_range i h then
      (Ok tt, mkTSL (PyList.remove_at (Z.to_nat (i - 1)) (tsl_items h))
                    (sel_after_remove i (tsl_sel h)) (tsl_ams h))
    else (Raise HostError, h).

(** [-q -allItems] *)
Definition allItems : M TextScrollList (option (list string)) :=
  fun h => (Ok (host_array (tsl_items h)), h).

(** [-q -selectIndexedItem] *)
Definition selectedIndices : M TextScrollList (option (list Z)) :=
  fun h => (Ok (host_array (tsl_sel h)), h).

(** [-q -selectItem]: the strings at the selected positions *)
Definition selectedItems : M TextScrollList (option (list string)) :=
  fun h => (Ok (host_array (omap (fun i => nth_error (tsl_items h) (Z.to_nat (i - 1)))
                                 (tsl_sel h))), h).

(** [-q -numberOfItems] *)
Definition numberOfItems : M TextScrollList Z :=
  fun h => (Ok (Z.of_nat (length (tsl_items h))), h).

End Host.

(** ** [MelTextScrollList] (source lines 514-632)

    The methods of the plain text scroll list, over the host state.  [runCB]
    stands for [self._runCB], the user's change callback. *)

Module MelTextScrollList.
Import Host.

Abbreviation St := TextScrollList.

(** [__len__] *)
Definition len : M St Z := numberOfItems.

(** [getItems] *)
Definition getItems : M St (option (list string)) := allItems.

(** [getSelectedIdxs]: [[ idx-1 for idx in self( q=True, sii=True ) or [] ]] *)
Definition getSelectedIdxs : M St (list Z) :=
  r <- selectedIndices ;; ret (map (fun idx => idx - 1) (or_empty r)).

(** [getSelectedItems] *)
Definition getSelectedItems : M St (list string) :=
  r <- selectedItems ;; ret (or_empty r).

(** [selectByIdx] *)
Definition selectByIdx (runCB : M St unit) (idx : Z) (executeChangeCB : bool)
  : M St unit :=
  selectIndexedItem (idx + 1) ;;;
  if executeChangeCB then runCB else ret tt.

(** [append] *)
Definition append (item : string) : M St unit := Host.append item.

(** [removeByIdx] *)
Definition removeByIdx (idx : Z) : M St unit := removeIndexedItem (idx + 1).

(** [clear] *)
Definition clear : M St unit := removeAll.

(** [clearSelection] *)
Definition clearSelection : M St unit := deselectAll.

(** iterating over a value that may be [None] *)
Definition iter_items {A} (x : option (list A)) : M St (list A) :=
  match x with
  | Some l => ret l
  | None => throw TypeError
  end.

(** [setItems] *)
Definition setItems (items : option (list string)) : M St unit :=
  clear ;;;
  l <- iter_items items ;;
  for_each l append.

(** [items[idx]] on a value that may be [None] *)
Definition subscript (items : option (list string)) (idx : Z) : Result string :=
  match items with
  | Some l => PyList.getitem l idx
  | None => Raise TypeError
  end.

(** One round of the reordering loop:
    [item = items.pop( idx ); items.insert( target, item )]. *)
Definition pop_insert (items : option (list string)) (idx target : Z)
  : Result (option (list string)) :=
  match items with
  | Some l => match PyList.pop l idx with
              | Ok (item, l') => Ok (Some (PyList.insert l' target item))
              | Raise e => Raise e
              end
  | None => Raise AttributeError
  end.

(** [for idx in reversed( selIdxs ): pop; insert at idx+delta] *)
Fixpoint move_loop (idxs : list Z) (delta : Z) (items : option (list string))
  : Result (option (list string)) :=
  match idxs with
  | [] => Ok items
  | idx :: rest =>
      match pop_insert items idx (idx + delta) with
      | Ok items' => move_loop rest delta items'
      | Raise e => Raise e
      end
  end.

(** [moveSelectedItemsUp] (lines 589-609) *)
Definition moveSelectedItemsUp (runCB : M St unit) (count : Z) : M St unit :=
  selIdxs0 <- getSelectedIdxs ;;
  let selIdxs := PyList.sort selIdxs0 in
  first <- lift (PyList.getitem selIdxs 0) ;;
  let count := Z.min count first in
  if first >? 0 then
    items <- getItems ;;
    _itemsToMove <- lift (PyList.comprehension (subscript items) selIdxs) ;;
    items' <- lift (move_loop (rev selIdxs) (- count) items) ;;
    setItems items' ;;;
    clearSelection ;;;
    for_each selIdxs (fun idx => selectByIdx runCB (idx - count) false)
  else ret tt.

(** [len( items )] on a value that may be [None] *)
Definition py_len (items : option (list string)) : Result Z :=
  match items with
  | Some l => Ok (Z.of_nat (length l))
  | None => Raise TypeError
  end.

(** [moveSelectedItemsDown] (lines 610-632) *)
Definition moveSelectedItemsDown (runCB : M St unit) (count : Z) : M St unit :=
  selIdxs0 <- getSelectedIdxs ;;
  let selIdxs := PyList.sort selIdxs0 in
  items <- getItems ;;
  n <- lift (py_len items) ;;
  let maxIdx := n - 1 in
  last <- lift (PyList.getitem selIdxs (-1)) ;;
  let count := Z.min count (maxIdx - last) in
  if last <? maxIdx then
    _itemsToMove <- lift (PyList.comprehension (subscript items) selIdxs) ;;
    items' <- lift (move_loop (rev selIdxs) count items) ;;
    setItems items' ;;;
    clearSelection ;;;
    for_each selIdxs (fun idx => selectByIdx runCB (idx + count) false)
  else ret tt.

(** [__getitem__] (line 526) *)
Definition getitem (idx : Z) : M St string :=
  items <- getItems ;; lift (subscript items idx).

(** [__contains__] (line 528); [value in None] is a type error *)
Definition contains (value : string) : M St bool :=
  items <- getItems ;;
  match items with
  | Some l => ret (existsb (String.eqb value) l)
  | None => throw TypeError
  end.

(** [appendItems] (line 576) *)
Definition appendItems (items : list string) : M St unit :=
  for_each items append.

(** [attemptToSelect] (lines 552-567); every [len( self )] is a host query *)
Definition attemptToSelect (runCB : M St unit) (idx : Z) (executeChangeCB : bool)
  : M St unit :=
  n <- len ;;
  if n =? 0 then (if executeChangeCB then runCB else ret tt)
  else
    n1 <- len ;;
    idx <- (if idx >=? n1 then (n2 <- len ;; ret (n2 - 1)) else ret idx) ;;
    let idx := if idx <? 0 then 0 else idx in
    selectByIdx runCB idx executeChangeCB.

(** [removeSelectedItems] (lines 582-584) *)
Definition removeSelectedItems : M St unit :=
  idxs <- getSelectedIdxs ;; for_each idxs removeByIdx.

End MelTextScrollList.

(** ** [MelObjectScrollList] (source lines 635-709)

    The object variant keeps the Python objects in [self._items] and shows
    [itemAsStr] of each in the host list. *)

Module Str.

(** [s.split( sep )] for a one-character separator: [cur] is the piece being
    read. *)
Fixpoint split_from (sep : ascii) (cur : string) (s : string) : list string :=
  match s with
  | EmptyString => [cur]
  | String c s' =>
      if Ascii.eqb c sep then cur :: split_from sep EmptyString s'
      else split_from sep (cur ++ String c EmptyString) s'
  end.

Definition split (sep : ascii) (s : string) : list string :=
  split_from sep EmptyString s.

(** [pieces[ -1 ]] of a split, which is never empty *)
Definition last_piece (pieces : list string) : string :=
  List.last pieces EmptyString.

End Str.

Module MelObjectScrollList.
Import Host.

(** What a class (or instance) fixes: the objects' [str], their [==], the
    class attribute [DISPLAY_NAMESPACES].  [str( item )] runs the object's
    [__str__], which may raise: [py_str] is the string or the exception. *)
Record Class (Item : Type) : Type := mkClass {
  py_str : Item -> Result string;
  py_eq : Item -> Item -> bool;
  DISPLAY_NAMESPACES : bool
}.
Arguments py_str {Item} _ _.
Arguments py_eq {Item} _ _ _.
Arguments DISPLAY_NAMESPACES {Item} _.

(** The wrapper object together with its host widget. *)
Record Obj (Item : Type) : Type := mkObj {
  widget : TextScrollList;
  _items : list Item
}.
Arguments mkObj {Item} _ _.
Arguments widget {Item} _.
Arguments _items {Item} _.

Section Methods.
Context {Item : Type}.
Variable cls : Class Item.

(** [self._appendCB]: [None], or a callable that gets the appended item *)
Variable _appendCB : option (Item -> M (Obj Item) unit).

(** a host command run on the widget of the object *)
Definition on_widget {A} (m : M TextScrollList A) : M (Obj Item) A :=
  fun o => match m (widget o) with
           | (r, h') => (r, mkObj h' (_items o))
           end.

(** [itemAsStr]; it raises what [str( item )] raises *)
Definition itemAsStr (item : Item) : Result string :=
  if DISPLAY_NAMESPACES cls then py_str cls item
  else
    match py_str cls item with
    | Ok s =>
        let withoutNamespace := Str.last_piece (Str.split ":" s) in
        let withoutPaths := Str.last_piece (Str.split "|" withoutNamespace) in
        Ok withoutPaths
    | Raise e => Raise e
    end.

(** [[ self.itemAsStr( item ) for item in items ]]: the display strings of a
    list of objects, if [str] returns for each *)
Definition shown (items : list Item) : Result (list string) :=
  PyList.comprehension itemAsStr items.

(** [str( item )] returns *)
Definition displayable (item : Item) : Prop :=
  exists s, itemAsStr item = Ok s.

(** [getItems] *)
Definition getItems : M (Obj Item) (list Item) :=
  fun o => (Ok (_items o), o).

(** [getSelectedIdxs], inherited *)
Definition getSelectedIdxs : M (Obj Item) (list Z) :=
  on_widget MelTextScrollList.getSelectedIdxs.

(** [selectByIdx], inherited, with [executeChangeCB] false *)
Definition selectByIdx (idx : Z) : M (Obj Item) unit :=
  on_widget (MelTextScrollList.selectByIdx (ret tt) idx false).

(** [append] (lines 675-679): the object is in [_items] before its string
    is asked for *)
Definition append (item : Item) : M (Obj Item) unit :=
  modify (fun o => mkObj (widget o) (_items o ++ [item])) ;;;
  s <- lift (itemAsStr item) ;;
  on_widget (Host.append s) ;;;
  match _appendCB with
  | Some cb => cb item
  | None => ret tt
  end.

(** [self._items.pop( idx )] *)
Definition pop_item (idx : Z) : M (Obj Item) Item :=
  fun o => match PyList.pop (_items o) idx with
           | Ok (x, rest) => (Ok x, mkObj (widget o) rest)
           | Raise e => (Raise e, o)
           end.

(** [removeByIdx] *)
Definition removeByIdx (idx : Z) : M (Obj Item) unit :=
  pop_item idx ;;;
  on_widget (removeIndexedItem (idx + 1)).

(** [self._items.index( value )] when [value in self._items] *)
Fixpoint index_of (value : Item) (l : list Item) : option nat :=
  match l with
  | [] => None
  | x :: l' => if py_eq cls x value then Some 0%nat
               else option_map S (index_of value l')
  end.

(** The loop of [removeByValue] (lines 690-693).  It pops from the list it
    iterates: the iterator keeps a position [p] into the live list and stops
    when [p] is no longer inside it. *)
Fixpoint remove_matching (fuel : nat) (valueStr : string) (p : nat)
  : M (Obj Item) unit :=
  match fuel with
  | O => ret tt
  | S fuel' =>
      o <- get_state ;;
      match nth_error (_items o) p with
      | None => ret tt
      | Some item =>
          s <- lift (itemAsStr item) ;;
          (if String.eqb s valueStr then
             pop_item (Z.of_nat p) ;;;
             on_widget (removeIndexedItem (Z.of_nat p + 1))
           else ret tt) ;;;
          remove_matching fuel' valueStr (S p)
      end
  end.

(** [removeByValue] *)
Definition removeByValue (value : Item) : M (Obj Item) unit :=
  o <- get_state ;;
  match index_of value (_items o) with
  | Some idx =>
      pop_item (Z.of_nat idx) ;;;
      on_widget (removeIndexedItem (Z.of_nat idx + 1))
  | None =>
      valueStr <- lift (itemAsStr value) ;;
      remove_matching (length (_items o)) valueStr 0
  end.

(** [clear] *)
Definition clear : M (Obj Item) unit :=
  modify (fun o => mkObj (widget o) []) ;;;
  on_widget removeAll.

(** [setItems], inherited: it calls the [clear] and [append] of this class *)
Definition setItems (items : list Item) : M (Obj Item) unit :=
  clear ;;;
  for_each items append.

(** the loop of [update] (lines 704-705): one string, one host append *)
Definition show_item (item : Item) : M (Obj Item) unit :=
  s <- lift (itemAsStr item) ;;
  on_widget (Host.append s).

(** [update] *)
Definition update (maintainSelection : bool) : M (Obj Item) unit :=
  selIdxs <- getSelectedIdxs ;;
  on_widget removeAll ;;;
  o <- get_state ;;
  for_each (_items o) show_item ;;;
  if maintainSelection then for_each selIdxs selectByIdx else ret tt.

(** [__len__], inherited *)
Definition len : M (Obj Item) Z := on_widget numberOfItems.

(** [getSelectedItems] (lines 658-660) *)
Definition getSelectedItems : M (Obj Item) (list Item) :=
  selectedIdxs <- getSelectedIdxs ;;
  o <- get_state ;;
  lift (PyList.comprehension (PyList.getitem (_items o)) selectedIdxs).

(** [enumerate( l )] from counter [n] *)
Fixpoint enumerate_from (n : Z) (l : list Item) : list (Z * Item) :=
  match l with
  | [] => []
  | x :: l' => (n, x) :: enumerate_from (n + 1) l'
  end.

(** [selectByValue] (lines 661-674); [runCB] is the change callback *)
Definition selectByValue (runCB : M (Obj Item) unit) (value : Item)
  (executeChangeCB : bool) : M (Obj Item) unit :=
  o <- get_state ;;
  (match index_of value (_items o) with
   | Some k =>
       let idx := Z.of_nat k + 1 in
       on_widget (selectIndexedItem idx)
   | None =>
       valueStr <- lift (itemAsStr value) ;;
       for_each (enumerate_from 0 (_items o))
         (fun '(idx, item) =>
            s <- lift (itemAsStr item) ;;
            if String.eqb s valueStr
            then on_widget (selectIndexedItem (idx + 1))
            else ret tt)
   end) ;;;
  if executeChangeCB then runCB else ret tt.

(** The operations that change the two sequences. *)
Inductive Op : Type :=
| OpAppend (item : Item)
| OpRemoveByIdx (idx : Z)
| OpRemoveByValue (value : Item)
| OpSetItems (items : list Item)
| OpClear
| OpUpdate (maintainSelection : bool).

Definition run (op : Op) : M (Obj Item) unit :=
  match op with
  | OpAppend item => append item
  | OpRemoveByIdx idx => removeByIdx idx
  | OpRemoveByValue value => removeByValue value
  | OpSetItems items => setItems items
  | OpClear => clear
  | OpUpdate b => update b
  end.

(** The two sequences agree: the host shows [itemAsStr] of each object, in
    order. *)
Definition lock_step (o : Obj Item) : Prop :=
  length (tsl_items (widget o)) = length (_items o) /\
  forall i : nat, (i < length (_items o))%nat ->
    option_map Ok (nth_error (tsl_items (widget o)) i)
    = option_map itemAsStr (nth_error (_items o) i).

(** what the claim of lock-step takes for granted of a call: [str] returns
    for the objects it is given, and an index is not negative *)
Definition within_contract (op : Op) : Prop :=
  match op with
  | OpAppend item => displayable item
  | OpSetItems items => Forall displayable items
  | OpRemoveByIdx idx => 0 <= idx
  | _ => True
  end.

(** The user's append callback keeps the two sequences together. *)
Definition callback_keeps_lock_step : Prop :=
  forall cb item o, _appendCB = Some cb ->
    lock_step o -> lock_step (snd (cb item o)).

End Methods.
End MelObjectScrollList.

(** ** The class hierarchy (source lines 18-845)

    Every wrapper class, its base class, and the class attributes it
    declares itself.  An attribute a class does not declare is looked up
    along the bases, as Python does (all classes have one base). *)

(** A host command ([cmd.button], [cmd.control], ...), by its name. *)
Definition Cmd : Type := string.

Inductive WidgetClass : Type :=
| BaseMelWidget
| MelLayout | MelForm | MelColumn | MelRow | MelScrollLayout | MelTabLayout
| MelPaneLayout
| MelLabel | MelButton | MelCheckBox | MelIntField | MelFloatField
| MelTextField | MelScrollField | MelNameField | MelObjectSelector
| MelTextScrollList | MelObjectScrollList
| _MelBaseMenu | MelMenu | MelOptionMenu | MelPopupMenu
| MelMenuItem | MelMenuItemDiv
| MelProgressWindow.

#[global] Instance WidgetClass_eq_dec : EqDecision WidgetClass.
Proof. solve_decision. Defined.

Module Classes.

(** the base class in the [class] statement *)
Definition base (c : WidgetClass) : option WidgetClass :=
  match c with
  | BaseMelWidget => None
  | MelLayout => Some BaseMelWidget
  | MelForm | MelColumn | MelRow | MelScrollLayout | MelTabLayout
  | MelPaneLayout => Some MelLayout
  | MelLabel => Some BaseMelWidget
  | MelButton => Some MelLabel
  | MelCheckBox | MelIntField | MelFloatField | MelTextField => Some BaseMelWidget
  | MelScrollField | MelNameField => Some MelTextField
  | MelObjectSelector => Some MelForm
  | MelTextScrollList => Some BaseMelWidget
  | MelObjectScrollList => Some MelTextScrollList
  | _MelBaseMenu => Some BaseMelWidget
  | MelMenu | MelOptionMenu | MelPopupMenu => Some _MelBaseMenu
  | MelMenuItem => Some BaseMelWidget
  | MelMenuItemDiv => Some MelMenuItem
  | MelProgressWindow => Some BaseMelWidget
  end.

(** the class and its bases, nearest first; no chain is longer than four *)
Fixpoint mro_from (depth : nat) (c : WidgetClass) : list WidgetClass :=
  match depth with
  | O => []
  | S d => c :: match base c with
                | Some b => mro_from d b
                | None => []
                end
  end.

Definition mro (c : WidgetClass) : list WidgetClass := mro_from 4 c.

(** [issubclass( c, d )] *)
Definition issubclass (c d : WidgetClass) : bool :=
  existsb (fun x => bool_decide (x = d)) (mro c).

(** attribute lookup: the first class of the chain that declares it *)
Fixpoint first_declared {A} (own : WidgetClass -> option A) (chain : list WidgetClass)
  : option A :=
  match chain with
  | [] => None
  | c :: rest => match own c with
                 | Some a => Some a
                 | None => first_declared own rest
                 end
  end.

Definition class_attr {A} (own : WidgetClass -> option A) (c : WidgetClass) : option A :=
  first_declared own (mro c).

(** [WIDGET_CMD] as declared in each class body *)
Definition own_WIDGET_CMD (c : WidgetClass) : option Cmd :=
  match c with
  | BaseMelWidget => Some "control"
  | MelLayout => Some "layout"
  | MelForm => Some "formLayout"
  | MelColumn => Some "columnLayout"
  | MelRow => Some "rowLayout"
  | MelScrollLayout => Some "scrollLayout"
  | MelTabLayout => Some "tabLayout"
  | MelPaneLayout => Some "paneLayout"
  | MelLabel => Some "text"
  | MelButton => Some "button"
  | MelCheckBox => Some "checkBox"
  | MelIntField => Some "intField"
  | MelFloatField => Some "floatField"
  | MelTextField => Some "textField"
  | MelScrollField => Some "scrollField"
  | MelNameField => Some "nameField"
  | MelObjectSelector => None
  | MelTextScrollList => Some "textScrollList"
  | MelObjectScrollList => None
  | _MelBaseMenu => None
  | MelMenu => Some "menu"
  | MelOptionMenu => Some "optionMenu"
  | MelPopupMenu => Some "popupMenu"
  | MelMenuItem => Some "menuItem"
  | MelMenuItemDiv => None
  | MelProgressWindow => Some "progressWindow"
  end%string.

(** [cls.WIDGET_CMD]; every chain ends in [BaseMelWidget], which declares
    [cmd.control] *)
Definition WIDGET_CMD (c : WidgetClass) : Cmd :=
  match class_attr own_WIDGET_CMD c with
  | Some k => k
  | None => "control"%string
  end.

(** [DEFAULT_WIDTH] as declared: [Some None] is a declared [None] *)
Definition own_DEFAULT_WIDTH (c : WidgetClass) : option (option Z) :=
  match c with
  | BaseMelWidget => Some None
  | MelLayout => Some None
  | MelIntField => Some (Some 30)
  | MelTextField => Some (Some 150)
  | _MelBaseMenu => Some None
  | MelMenuItem => Some None
  | _ => None
  end.

(** [DEFAULT_HEIGHT] as declared; the base class has 24 from host version
    2011 on and [None] before *)
Definition own_DEFAULT_HEIGHT (v2011 : bool) (c : WidgetClass) : option (option Z) :=
  match c with
  | BaseMelWidget => Some (if v2011 then Some 24 else None)
  | MelLayout => Some None
  | _MelBaseMenu => Some None
  | MelMenuItem => Some None
  | _ => None
  end.

Definition DEFAULT_WIDTH (c : WidgetClass) : option Z :=
  match class_attr own_DEFAULT_WIDTH c with
  | Some w => w
  | None => None
  end.

Definition DEFAULT_HEIGHT (v2011 : bool) (c : WidgetClass) : option Z :=
  match class_attr (own_DEFAULT_HEIGHT v2011) c with
  | Some h => h
  | None => None
  end.

(** [KWARG_CHANGE_CB_NAME] as declared *)
Definition own_KWARG_CHANGE_CB_NAME (c : WidgetClass) : option string :=
  match c with
  | BaseMelWidget => Some "cc"
  | MelPaneLayout => Some "separatorMovedCommand"
  | MelButton => Some "c"
  | MelTextScrollList => Some "sc"
  | _MelBaseMenu => Some "pmc"
  | MelOptionMenu => Some "cc"
  | _ => None
  end%string.

Definition KWARG_CHANGE_CB_NAME (c : WidgetClass) : string :=
  match class_attr own_KWARG_CHANGE_CB_NAME c with
  | Some k => k
  | None => "cc"%string
  end.

(** [TYPE_NAMES_TO_CMDS] (lines 15-16) *)
Definition TYPE_NAMES_TO_CMDS (uiTypeStr : string) : option Cmd :=
  if String.eqb uiTypeStr "staticText" then Some "text"%string
  else if String.eqb uiTypeStr "field" then Some "textField"%string
  else None.

End Classes.

(** ** Wrapper objects and the instance registry *)

(** A wrapper object: a string (the widget name) with a class.  The
    attributes [parent] and [_changeCB] that [__new__] sets play no part in
    what follows and are left out. *)
Record Wrapper (Name : Type) : Type := mkWrapper {
  w_class : WidgetClass;
  w_name : Name
}.
Arguments mkWrapper {Name} _ _.
Arguments w_class {Name} _.
Arguments w_name {Name} _.

(** The [_INSTANCE_LIST] attributes and the list objects they refer to.

    A Python list is an object: the attribute holds a reference to it, and
    so does the loop of a generator that walks it.  [deref] gives the list
    at an address and [fresh] is the next unused address.  The base class
    has the attribute from its class body on (line 52) and nothing deletes
    it: [base_ref] is the address it holds.  A subclass has an attribute of
    its own only after an assignment [cls._INSTANCE_LIST = ...] (line 235):
    [sub_ref]. *)
Record Store (Name : Type) : Type := mkStore {
  deref : nat -> list (Wrapper Name);
  fresh : nat;
  base_ref : nat;
  sub_ref : WidgetClass -> option nat
}.
Arguments mkStore {Name} _ _ _ _.
Arguments deref {Name} _ _.
Arguments fresh {Name} _.
Arguments base_ref {Name} _.
Arguments sub_ref {Name} _ _.

(** What the host must answer for the wrappers of this part. *)
Record HostAPI (H Name : Type) : Type := mkHostAPI {
  (* [cmd.objectTypeUI( name )]; raises for a name the host does not know *)
  objectTypeUI : Name -> M H string;
  (* [c( name, q=True, exists=True )] *)
  widget_exists : Cmd -> Name -> H -> bool;
  (* [getattr( cmd, s, None )]: the host command called [s], if any *)
  cmd_getattr : string -> option Cmd
}.
Arguments objectTypeUI {H Name} _ _.
Arguments widget_exists {H Name} _ _ _ _.
Arguments cmd_getattr {H Name} _ _.

Module Registry.
Import Classes.

Section WithHost.
Context {H Name : Type}.
Variable api : HostAPI H Name.

(** [BaseMelWidget.GetSubclasses()], from [filesystem.trackableClassFactory],
    which is not part of this file: the classes it lists, in its order. *)
Variable GetSubclasses : list WidgetClass.

(** the store at import time: the list of line 52, empty *)
Definition initial_store : Store Name :=
  mkStore (fun _ => []) 1 0 (fun _ => None).

(** the attribute [_INSTANCE_LIST] as each class has it itself *)
Definition own_INSTANCE_LIST (st : Store Name) (c : WidgetClass) : option nat :=
  match c with
  | BaseMelWidget => Some (base_ref st)
  | _ => sub_ref st c
  end.

(** the list object [cls._INSTANCE_LIST] refers to; every chain of bases
    ends in [BaseMelWidget], so the lookup finds one *)
Definition instance_ref (st : Store Name) (cls : WidgetClass) : nat :=
  match class_attr (own_INSTANCE_LIST st) cls with
  | Some a => a
  | None => base_ref st
  end.

(** [cls._INSTANCE_LIST] (read) *)
Definition instance_list (st : Store Name) (cls : WidgetClass) : list (Wrapper Name) :=
  deref st (instance_ref st cls).

(** the list object at address [a] becomes [l] *)
Definition set_deref (a : nat) (l : list (Wrapper Name)) (st : Store Name) : Store Name :=
  mkStore (fun b => if Nat.eqb b a then l else deref st b)
          (fresh st) (base_ref st) (sub_ref st).

(** [cls._INSTANCE_LIST.append( new )]: the list object found by the lookup
    is changed in place, for everyone who holds a reference to it *)
Definition registry_append (cls : WidgetClass) (new : Wrapper Name) (st : Store Name)
  : Store Name :=
  set_deref (instance_ref st cls) (instance_list st cls ++ [new]) st.

(** [cls._INSTANCE_LIST = l], [l] being a list nobody else refers to: a new
    list object, and [cls] itself gets the attribute *)
Definition registry_assign (cls : WidgetClass) (l : list (Wrapper Name)) (st : Store Name)
  : Store Name :=
  let a := fresh st in
  mkStore (fun b => if Nat.eqb b a then l else deref st b)
          (S a)
          (match cls with BaseMelWidget => a | _ => base_ref st end)
          (fun c => if bool_decide (c = cls) then Some a else sub_ref st c).

(** the process-wide registry of line 52: [BaseMelWidget._INSTANCE_LIST] *)
Definition registry (st : Store Name) : list (Wrapper Name) :=
  deref st (base_ref st).

(** every reference is to a list object that exists *)
Definition refs_allocated (st : Store Name) : Prop :=
  (base_ref st < fresh st)%nat /\
  forall c a, sub_ref st c = Some a -> (a < fresh st)%nat.

(** [isinstance( inst, cls )] *)
Definition isinstance (inst : Wrapper Name) (cls : WidgetClass) : bool :=
  issubclass (w_class inst) cls.


(** *** [FromStr] (lines 196-223) *)

(** [TYPE_NAMES_TO_CMDS.get( uiTypeStr, getattr( cmd, uiTypeStr, None ) )] *)
Definition ui_cmd (uiTypeStr : string) : option Cmd :=
  match TYPE_NAMES_TO_CMDS uiTypeStr with
  | Some c => Some c
  | None => cmd_getattr api uiTypeStr
  end.

(** the [candidates] list; every class here has a [WIDGET_CMD], so the
    [is None] test of line 212 never skips *)
Definition candidates (uiCmd : option Cmd) : list WidgetClass :=
  match uiCmd with
  | Some k => List.filter (fun subCls => String.eqb (WIDGET_CMD subCls) k) GetSubclasses
  | None => []
  end.

Definition pick_class (cls : WidgetClass) (cands : list WidgetClass) : WidgetClass :=
  match cands with
  | [] => cls
  | c :: _ => c
  end.

Definition FromStr (cls : WidgetClass) (theStr : Name) : M (H * Store Name) (Wrapper Name) :=
  fun '(h, st) =>
    match objectTypeUI api theStr h with
    | (Ok uiTypeStr, h') =>
        let uiCmd := ui_cmd uiTypeStr in
        let theCls := pick_class cls (candidates uiCmd) in
        let new := mkWrapper theCls theStr in
        (Ok new, (h', registry_append cls new st))
    | (Raise e, h') => (Raise e, (h', st))
    end.

(** *** [IterInstances] (lines 224-235)

    A generator: nothing runs before the first [next]; each [next] runs the
    loop up to the next [yield]; the assignment of line 235 runs when the
    loop is over.  The loop of line 227 holds a reference to the list object
    [cls._INSTANCE_LIST] referred to at the first [next], and a position in
    it: it sees what is appended to that object while it runs, and it goes
    on walking that object when the attribute is bound to another.
    [existingInstList] is a list of the generator's own until line 235. *)

Inductive Gen : Type :=
| NotStarted
| Running (lst : nat) (pos : nat) (existingInstList : list (Wrapper Name))
| Finished.

(** the loop from position [pos], [rest] being the list from there on, to
    the next [yield] or to the end of the list *)
Fixpoint scan (cls : WidgetClass) (h : H) (rest : list (Wrapper Name)) (pos : nat)
  (existingInstList : list (Wrapper Name))
  : option (Wrapper Name * nat) * list (Wrapper Name) :=
  match rest with
  | [] => (None, existingInstList)
  | inst :: rest' =>
      if negb (isinstance inst cls) then scan cls h rest' (S pos) existingInstList
      else if widget_exists api (WIDGET_CMD cls) (w_name inst) h
           then (Some (inst, S pos), existingInstList ++ [inst])
           else scan cls h rest' (S pos) existingInstList
  end.

(** [next( gen )]: [Some inst] is a yield, [None] is [StopIteration] *)
Definition next (cls : WidgetClass) (h : H) (g : Gen) (st : Store Name)
  : option (Wrapper Name) * Gen * Store Name :=
  let resume lst pos existing :=
    match scan cls h (skipn pos (deref st lst)) pos existing with
    | (Some (inst, pos'), existing') => (Some inst, Running lst pos' existing', st)
    | (None, existing') => (None, Finished, registry_assign cls existing' st)
    end in
  match g with
  | NotStarted => resume (instance_ref st cls) 0%nat []
  | Running lst pos existing => resume lst pos existing
  | Finished => (None, Finished, st)
  end.

(** [for inst in gen: pass], at most [fuel] calls of [next] *)
Fixpoint drain (fuel : nat) (cls : WidgetClass) (h : H) (g : Gen) (st : Store Name)
  : list (Wrapper Name) * Gen * Store Name :=
  match fuel with
  | O => ([], g, st)
  | S fuel' =>
      match next cls h g st with
      | (Some inst, g', st') =>
          match drain fuel' cls h g' st' with
          | (ys, g'', st'') => (inst :: ys, g'', st'')
          end
      | (None, g', st') => ([], g', st')
      end
  end.

(** [list( cls.IterInstances() )]: one [next] per entry and one more *)
Definition IterInstances (cls : WidgetClass) (h : H) (st : Store Name)
  : list (Wrapper Name) * Gen * Store Name :=
  drain (S (length (instance_list st cls))) cls h NotStarted st.

(** the entries of [l] the loop keeps: instances of [cls] for which the
    test of line 231 holds *)
Definition live (cls : WidgetClass) (h : H) (l : list (Wrapper Name)) : list (Wrapper Name) :=
  List.filter (fun inst => isinstance inst cls
                           && widget_exists api (WIDGET_CMD cls) (w_name inst) h) l.

(** What runs while an iteration is under way, as far as the lists go: the
    consumer asks for the next instance, or a wrapper is registered by
    [__new__] or [FromStr] on some class. *)
Inductive Step : Type :=
| StepNext
| StepRegister (c : WidgetClass) (new : Wrapper Name).

(** the generator and the store after a sequence of such steps *)
Fixpoint interleave (script : list Step) (cls : WidgetClass) (h : H) (g : Gen)
  (st : Store Name) : Gen * Store Name :=
  match script with
  | [] => (g, st)
  | StepNext :: script' =>
      match next cls h g st with
      | (_, g', st') => interleave script' cls h g' st'
      end
  | StepRegister c new :: script' =>
      interleave script' cls h g (registry_append c new st)
  end.


End WithHost.
End Registry.

(** ** [BaseMelWidget]: size and visibility (source lines 118-147) *)

Module Visibility.

(** what the host keeps for a control *)
Record Control : Type := mkControl {
  c_width : Z;
  c_height : Z;
  c_vis : bool
}.

(** the wrapper object: its widget and the attribute [_preSize], which the
    object does not have until a first hide ([hasattr], line 122) *)
Record Obj : Type := mkObj {
  ctl : Control;
  _preSize : option (Z * Z)
}.

(** [self( e=True, w=.., h=.. )] *)
Definition edit_wh (w h : Z) : M Obj unit :=
  modify (fun o => mkObj (mkControl w h (c_vis (ctl o))) (_preSize o)).

(** [self( e=True, vis=.. )] *)
Definition edit_vis (v : bool) : M Obj unit :=
  modify (fun o => mkObj (mkControl (c_width (ctl o)) (c_height (ctl o)) v) (_preSize o)).

(** [setSize] *)
Definition setSize (widthHeight : Z * Z) : M Obj unit :=
  edit_wh (fst widthHeight) (snd widthHeight).

(** [getSize] *)
Definition getSize : M Obj (Z * Z) :=
  w <- (fun o => (Ok (c_width (ctl o)), o)) ;;
  h <- (fun o => (Ok (c_height (ctl o)), o)) ;;
  ret (w, h).

(** [getVisibility] *)
Definition getVisibility : M Obj bool :=
  fun o => (Ok (c_vis (ctl o)), o).

(** [setVisibility] *)
Definition setVisibility (visibility : bool) : M Obj unit :=
  (if visibility then
     o <- get_state ;;
     match _preSize o with
     | Some sz => setSize sz
     | None => ret tt
     end
   else
     sz <- getSize ;;
     modify (fun o => mkObj (ctl o) (Some sz)) ;;;
     setSize (1, 1)) ;;;
  edit_vis visibility.

(** [hide], [show] *)
Definition hide : M Obj unit := setVisibility false.
Definition show : M Obj unit := setVisibility true.

End Visibility.

(** ** [MelPaneLayout]: the index-taking methods (source lines 348-382)

    The host numbers panes from 1.  Every host call is recorded, with the
    pane number it was given. *)

Module MelPaneLayout.

Inductive HostCall : Type :=
| QueryPaneSize (pane : Z)                 (* [q=True, paneSize=pane] *)
| EditPaneSize (pane w h : Z)              (* [e=True, paneSize=(pane, w, h)] *)
| EditSetPane (ui : string) (pane : Z)     (* [e=True, setPane=(ui, pane)] *)
| QueryActivePaneIndex.                    (* [q=True, activePaneIndex=True] *)

Record Pane : Type := mkPane {
  p_sizes : list (Z * Z);       (* (width, height) of pane 1, 2, ... *)
  p_children : list string;     (* the control in pane 1, 2, ... *)
  p_active : Z;                 (* the active pane, 1-based *)
  p_calls : list HostCall       (* the calls so far, oldest first *)
}.

Definition log (c : HostCall) (h : Pane) : Pane :=
  mkPane (p_sizes h) (p_children h) (p_active h) (p_calls h ++ [c]).

Definition has_pane (pane : Z) (h : Pane) : bool :=
  (1 <=? pane) && (pane <=? Z.of_nat (length (p_sizes h))).

(** replacement of position [k] *)
Definition set_nth {A} (k : nat) (x : A) (l : list A) : list A :=
  firstn k l ++ match skipn k l with
                | [] => []
                | _ :: tl => x :: tl
                end.

Definition query_paneSize (pane : Z) : M Pane (Z * Z) :=
  fun h =>
    let h' := log (QueryPaneSize pane) h in
    match (if has_pane pane h then nth_error (p_sizes h) (Z.to_nat (pane - 1)) else None) with
    | Some sz => (Ok sz, h')
    | None => (Raise HostError, h')
    end.

Definition edit_paneSize (pane w h_ : Z) : M Pane unit :=
  fun h =>
    let h' := log (EditPaneSize pane w h_) h in
    if has_pane pane h then
      (Ok tt, mkPane (set_nth (Z.to_nat (pane - 1)) (w, h_) (p_sizes h'))
                     (p_children h') (p_active h') (p_calls h'))
    else (Raise HostError, h').

Definition edit_setPane (ui : string) (pane : Z) : M Pane unit :=
  fun h =>
    let h' := log (EditSetPane ui pane) h in
    if (1 <=? pane) && (pane <=? Z.of_nat (length (p_children h))) then
      (Ok tt, mkPane (p_sizes h') (set_nth (Z.to_nat (pane - 1)) ui (p_children h'))
                     (p_active h') (p_calls h'))
    else (Raise HostError, h').

Definition query_activePaneIndex : M Pane Z :=
  fun h => (Ok (p_active h), log QueryActivePaneIndex h).

(** [__setitem__] *)
Definition setitem (idx : Z) (ui : string) : M Pane unit :=
  let idx := idx + 1 in
  edit_setPane ui idx.

(** [getPaneActiveIdx] *)
Definition getPaneActiveIdx : M Pane Z :=
  i <- query_activePaneIndex ;; ret (i - 1).

(** [getPaneSize] *)
Definition getPaneSize (idx : Z) : M Pane (Z * Z) :=
  let idx := idx + 1 in
  query_paneSize idx.

(** [setPaneSize] *)
Definition setPaneSize (idx : Z) (size : Z * Z) : M Pane unit :=
  let idx := idx + 1 in
  edit_paneSize idx (fst size) (snd size).

(** [setPaneWidth] *)
Definition setPaneWidth (idx : Z) (size : Z) : M Pane unit :=
  let idx := idx + 1 in
  curSize <- getPaneSize idx ;;
  edit_paneSize idx (fst curSize) size.

(** [setPaneHeight] *)
Definition setPaneHeight (idx : Z) (size : Z) : M Pane unit :=
  let idx := idx + 1 in
  curSize <- getPaneSize idx ;;
  edit_paneSize idx size (snd curSize).

(** the pane numbers a run handed to the host, in order *)
Definition pane_of (c : HostCall) : option Z :=
  match c with
  | QueryPaneSize p => Some p
  | EditPaneSize p _ _ => Some p
  | EditSetPane _ p => Some p
  | QueryActivePaneIndex => None
  end.

Definition host_panes (h : Pane) : list Z := omap pane_of (p_calls h).

(** a layout of two panes, 100x40 and 300x80 *)
Definition two_panes : Pane :=
  mkPane [(100, 40); (300, 80)] ["left"; "right"]%string 1 [].

End MelPaneLayout.

(** ** [MelLayout] (source lines 238-257)

    The host names a widget by its path from the window down,
    [window|layout|button]; a path is the list of its segments.  A child of
    a layout is a widget one segment below it; deleting a widget deletes
    what is below it. *)

Module MelLayout.
Import Classes.

Definition Path : Type := list string.

(** the widgets of the host, each with its type string *)
Definition UI : Type := list (Path * string).

Fixpoint path_eqb (p q : Path) : bool :=
  match p, q with
  | [], [] => true
  | a :: p', b :: q' => String.eqb a b && path_eqb p' q'
  | _, _ => false
  end.

(** [p] is [q] or is above [q] *)
Fixpoint is_prefix (p q : Path) : bool :=
  match p, q with
  | [], _ => true
  | a :: p', b :: q' => String.eqb a b && is_prefix p' q'
  | _ :: _, [] => false
  end.

(** [q] is one segment below [p] *)
Definition is_child (p q : Path) : bool :=
  is_prefix p q && Nat.eqb (length q) (S (length p)).

Definition known (n : Path) (h : UI) : bool :=
  existsb (fun w => path_eqb (fst w) n) h.

(** [cmd.objectTypeUI( n )] *)
Definition host_objectTypeUI (n : Path) : M UI string :=
  fun h => match List.find (fun w => path_eqb (fst w) n) h with
           | Some w => (Ok (snd w), h)
           | None => (Raise HostError, h)
           end.

(** [cmd.deleteUI( n )] *)
Definition deleteUI (n : Path) : M UI unit :=
  fun h => if known n h
           then (Ok tt, List.filter (fun w => negb (is_prefix n (fst w))) h)
           else (Raise HostError, h).

(** [self( q=True, ca=True )] *)
Definition childArray (self : Path) : M UI (option (list Path)) :=
  fun h => (Ok (host_array (map fst (List.filter (fun w => is_child self (fst w)) h))), h).

(** the children the host lists for [self] *)
Definition children_of (self : Path) (h : UI) : list Path :=
  map fst (List.filter (fun w => is_child self (fst w)) h).

(** what is left of the host when the widgets [cs] are deleted *)
Definition without (cs : list Path) (h : UI) : UI :=
  List.filter (fun w => negb (existsb (fun c => is_prefix c (fst w)) cs)) h.

Section WithCmds.
(** [getattr( cmd, s, None )] and [BaseMelWidget.GetSubclasses()] *)
Variable getattr_cmd : string -> option Cmd.
Variable GetSubclasses : list WidgetClass.

Definition api : HostAPI UI Path :=
  mkHostAPI UI Path host_objectTypeUI (fun _ n h => known n h) getattr_cmd.

(** a host command inside a computation that also carries the registry *)
Definition on_host {A} (m : M UI A) : M (UI * Store Path) A :=
  fun '(h, st) => match m h with (r, h') => (r, (h', st)) end.

(** [[ BaseMelWidget.FromStr( c ) for c in children ]] *)
Fixpoint from_strs (children : list Path) : M (UI * Store Path) (list (Wrapper Path)) :=
  match children with
  | [] => ret []
  | c :: rest =>
      w <- Registry.FromStr api GetSubclasses BaseMelWidget c ;;
      ws <- from_strs rest ;;
      ret (w :: ws)
  end.

(** [getChildren] *)
Definition getChildren (self : Path) : M (UI * Store Path) (list (Wrapper Path)) :=
  r <- on_host (childArray self) ;;
  let children := or_empty r in
  from_strs children.

(** [clear] *)
Definition clear (self : Path) : M (UI * Store Path) unit :=
  children <- getChildren self ;;
  for_each children (fun childUI => on_host (deleteUI (w_name childUI))).

End WithCmds.
End MelLayout.

(** ** [BaseMelWidget.__new__] (source lines 61-98) *)

Module Construct.
Import Classes.

(** the Python values that occur as keyword arguments *)
Inductive PyVal : Type :=
| VNone
| VBool (b : bool)
| VInt (z : Z)
| VStr (s : string)
| VObj (id : nat).              (* any other object: a callback, a tuple, ... *)

(** [**kw] *)
Definition Kwargs : Type := gmap string PyVal.

(** [isinstance( v, int )]; a [bool] is an [int] *)
Definition is_int (v : PyVal) : bool :=
  match v with
  | VInt _ | VBool _ => true
  | _ => false
  end.

(** [kw.pop( k, default )] *)
Definition kw_pop (k : string) (default : PyVal) (kw : Kwargs) : PyVal * Kwargs :=
  match kw !! k with
  | Some v => (v, delete k kw)
  | None => (default, kw)
  end.

Definition of_default (d : option Z) : PyVal :=
  match d with
  | Some z => VInt z
  | None => VNone
  end.

(** the widgets of the host: name and type string *)
Definition UI : Type := list (string * string).

(** What is the host's own: which command answers for which widget type,
    what a creation call does, how a command and a dict print. *)
Record HostModel : Type := mkHostModel {
  hm_accepts : Cmd -> string -> bool;
  hm_create : Cmd -> string -> Kwargs -> M UI unit;
  hm_getattr : string -> option Cmd;
  hm_str_cmd : Cmd -> string;
  hm_str_kw : Kwargs -> string;
  hm_v2011 : bool
}.

(** [c( name, q=True, exists=True )] *)
Definition cmd_exists (hm : HostModel) (c : Cmd) (name : string) (h : UI) : bool :=
  existsb (fun w => String.eqb (fst w) name && hm_accepts hm c (snd w)) h.

(** ['%s%d' % (baseName, n)] *)
Definition numbered (baseName : string) (n : nat) : string :=
  (baseName ++ NilEmpty.string_of_uint (Nat.to_uint n))%string.

(** the [while] loop of lines 84-86, from counter [n], at most [fuel] rounds *)
Fixpoint probe (hm : HostModel) (c : Cmd) (h : UI) (fuel n : nat) : nat :=
  match fuel with
  | O => n
  | S fuel' => if cmd_exists hm c (numbered c n) h
               then probe hm c h fuel' (S n)
               else n
  end.

(** the name the loop ends with: the host has [length h] widgets, so the
    loop is over after that many rounds *)
Definition uniqueName (hm : HostModel) (c : Cmd) (h : UI) : string :=
  numbered c (probe hm c h (length h) 0).

(** the keyword arguments as the creation call gets them (lines 63-77) *)
Definition creation_kw (hm : HostModel) (cls : WidgetClass) (parent : option string)
  (kw : Kwargs) : Kwargs :=
  let kw := snd (kw_pop "p" VNone kw) in
  let kw := match parent with
            | Some p => <["parent" := VStr p]> kw
            | None => kw
            end in
  let '(dw, kw) := kw_pop "width" (of_default (DEFAULT_WIDTH cls)) kw in
  let '(width, kw) := kw_pop "w" dw kw in
  let kw := if is_int width then <["width" := width]> kw else kw in
  let '(dh, kw) := kw_pop "height" (of_default (DEFAULT_HEIGHT (hm_v2011 hm) cls)) kw in
  let '(height, kw) := kw_pop "h" dh kw in
  let kw := if is_int height then <["height" := height]> kw else kw in
  let '(_changeCB, kw) := kw_pop (KWARG_CHANGE_CB_NAME cls) VNone kw in
  kw.

(** [kw.setdefault( k, v )] *)
Definition kw_setdefault (k : string) (v : PyVal) (kw : Kwargs) : Kwargs :=
  match kw !! k with
  | Some _ => kw
  | None => <[k := v]> kw
  end.

(** the keyword arguments [MelScrollLayout.__new__] and
    [MelTabLayout.__new__] pass on (lines 267, 276):
    [kw.setdefault( 'childResizable', kw.pop( 'cr', True ) )] *)
Definition childResizable_kw (kw : Kwargs) : Kwargs :=
  let '(cr, kw) := kw_pop "cr" (VBool true) kw in
  kw_setdefault "childResizable" cr kw.

(** the keyword arguments [MelCheckBox.__new__] passes on (lines 416-422) *)
Definition checkBox_kw (kw : Kwargs) : Kwargs :=
  let kw := match kw !! "label" with
            | Some _ =>
                let '(v, kw) := kw_pop "label" VNone kw in
                <["l" := v]> kw
            | None => kw
            end in
  kw_setdefault "l" (VStr "") kw.

(** the text of the [MelUIError] of line 91 *)
Definition creation_error (hm : HostModel) (c : Cmd) (name : string) (kw : Kwargs)
  : string :=
  ("Error trying to instantiate widget of type " ++ hm_str_cmd hm c
   ++ ", with proposed name " ++ name
   ++ " using the args " ++ hm_str_kw hm kw)%string.

(** the type string of the widget called [n], if the host has one *)
Definition host_type (h : UI) (n : string) : option string :=
  option_map snd (List.find (fun w => String.eqb (fst w) n) h).

(** [cmd.objectTypeUI( n )] *)
Definition host_objectTypeUI (n : string) : M UI string :=
  fun h => match host_type h n with
           | Some t => (Ok t, h)
           | None => (Raise HostError, h)
           end.

Definition api (hm : HostModel) : HostAPI UI string :=
  mkHostAPI UI string host_objectTypeUI (cmd_exists hm) (hm_getattr hm).

(** [__new__] *)
Definition new (hm : HostModel) (cls : WidgetClass) (parent : option string)
  (kw : Kwargs) : M (UI * Store string) (Wrapper string) :=
  let WIDGET_CMD := WIDGET_CMD cls in
  let kw := creation_kw hm cls parent kw in
  fun '(h, st) =>
    let uniqueName := uniqueName hm WIDGET_CMD h in
    match hm_create hm WIDGET_CMD uniqueName kw h with
    | (Ok _, h') =>
        let new := mkWrapper cls uniqueName in
        (Ok new, (h', Registry.registry_append cls new st))
    | (Raise _, h') =>
        (Raise (MelUIError (creation_error hm WIDGET_CMD uniqueName kw)), (h', st))
    end.

End Construct.

(** ** Events and the parent chain (source lines 110-117, 163-170, 964-967)

    An object of the chain: [None], a window (which has no [parent]), a
    widget made by [FromStr] (which has no [parent] either), or a widget
    made by its constructor.  [methods] are the names [getattr] finds
    callable on the object. *)

Module Events.

Inductive PyObj : Type :=
| ONone
| OWindow (name : string) (methods : list string)
| ORehydrated (name : string) (methods : list string)    (* from [FromStr] *)
| OWidget (name : string) (methods : list string) (parent : PyObj).

(** [callable( getattr( o, methodName, None ) )] *)
Definition has_method (o : PyObj) (methodName : string) : bool :=
  match o with
  | ONone => false
  | OWindow _ ms | ORehydrated _ ms | OWidget _ ms _ =>
      existsb (String.eqb methodName) ms
  end.

(** [hasattr( o, 'parent' )] *)
Definition has_parent (o : PyObj) : bool :=
  match o with
  | OWidget _ _ _ => true
  | _ => false
  end.

(** [o.processEvent( methodName )]: the object whose method runs, [None]
    when a window drops the event.  A widget without the method hands the
    event to [self.parent]; [None] has no [processEvent]. *)
Fixpoint processEvent (o : PyObj) (methodName : string) : Result (option PyObj) :=
  match o with
  | ONone => Raise AttributeError
  | OWindow _ _ =>
      if has_method o methodName then Ok (Some o) else Ok None
  | ORehydrated _ _ =>
      if has_method o methodName then Ok (Some o) else Raise AttributeError
  | OWidget _ _ parent =>
      if has_method o methodName then Ok (Some o)
      else processEvent parent methodName
  end.

(** [sendEvent] (line 110), a method of widgets *)
Definition sendEvent (self : PyObj) (methodName : string) : Result (option PyObj) :=
  match self with
  | OWidget _ _ p => processEvent p methodName
  | _ => Raise AttributeError
  end.

(** the loop of [getTopParent] (lines 167-170), from [parent] *)
Fixpoint climb (parent : PyObj) : PyObj :=
  match parent with
  | OWidget _ _ p => climb p
  | _ => parent
  end.

(** [getTopParent], a method of widgets *)
Definition getTopParent (self : PyObj) : Result PyObj :=
  match self with
  | OWidget _ _ p => Ok (climb p)
  | _ => Raise AttributeError
  end.

(** the object and what is above it, nearest first *)
Fixpoint chain (o : PyObj) : list PyObj :=
  o :: match o with
       | OWidget _ _ p => chain p
       | _ => []
       end.

End Events.

(** ** Host invariants *)

Module HostInv.
Import Host.

(** the selected positions are positions of the list *)
Definition sel_in_list (h : TextScrollList) : Prop :=
  Forall (fun i => 1 <= i <= Z.of_nat (length (tsl_items h))) (tsl_sel h).

(** no position is selected twice, and at most one is without
    multi-selection *)
Definition sel_well_formed (h : TextScrollList) : Prop :=
  sel_in_list h /\ List.NoDup (tsl_sel h) /\
  (tsl_ams h = false -> (length (tsl_sel h) <= 1)%nat).

(** the 0-based selected indices, ascending: [selIdxs] after line 594 *)
Definition selIdxs (h : TextScrollList) : list Z :=
  PyList.sort (map (fun idx => idx - 1) (tsl_sel h)).

End HostInv.

(** ** Example states *)

Module Examples.
Import Host.

(** three items, the last two selected *)
Definition abc_bc_selected : TextScrollList :=
  mkTSL ["a"; "b"; "c"]%string [2; 3] true.

(** three items, the first two selected *)
Definition abc_ab_selected : TextScrollList :=
  mkTSL ["a"; "b"; "c"]%string [1; 2] true.


(** three items, none selected *)
Definition abc_none_selected : TextScrollList :=
  mkTSL ["a"; "b"; "c"]%string [] false.

(** objects that are their own [str], compared as strings *)
Definition string_items : MelObjectScrollList.Class string :=
  MelObjectScrollList.mkClass string (fun s => Ok s) String.eqb false.

(** objects of which one, [None] here, has a [__str__] that raises *)
Definition fragile_items : MelObjectScrollList.Class (option string) :=
  MelObjectScrollList.mkClass (option string)
    (fun x => match x with Some s => Ok s | None => Raise TypeError end)
    (fun x y => bool_decide (x = y)) false.

(** one object, shown in the host list *)
Definition one_object : MelObjectScrollList.Obj string :=
  MelObjectScrollList.mkObj (mkTSL ["x"]%string [] false) ["ns:x"]%string.

(** a host in which every command answers for every widget *)
Definition plain_host : Construct.HostModel :=
  Construct.mkHostModel
    (fun _ _ => true)
    (fun c name kw => modify (fun h => h ++ [(name, c)]))
    (fun s => Some s)
    (fun c => c)
    (fun kw => "{...}"%string)
    true.

(** a host whose command module has no command of any type's name *)
Definition refusing_commands : Construct.HostModel :=
  Construct.mkHostModel
    (fun _ _ => true)
    (fun c name kw => modify (fun h => h ++ [(name, c)]))
    (fun s => None)
    (fun c => c)
    (fun kw => "{...}"%string)
    true.


(** the host has a button and a label; a wrapper of a deleted check box is
    still registered *)
Definition some_widgets : Construct.UI :=
  [("button0", "button"); ("text0", "staticText")]%string.

Definition some_wrappers : Store string :=
  mkStore (fun a => match a with
                    | O => [mkWrapper MelButton "button0"; mkWrapper MelCheckBox "checkBox0";
                            mkWrapper MelLabel "text0"]%string
                    | _ => []
                    end)
          1 0 (fun _ => None).

(** Two iterations on the base class that overlap.  The first has yielded
    once ([overlap_1]) when a second one is run to its end ([overlap_2]);
    then a button is made ([overlap_3]); then the first iteration is run to
    its end ([overlap_4]). *)
Definition overlap_1 : option (Wrapper string) * Registry.Gen * Store string :=
  Registry.next (Construct.api plain_host) BaseMelWidget some_widgets
    Registry.NotStarted some_wrappers.




(** the host with a second button *)
Definition two_buttons : Construct.UI :=
  [("button0", "button"); ("text0", "staticText"); ("button1", "button")]%string.

(** an iteration during which the wrapper of the second button is
    registered, up to the step that ends it: three instances are yielded *)
Definition register_while_iterating : list (@Registry.Step string) :=
  [Registry.StepNext;
   Registry.StepRegister MelButton (mkWrapper MelButton "button1"%string);
   Registry.StepNext; Registry.StepNext].

(** the generator and the store after these steps *)
Definition iterating_state : Registry.Gen * Store string :=
  Registry.interleave (Construct.api plain_host) register_while_iterating BaseMelWidget
    two_buttons Registry.NotStarted some_wrappers.

(** One iteration on the base class, during which a button is made: after
    the first yield ([overlap_1]) the button is made ([during_2]), then the
    iteration is run to its end ([during_3]). *)
Definition during_2 : Result (Wrapper string) * (Construct.UI * Store string) :=
  Construct.new plain_host MelButton None ∅ (some_widgets, snd overlap_1).

Definition during_3 : list (Wrapper string) * Registry.Gen * Store string :=
  Registry.drain (Construct.api plain_host) 5 BaseMelWidget (fst (snd during_2))
    (snd (fst overlap_1)) (snd (snd during_2)).

(** the classes in the order of the class statements *)
Definition all_subclasses : list WidgetClass :=
  [MelLayout; MelForm; MelColumn; MelRow; MelScrollLayout; MelTabLayout;
   MelPaneLayout; MelLabel; MelButton; MelCheckBox; MelIntField; MelFloatField;
   MelTextField; MelScrollField; MelNameField; MelObjectSelector;
   MelTextScrollList; MelObjectScrollList; _MelBaseMenu; MelMenu; MelOptionMenu;
   MelPopupMenu; MelMenuItem; MelMenuItemDiv; MelProgressWindow].

(** a window with a column layout that holds a button and a row, the row
    holding a label *)
Definition window_with_column : MelLayout.UI :=
  [(["win"], "window");
   (["win"; "col"], "columnLayout");
   (["win"; "col"; "b1"], "button");
   (["win"; "col"; "row"], "rowLayout");
   (["win"; "col"; "row"; "t"], "staticText")]%string.

End Examples.

(** * Properties *)

(** ** Visibility *)

Module VisibilityFacts.
Import Visibility.

Lemma getSize_eq (o : Obj) :
  getSize o = (Ok (c_width (ctl o), c_height (ctl o)), o).
Proof. reflexivity. Qed.

Lemma hide_state (o : Obj) :
  snd (setVisibility false o)
  = mkObj (mkControl 1 1 false) (Some (c_width (ctl o), c_height (ctl o))).
Proof. reflexivity. Qed.

(** C7: hiding leaves the host's control at width 1 and height 1, not
    visible, and remembers the width and height the control had; showing it
    again leaves the control at exactly that width and height, visible;
    [getSize] reads the control's width and height before, while hidden and
    after. *)
Theorem hide_then_show_restores_size (o : Obj) :
  let hidden := snd (hide o) in
  let shown := snd (show hidden) in
  fst (hide o) = Ok tt /\ fst (show hidden) = Ok tt /\
  ctl hidden = mkControl 1 1 false /\
  _preSize hidden = Some (c_width (ctl o), c_height (ctl o)) /\
  ctl shown = mkControl (c_width (ctl o)) (c_height (ctl o)) true /\
  fst (getSize o) = Ok (c_width (ctl o), c_height (ctl o)) /\
  fst (getSize hidden) = Ok (1, 1) /\
  fst (getVisibility hidden) = Ok false /\
  fst (getSize shown) = fst (getSize o) /\
  fst (getVisibility shown) = Ok true.
Proof.
  destruct o as [[w h v] pre]. cbn. repeat split; reflexivity.
Qed.

End VisibilityFacts.

(** ** Pane indices *)

Module PaneFacts.
Import MelPaneLayout.

(** the methods that convert once *)
Lemma getPaneSize_calls (i : Z) (h : Pane) :
  p_calls (snd (getPaneSize i h)) = p_calls h ++ [QueryPaneSize (i + 1)].
Proof.
  unfold getPaneSize, query_paneSize.
  destruct (if has_pane (i + 1) h then _ else _); reflexivity.
Qed.

Lemma setPaneSize_calls (i : Z) (sz : Z * Z) (h : Pane) :
  p_calls (snd (setPaneSize i sz h)) = p_calls h ++ [EditPaneSize (i + 1) (fst sz) (snd sz)].
Proof.
  unfold setPaneSize, edit_paneSize. destruct (has_pane (i + 1) h); reflexivity.
Qed.

Lemma setitem_calls (i : Z) (ui : string) (h : Pane) :
  p_calls (snd (setitem i ui h)) = p_calls h ++ [EditSetPane ui (i + 1)].
Proof.
  unfold setitem, edit_setPane.
  destruct (_ && _); reflexivity.
Qed.

Lemma getPaneActiveIdx_result (h : Pane) :
  fst (getPaneActiveIdx h) = Ok (p_active h - 1).
Proof. reflexivity. Qed.

(** [setPaneWidth] adds one to the index and hands the result to
    [getPaneSize], which adds one again: the size it reads is that of host
    pane [i + 2]. *)
Lemma setPaneWidth_first_call (i size : Z) (h : Pane) :
  exists later,
    p_calls (snd (setPaneWidth i size h)) = p_calls h ++ QueryPaneSize (i + 2) :: later.
Proof.
  unfold setPaneWidth, getPaneSize, bind, query_paneSize.
  replace (i + 1 + 1) with (i + 2) by lia.
  destruct (if has_pane (i + 2) h then _ else _) as [sz|].
  - unfold edit_paneSize. destruct (has_pane (i + 1) _); cbn;
      eexists; rewrite <- app_assoc; reflexivity.
  - cbn. exists []. reflexivity.
Qed.

Lemma setPaneHeight_first_call (i size : Z) (h : Pane) :
  exists later,
    p_calls (snd (setPaneHeight i size h)) = p_calls h ++ QueryPaneSize (i + 2) :: later.
Proof.
  unfold setPaneHeight, getPaneSize, bind, query_paneSize.
  replace (i + 1 + 1) with (i + 2) by lia.
  destruct (if has_pane (i + 2) h then _ else _) as [sz|].
  - unfold edit_paneSize. destruct (has_pane (i + 1) _); cbn;
      eexists; rewrite <- app_assoc; reflexivity.
  - cbn. exists []. reflexivity.
Qed.

(** C6: on a layout of two panes, [setPaneWidth( 0, 55 )] reads the size of
    host pane 2, not of host pane 1, and writes what it read there into host
    pane 1; [setPaneHeight( 0, 55 )] does the same; on the last pane both
    ask the host for a pane that does not exist. *)
Theorem setPaneWidth_reads_pane_after :
  host_panes (snd (setPaneWidth 0 55 two_panes)) = [2; 1] /\
  p_sizes (snd (setPaneWidth 0 55 two_panes)) = [(300, 55); (300, 80)] /\
  host_panes (snd (setPaneHeight 0 55 two_panes)) = [2; 1] /\
  p_sizes (snd (setPaneHeight 0 55 two_panes)) = [(55, 80); (300, 80)] /\
  fst (setPaneWidth 1 55 two_panes) = Raise HostError /\
  host_panes (snd (getPaneSize 0 two_panes)) = [1].
Proof. vm_compute. repeat split; reflexivity. Qed.

End PaneFacts.

(** ** The monad *)


Lemma bind_Raise {S A B} (m : M S A) (k : A -> M S B) s e s' :
  m s = (Raise e, s') -> bind m k s = (Raise e, s').
Proof. unfold bind. intros ->. reflexivity. Qed.

Lemma for_each_app {S A} (l1 l2 : list A) (body : A -> M S unit) s :
  for_each (l1 ++ l2) body s
  = bind (for_each l1 body) (fun _ => for_each l2 body) s.
Proof.
  revert s. induction l1 as [|x l1 IH]; intros s; cbn.
  - reflexivity.
  - unfold bind in *. destruct (body x s) as [[[]|e] s1].
    + apply IH.
    + reflexivity.
Qed.

(** ** Python lists *)

Module PyListFacts.
Import PyList.

Section Lists.
Context {A : Type}.
Implicit Types (l : list A) (x : A) (k p : nat) (i : Z).

Lemma norm_index_nonneg (n : nat) i :
  0 <= i < Z.of_nat n -> norm_index n i = Some (Z.to_nat i).
Proof.
  intros Hi. unfold norm_index.
  replace (0 <=? i) with true by (symmetry; apply Z.leb_le; lia).
  replace (i <? Z.of_nat n) with true by (symmetry; apply Z.ltb_lt; lia).
  reflexivity.
Qed.

Lemma norm_index_bound (n : nat) i k :
  norm_index n i = Some k -> (k < n)%nat.
Proof.
  unfold norm_index.
  destruct (0 <=? i) eqn:E1, (i <? Z.of_nat n) eqn:E2; cbn;
    try (intros [= <-]; apply Z.leb_le in E1; apply Z.ltb_lt in E2; lia).
  all: destruct (- Z.of_nat n <=? i) eqn:E3, (i <? 0) eqn:E4; cbn; try discriminate.
  all: intros [= <-]; apply Z.leb_le in E3; apply Z.ltb_lt in E4; lia.
Qed.

Lemma norm_index_too_big (n : nat) i :
  Z.of_nat n <= i -> norm_index n i = None.
Proof.
  intros Hi. unfold norm_index.
  replace (i <? Z.of_nat n) with false by (symmetry; apply Z.ltb_ge; lia).
  replace (i <? 0) with false by (symmetry; apply Z.ltb_ge; lia).
  rewrite !andb_false_r. reflexivity.
Qed.

Lemma getitem_nonneg l i x :
  0 <= i -> nth_error l (Z.to_nat i) = Some x -> getitem l i = Ok x.
Proof.
  intros Hi Hx. unfold getitem.
  assert (Z.to_nat i < length l)%nat by (apply nth_error_Some; congruence).
  rewrite norm_index_nonneg by lia. rewrite Hx. reflexivity.
Qed.

Lemma getitem_empty i : getitem (@nil A) i = Raise IndexError.
Proof.
  unfold getitem. destruct (norm_index _ i) as [k|] eqn:E; [|reflexivity].
  apply norm_index_bound in E. cbn in E. lia.
Qed.

Lemma getitem_never_raises_other l i e :
  getitem l i = Raise e -> e = IndexError.
Proof.
  unfold getitem. destruct (norm_index _ i) as [k|]; [destruct (nth_error l k)|];
    congruence.
Qed.

Lemma getitem_last l x :
  getitem (l ++ [x]) (-1) = Ok x.
Proof.
  unfold getitem, norm_index. rewrite length_app. cbn [length].
  replace (0 <=? -1) with false by reflexivity. cbn [andb].
  replace (- Z.of_nat (length l + 1) <=? -1) with true
    by (symmetry; apply Z.leb_le; lia).
  cbn [andb]. replace (-1 <? 0) with true by reflexivity.
  replace (Z.to_nat (-1 + Z.of_nat (length l + 1))) with (length l + 0)%nat by lia.
  rewrite nth_error_app2 by lia.
  replace (length l + 0 - length l)%nat with O by lia. reflexivity.
Qed.

Lemma pop_nonneg l i x :
  0 <= i -> nth_error l (Z.to_nat i) = Some x ->
  pop l i = Ok (x, remove_at (Z.to_nat i) l).
Proof.
  intros Hi Hx. unfold pop.
  assert (Z.to_nat i < length l)%nat by (apply nth_error_Some; congruence).
  rewrite norm_index_nonneg by lia. rewrite Hx. reflexivity.
Qed.

Lemma pop_too_big l i :
  Z.of_nat (length l) <= i -> pop l i = Raise IndexError.
Proof. intros Hi. unfold pop. rewrite norm_index_too_big by lia. reflexivity. Qed.

Lemma length_remove_at k l :
  (k < length l)%nat -> length (remove_at k l) = pred (length l).
Proof.
  intros Hk. unfold remove_at.
  rewrite length_app, length_firstn, length_skipn. lia.
Qed.

Lemma length_insert_at k x l :
  length (insert_at k x l) = S (length l).
Proof.
  unfold insert_at. rewrite length_app. cbn [length].
  rewrite length_firstn, length_skipn. lia.
Qed.

Lemma length_insert l i x : length (insert l i x) = S (length l).
Proof. apply length_insert_at. Qed.

Lemma nth_error_remove_at k l p :
  nth_error (remove_at k l) p
  = if (p <? k)%nat then nth_error l p else nth_error l (S p).
Proof.
  unfold remove_at. destruct (p <? k)%nat eqn:E.
  - apply Nat.ltb_lt in E. destruct (Nat.lt_ge_cases p (length l)) as [Hp|Hp].
    + rewrite nth_error_app1 by (rewrite length_firstn; lia).
      rewrite nth_error_firstn, (proj2 (Nat.ltb_lt p k)) by lia. reflexivity.
    + rewrite (proj2 (nth_error_None l p)) by lia.
      apply nth_error_None. rewrite length_app, length_firstn, length_skipn. lia.
  - apply Nat.ltb_ge in E. destruct (Nat.lt_ge_cases k (length l)) as [Hk|Hk].
    + rewrite nth_error_app2 by (rewrite length_firstn; lia).
      rewrite length_firstn, nth_error_skipn. f_equal. lia.
    + rewrite (proj2 (nth_error_None l (S p))) by lia.
      apply nth_error_None. rewrite length_app, length_firstn, length_skipn. lia.
Qed.

Lemma nth_error_insert_at k x l p :
  (k <= length l)%nat ->
  nth_error (insert_at k x l) p
  = if (p <? k)%nat then nth_error l p
    else if (p =? k)%nat then Some x else nth_error l (pred p).
Proof.
  intros Hk. unfold insert_at. destruct (p <? k)%nat eqn:E.
  - apply Nat.ltb_lt in E.
    rewrite nth_error_app1 by (rewrite length_firstn; lia).
    rewrite nth_error_firstn, (proj2 (Nat.ltb_lt p k)) by lia. reflexivity.
  - apply Nat.ltb_ge in E.
    rewrite nth_error_app2 by (rewrite length_firstn; lia).
    rewrite length_firstn. replace (Init.Nat.min k (length l)) with k by lia.
    destruct (p =? k)%nat eqn:E2.
    + apply Nat.eqb_eq in E2. subst p. rewrite Nat.sub_diag. reflexivity.
    + apply Nat.eqb_neq in E2.
      replace (p - k)%nat with (S (pred p - k)) by lia. cbn [nth_error].
      rewrite nth_error_skipn. f_equal. lia.
Qed.

Lemma remove_at_insert_perm k j x l :
  nth_error l k = Some x -> Permutation (insert_at j x (remove_at k l)) l.
Proof.
  intros Hx. unfold insert_at.
  rewrite <- Permutation_middle, firstn_skipn.
  unfold remove_at. apply nth_error_split in Hx as (l1 & l2 & -> & <-).
  rewrite firstn_app, Nat.sub_diag, firstn_all, firstn_O, app_nil_r.
  replace (S (length l1)) with (length l1 + 1)%nat by lia.
  rewrite skipn_app. rewrite skipn_all2 by lia.
  replace (length l1 + 1 - length l1)%nat with 1%nat by lia. cbn.
  apply Permutation_middle.
Qed.

End Lists.

(** *** [sort] *)

Lemma sort_insert_perm x l : Permutation (sort_insert x l) (x :: l).
Proof.
  induction l as [|y l IH]; cbn; [reflexivity|].
  destruct (x <=? y); [reflexivity|].
  rewrite IH. apply perm_swap.
Qed.

Lemma sort_perm l : Permutation (sort l) l.
Proof.
  induction l as [|x l IH]; cbn; [reflexivity|].
  rewrite sort_insert_perm. apply perm_skip, IH.
Qed.

Lemma sort_insert_sorted x l :
  StronglySorted Z.le l -> StronglySorted Z.le (sort_insert x l).
Proof.
  induction 1 as [|y l Hs IH Hall]; cbn.
  - constructor; constructor.
  - destruct (x <=? y) eqn:E.
    + apply Z.leb_le in E. constructor.
      * constructor; assumption.
      * constructor; [lia|]. eapply List.Forall_impl; [|exact Hall]. cbn. intros; lia.
    + apply Z.leb_gt in E. constructor; [exact IH|].
      eapply Permutation_Forall; [symmetry; apply sort_insert_perm|].
      constructor; [lia|exact Hall].
Qed.

Lemma sort_sorted l : StronglySorted Z.le (sort l).
Proof.
  induction l as [|x l IH]; cbn; [constructor|].
  apply sort_insert_sorted, IH.
Qed.

Lemma sort_length l : length (sort l) = length l.
Proof. apply Permutation_length, sort_perm. Qed.

Lemma sort_Forall (P : Z -> Prop) l : Forall P l -> Forall P (sort l).
Proof. apply Permutation_Forall. symmetry. apply sort_perm. Qed.

Lemma sort_nil_inv l : sort l = [] -> l = [].
Proof.
  intros E. apply (f_equal (@length Z)) in E. rewrite sort_length in E.
  destruct l; [reflexivity|discriminate].
Qed.

End PyListFacts.

(** ** Moving the selection of a text scroll list *)

Module ScrollListFacts.
Import Host MelTextScrollList Examples.

Import HostInv PyListFacts.

Lemma or_empty_host_array {A} (l : list A) : or_empty (host_array l) = l.
Proof. destruct l; reflexivity. Qed.

Lemma getSelectedIdxs_eq h :
  getSelectedIdxs h = (Ok (map (fun idx => idx - 1) (tsl_sel h)), h).
Proof.
  unfold getSelectedIdxs, bind, selectedIndices, ret.
  rewrite or_empty_host_array. reflexivity.
Qed.

(** [selectByIdx] and [getSelectedIdxs] convert by one *)
Lemma selectByIdx_host_position runCB idx h :
  in_range (idx + 1) h = true ->
  fst (selectByIdx runCB idx false h) = Ok tt /\
  In (idx + 1) (tsl_sel (snd (selectByIdx runCB idx false h))).
Proof.
  intros Hr. unfold selectByIdx, bind, selectIndexedItem. rewrite Hr. cbn.
  split; [reflexivity|].
  destruct (tsl_ams h); [|left; reflexivity].
  destruct (mem (idx + 1) (tsl_sel h)) eqn:E.
  - unfold mem in E. apply existsb_exists in E as (j & Hj & Hij).
    apply Z.eqb_eq in Hij. subst. exact Hj.
  - apply in_or_app. right. left. reflexivity.
Qed.

Lemma selIdxs_in_range h :
  sel_in_list h ->
  Forall (fun i => 0 <= i < Z.of_nat (length (tsl_items h))) (selIdxs h).
Proof.
  intros Hs. apply sort_Forall. apply Forall_map.
  eapply List.Forall_impl; [|exact Hs]. cbn. intros; lia.
Qed.

Lemma selIdxs_nil_inv h : selIdxs h = [] -> tsl_sel h = [].
Proof.
  intros E. apply sort_nil_inv in E. destruct (tsl_sel h); [reflexivity|discriminate].
Qed.

(** *** The loops *)

Lemma pop_insert_ok (l : list string) idx target :
  0 <= idx < Z.of_nat (length l) ->
  exists x, nth_error l (Z.to_nat idx) = Some x /\
    pop_insert (Some l) idx target
    = Ok (Some (PyList.insert (PyList.remove_at (Z.to_nat idx) l) target x)).
Proof.
  intros Hi. destruct (nth_error l (Z.to_nat idx)) as [x|] eqn:Hx.
  - exists x. split; [reflexivity|]. cbn. rewrite (pop_nonneg l idx x) by (lia || exact Hx).
    reflexivity.
  - apply nth_error_None in Hx. lia.
Qed.

Lemma move_loop_ok idxs delta (l : list string) :
  Forall (fun i => 0 <= i < Z.of_nat (length l)) idxs ->
  exists l', move_loop idxs delta (Some l) = Ok (Some l') /\
             length l' = length l /\ Permutation l' l.
Proof.
  revert l. induction idxs as [|idx idxs IH]; intros l Hall; cbn [move_loop].
  - exists l. repeat split; reflexivity.
  - inversion Hall as [|? ? Hidx Hrest]; subst.
    destruct (pop_insert_ok l idx (idx + delta) Hidx) as (x & Hx & ->).
    set (l1 := PyList.insert _ _ x).
    assert (Hlen : length l1 = length l).
    { unfold l1. rewrite length_insert, length_remove_at by lia. lia. }
    assert (Hperm : Permutation l1 l).
    { unfold l1, PyList.insert. apply remove_at_insert_perm. exact Hx. }
    destruct (IH l1) as (l' & -> & Hl' & Hp').
    { rewrite Hlen. exact Hrest. }
    exists l'. repeat split; [congruence|]. etransitivity; eassumption.
Qed.

Lemma comprehension_subscript_ok (l : list string) idxs :
  Forall (fun i => 0 <= i < Z.of_nat (length l)) idxs ->
  exists ys, PyList.comprehension (subscript (Some l)) idxs = Ok ys.
Proof.
  induction 1 as [|idx idxs Hidx _ (ys & IH)]; cbn.
  - eexists; reflexivity.
  - destruct (nth_error l (Z.to_nat idx)) as [x|] eqn:Hx.
    + rewrite (getitem_nonneg l idx x) by (lia || exact Hx). rewrite IH.
      eexists; reflexivity.
    + apply nth_error_None in Hx. lia.
Qed.

Lemma for_each_append_eq (l : list string) h :
  for_each l append h = (Ok tt, mkTSL (tsl_items h ++ l) (tsl_sel h) (tsl_ams h)).
Proof.
  revert h. induction l as [|x l IH]; intros h; cbn.
  - rewrite app_nil_r. destruct h; reflexivity.
  - unfold bind. cbn. rewrite IH. cbn. rewrite <- app_assoc. reflexivity.
Qed.

Lemma setItems_eq (l : list string) h :
  setItems (Some l) h = (Ok tt, mkTSL l [] (tsl_ams h)).
Proof.
  unfold setItems, bind, clear, removeAll, modify, iter_items, ret.
  rewrite for_each_append_eq. reflexivity.
Qed.

(** the selection loop never raises anything but the host's error, and does
    not touch the items *)
Lemma select_loop_outcome runCB (f : Z -> Z) idxs h :
  let r := for_each idxs (fun idx => selectByIdx runCB (f idx) false) h in
  (fst r = Ok tt \/ fst r = Raise HostError) /\
  tsl_items (snd r) = tsl_items h /\ tsl_ams (snd r) = tsl_ams h.
Proof.
  revert h. induction idxs as [|idx idxs IH]; intros h; cbn.
  - auto.
  - unfold bind, selectByIdx, bind, selectIndexedItem.
    destruct (in_range (f idx + 1) h); cbn.
    + specialize (IH (mkTSL (tsl_items h)
        (if tsl_ams h then if mem (f idx + 1) (tsl_sel h) then tsl_sel h
                           else tsl_sel h ++ [f idx + 1] else [f idx + 1]) (tsl_ams h))).
      cbn in IH. exact IH.
    + auto.
Qed.

(** *** What the two methods compute *)

Lemma items_nonempty_of_sel h :
  sel_in_list h -> tsl_sel h <> [] -> host_array (tsl_items h) = Some (tsl_items h).
Proof.
  intros Hs Hne. destruct (tsl_sel h) as [|i sel] eqn:E; [congruence|].
  unfold sel_in_list in Hs. rewrite E in Hs. inversion Hs as [|? ? Hi _]; subst.
  destruct (tsl_items h); [cbn in Hi; lia|reflexivity].
Qed.



Lemma Up_with_selection runCB count h first rest :
  sel_in_list h -> selIdxs h = first :: rest ->
  if first >? 0 then
    exists l',
      move_loop (rev (selIdxs h)) (- Z.min count first) (Some (tsl_items h))
      = Ok (Some l') /\
      length l' = length (tsl_items h) /\
      moveSelectedItemsUp runCB count h
      = for_each (selIdxs h)
          (fun idx => selectByIdx runCB (idx - Z.min count first) false)
          (mkTSL l' [] (tsl_ams h))
  else moveSelectedItemsUp runCB count h = (Ok tt, h).
Proof.
  intros Hs E.
  assert (Hne : tsl_sel h <> []).
  { intros E0. unfold selIdxs in E. rewrite E0 in E. discriminate. }
  unfold moveSelectedItemsUp.
  cbv beta delta [bind lift].
  rewrite getSelectedIdxs_eq. cbv beta iota zeta.
  fold (selIdxs h). rewrite E.
  replace (PyList.getitem (first :: rest) 0) with (Ok first) by reflexivity.
  cbv beta iota.
  destruct (first >? 0) eqn:Hf; [|reflexivity].
  rewrite <- E.
  pose proof (selIdxs_in_range h Hs) as Hr.
  destruct (move_loop_ok (rev (selIdxs h)) (- Z.min count first) (tsl_items h))
    as (l' & Hl' & Hlen & _).
  { apply Forall_rev. exact Hr. }
  exists l'. split; [exact Hl'|]. split; [exact Hlen|].
  unfold getItems, allItems.
  rewrite (items_nonempty_of_sel h Hs Hne).
  destruct (comprehension_subscript_ok (tsl_items h) (selIdxs h) Hr) as (ys & ->).
  rewrite Hl'. rewrite setItems_eq. reflexivity.
Qed.

Lemma Down_with_selection runCB count h front last :
  sel_in_list h -> selIdxs h = front ++ [last] ->
  let maxIdx := Z.of_nat (length (tsl_items h)) - 1 in
  if last <? maxIdx then
    exists l',
      move_loop (rev (selIdxs h)) (Z.min count (maxIdx - last)) (Some (tsl_items h))
      = Ok (Some l') /\
      length l' = length (tsl_items h) /\
      moveSelectedItemsDown runCB count h
      = for_each (selIdxs h)
          (fun idx => selectByIdx runCB (idx + Z.min count (maxIdx - last)) false)
          (mkTSL l' [] (tsl_ams h))
  else moveSelectedItemsDown runCB count h = (Ok tt, h).
Proof.
  intros Hs E maxIdx.
  assert (Hne : tsl_sel h <> []).
  { intros E0. unfold selIdxs in E. rewrite E0 in E. destruct front; discriminate. }
  unfold moveSelectedItemsDown.
  cbv beta delta [bind lift].
  rewrite getSelectedIdxs_eq. cbv beta iota zeta.
  fold (selIdxs h).
  unfold getItems, allItems.
  rewrite (items_nonempty_of_sel h Hs Hne).
  assert (Hg : PyList.getitem (selIdxs h) (-1) = Ok last)
    by (rewrite E; apply getitem_last).
  unfold py_len. rewrite Hg. fold maxIdx.
  destruct (last <? maxIdx) eqn:Hf; [|reflexivity].
  pose proof (selIdxs_in_range h Hs) as Hr.
  destruct (move_loop_ok (rev (selIdxs h)) (Z.min count (maxIdx - last)) (tsl_items h))
    as (l' & Hl' & Hlen & _).
  { apply Forall_rev. exact Hr. }
  exists l'. split; [exact Hl'|]. split; [exact Hlen|].
  destruct (comprehension_subscript_ok (tsl_items h) (selIdxs h) Hr) as (ys & ->).
  rewrite Hl'. rewrite setItems_eq. reflexivity.
Qed.



(** *** One round of the loop, seen from the positions *)

Lemma pop_insert_positions (l : list string) (d t : Z) x :
  0 <= d < Z.of_nat (length l) -> 0 <= t < Z.of_nat (length l) ->
  nth_error l (Z.to_nat d) = Some x ->
  let l1 := PyList.insert (PyList.remove_at (Z.to_nat d) l) t x in
  nth_error l1 (Z.to_nat t) = Some x /\
  forall p : nat,
    (Z.of_nat p < Z.min d t \/ Z.max d t < Z.of_nat p) ->
    nth_error l1 p = nth_error l p.
Proof.
  intros Hd Ht Hx l1. unfold l1, PyList.insert.
  rewrite length_remove_at by lia.
  replace (t <? 0) with false by (symmetry; apply Z.ltb_ge; lia).
  replace (Z.min t (Z.of_nat (pred (length l)))) with t by lia.
  split.
  - rewrite nth_error_insert_at by (rewrite length_remove_at; lia).
    rewrite Nat.ltb_irrefl, Nat.eqb_refl. reflexivity.
  - intros p Hp.
    rewrite nth_error_insert_at by (rewrite length_remove_at; lia).
    rewrite !nth_error_remove_at.
    destruct (p <? Z.to_nat t)%nat eqn:E1.
    + apply Nat.ltb_lt in E1.
      destruct (p <? Z.to_nat d)%nat eqn:E2; [reflexivity|].
      apply Nat.ltb_ge in E2. lia.
    + apply Nat.ltb_ge in E1.
      destruct (p =? Z.to_nat t)%nat eqn:E3.
      { apply Nat.eqb_eq in E3. lia. }
      apply Nat.eqb_neq in E3.
      destruct (pred p <? Z.to_nat d)%nat eqn:E2.
      * apply Nat.ltb_lt in E2. lia.
      * f_equal. lia.
Qed.

(** *** The loop of [moveSelectedItemsDown] *)

(** [ds] is the selection from the bottom up; every item moves [c] down. *)
Lemma move_loop_down (ds : list Z) (c : Z) (l : list string) :
  0 <= c ->
  StronglySorted Z.gt ds ->
  Forall (fun d => 0 <= d /\ d + c < Z.of_nat (length l)) ds ->
  exists l',
    move_loop ds c (Some l) = Ok (Some l') /\
    length l' = length l /\
    Forall (fun d => nth_error l' (Z.to_nat (d + c)) = nth_error l (Z.to_nat d)) ds /\
    forall p : nat,
      Forall (fun d => Z.of_nat p < d \/ d + c < Z.of_nat p) ds ->
      nth_error l' p = nth_error l p.
Proof.
  intros Hc. revert l. induction ds as [|d ds IH]; intros l Hsort Hall.
  - exists l. cbn. repeat split; auto.
  - inversion Hsort as [|? ? Hsort' Hgt]; subst.
    inversion Hall as [|? ? [Hd0 Hdc] Hall']; subst.
    cbn [move_loop].
    destruct (pop_insert_ok l d (d + c)) as (x & Hx & ->); [lia|].
    destruct (pop_insert_positions l d (d + c) x) as [Hat Hout]; [lia|lia|exact Hx|].
    set (l1 := PyList.insert _ _ x) in *.
    assert (Hlen1 : length l1 = length l).
    { unfold l1. rewrite length_insert, length_remove_at by lia. lia. }
    destruct (IH l1 Hsort') as (l' & -> & Hlen & Hmoved & Hrest).
    { rewrite Hlen1. exact Hall'. }
    exists l'. split; [reflexivity|]. split; [congruence|]. split.
    + constructor.
      * rewrite Hrest.
        -- rewrite Hat. symmetry. exact Hx.
        -- eapply List.Forall_impl; [|exact Hgt]. cbn. intros d' Hd'. right. lia.
      * rewrite List.Forall_forall in *. intros d' Hin.
        rewrite (Hmoved d' Hin). apply Hout.
        specialize (Hgt d' Hin). specialize (Hall' d' Hin). lia.
    + intros p Hp. inversion Hp as [|? ? Hpd Hp']; subst.
      rewrite (Hrest p Hp'). apply Hout. lia.
Qed.

(** *** The selection loop *)

Lemma mem_false_iff i l : mem i l = false <-> ~ In i l.
Proof.
  unfold mem. split.
  - intros E Hin. assert (existsb (Z.eqb i) l = true); [|congruence].
    apply existsb_exists. exists i. split; [exact Hin|apply Z.eqb_refl].
  - intros Hn. destruct (existsb (Z.eqb i) l) eqn:E; [|reflexivity].
    apply existsb_exists in E as (j & Hj & Hij). apply Z.eqb_eq in Hij. subst. contradiction.
Qed.

Lemma select_loop_multi runCB (f : Z -> Z) idxs (l : list string) s0 :
  Forall (fun idx => 0 <= f idx < Z.of_nat (length l)) idxs ->
  List.NoDup (s0 ++ map (fun idx => f idx + 1) idxs) ->
  for_each idxs (fun idx => selectByIdx runCB (f idx) false) (mkTSL l s0 true)
  = (Ok tt, mkTSL l (s0 ++ map (fun idx => f idx + 1) idxs) true).
Proof.
  revert s0. induction idxs as [|idx idxs IH]; intros s0 Hr Hnd; cbn.
  - rewrite app_nil_r. reflexivity.
  - inversion Hr as [|? ? Hidx Hr']; subst.
    assert (Hm : mem (f idx + 1) s0 = false).
    { apply mem_false_iff. intros Hin.
      cbn [map] in Hnd. apply NoDup_remove_2 in Hnd. apply Hnd. apply in_or_app.
      left. exact Hin. }
    unfold bind at 1. unfold selectByIdx, bind, selectIndexedItem, in_range.
    cbn [tsl_items tsl_sel tsl_ams].
    replace (1 <=? f idx + 1) with true by (symmetry; apply Z.leb_le; lia).
    replace (f idx + 1 <=? Z.of_nat (length l)) with true
      by (symmetry; apply Z.leb_le; lia).
    cbn [andb]. rewrite Hm. cbn [ret]. rewrite IH.
    + cbn [map]. rewrite <- app_assoc. reflexivity.
    + exact Hr'.
    + cbn [map] in Hnd. rewrite <- app_assoc. exact Hnd.
Qed.

Lemma select_loop_single runCB (f : Z -> Z) idx (l : list string) ams :
  0 <= f idx < Z.of_nat (length l) ->
  for_each [idx] (fun idx => selectByIdx runCB (f idx) false) (mkTSL l [] ams)
  = (Ok tt, mkTSL l [f idx + 1] ams).
Proof.
  intros Hr. cbn. unfold bind, selectByIdx, bind, selectIndexedItem, in_range. cbn.
  replace (1 <=? f idx + 1) with true by (symmetry; apply Z.leb_le; lia).
  replace (f idx + 1 <=? Z.of_nat (length l)) with true
    by (symmetry; apply Z.leb_le; lia).
  cbn. destruct ams; reflexivity.
Qed.

(** *** The sorted selection *)

Lemma sorted_le_NoDup_lt l :
  StronglySorted Z.le l -> List.NoDup l -> StronglySorted Z.lt l.
Proof.
  induction 1 as [|x l Hs IH Hall]; intros Hnd; constructor.
  - apply IH. inversion Hnd; assumption.
  - inversion Hnd as [|? ? Hnotin _]; subst.
    rewrite List.Forall_forall in *. intros y Hy.
    specialize (Hall y Hy). assert (x <> y) by (intros ->; contradiction). lia.
Qed.

Lemma sorted_snoc (R : Z -> Z -> Prop) l x :
  StronglySorted R l -> Forall (fun y => R y x) l -> StronglySorted R (l ++ [x]).
Proof.
  induction 1 as [|y l Hs IH Hall]; intros Hx; cbn.
  - repeat constructor.
  - inversion Hx as [|? ? Hyx Hx']; subst. constructor.
    + apply IH, Hx'.
    + apply Forall_app. split; [exact Hall|]. repeat constructor. exact Hyx.
Qed.

Lemma sorted_lt_rev l :
  StronglySorted Z.lt l -> StronglySorted Z.gt (rev l).
Proof.
  induction 1 as [|x l Hs IH Hall]; cbn; [constructor|].
  apply sorted_snoc; [exact IH|].
  apply Forall_rev. eapply List.Forall_impl; [|exact Hall]. cbn. intros; lia.
Qed.

Lemma NoDup_map_injective {A B} (f : A -> B) (l : list A) :
  (forall a b, f a = f b -> a = b) -> List.NoDup l -> List.NoDup (map f l).
Proof.
  intros Hinj. induction 1 as [|x l Hx Hnd IH]; cbn; constructor.
  - intros Hin. apply in_map_iff in Hin as (y & Hy & Hin).
    apply Hinj in Hy. subst. contradiction.
  - exact IH.
Qed.

Lemma selIdxs_NoDup h : List.NoDup (tsl_sel h) -> List.NoDup (selIdxs h).
Proof.
  intros Hnd. eapply Permutation_NoDup; [symmetry; apply sort_perm|].
  apply NoDup_map_injective; [intros a b; lia|exact Hnd].
Qed.

Lemma selIdxs_descending h :
  List.NoDup (tsl_sel h) -> StronglySorted Z.gt (rev (selIdxs h)).
Proof.
  intros Hnd. apply sorted_lt_rev, sorted_le_NoDup_lt.
  - apply sort_sorted.
  - apply selIdxs_NoDup, Hnd.
Qed.

Lemma sorted_last_max (front : list Z) last :
  StronglySorted Z.le (front ++ [last]) -> Forall (fun d => d <= last) (front ++ [last]).
Proof.
  induction front as [|x front IH]; cbn; intros Hs.
  - repeat constructor. lia.
  - inversion Hs as [|? ? Hs' Hall]; subst. constructor.
    + rewrite List.Forall_forall in Hall. apply Hall. apply in_or_app. right. left. reflexivity.
    + apply IH, Hs'.
Qed.

Lemma selIdxs_single h i :
  tsl_sel h = [i] -> selIdxs h = [i - 1].
Proof. intros E. unfold selIdxs. rewrite E. reflexivity. Qed.

(** the selection loop after a move, in either selection mode *)
Lemma select_loop_after_move runCB (f : Z -> Z) h (l : list string) :
  sel_well_formed h -> tsl_sel h <> [] ->
  (forall a b, f a = f b -> a = b) ->
  Forall (fun idx => 0 <= f idx < Z.of_nat (length l)) (selIdxs h) ->
  for_each (selIdxs h) (fun idx => selectByIdx runCB (f idx) false)
    (mkTSL l [] (tsl_ams h))
  = (Ok tt, mkTSL l (map (fun idx => f idx + 1) (selIdxs h)) (tsl_ams h)).
Proof.
  intros (Hs & Hnd & Hone) Hne Hinj Hr.
  destruct (tsl_ams h) eqn:Hams.
  - apply (select_loop_multi runCB f (selIdxs h) l []); [exact Hr|].
    cbn [app]. apply (NoDup_map_injective (fun idx => f idx + 1)).
    + intros a b E. apply Hinj. lia.
    + apply selIdxs_NoDup, Hnd.
  - specialize (Hone eq_refl).
    destruct (tsl_sel h) as [|i [|j sel]] eqn:E; [congruence| |cbn in Hone; lia].
    rewrite (selIdxs_single h i E) in *.
    apply select_loop_single. inversion Hr; assumption.
Qed.

(** [moveSelectedItemsDown] on any selection: when the last selected item is
    not yet at the bottom, every selected item ends [c] places further down,
    [c] being [count] cut to the room below the last selected item; the items
    outside the stretches the moves sweep stay where they are; the selection
    follows the items. *)
Theorem moveSelectedItemsDown_moves_block runCB count h front last :
  sel_well_formed h -> selIdxs h = front ++ [last] -> 0 <= count ->
  let maxIdx := Z.of_nat (length (tsl_items h)) - 1 in
  let c := Z.min count (maxIdx - last) in
  last < maxIdx ->
  exists l',
    moveSelectedItemsDown runCB count h
    = (Ok tt, mkTSL l' (map (fun idx => idx + c + 1) (selIdxs h)) (tsl_ams h)) /\
    length l' = length (tsl_items h) /\
    Permutation l' (tsl_items h) /\
    (0 <= c <= count /\ last + c <= maxIdx) /\
    Forall (fun idx => nth_error l' (Z.to_nat (idx + c))
                       = nth_error (tsl_items h) (Z.to_nat idx)) (selIdxs h) /\
    forall p : nat,
      Forall (fun idx => Z.of_nat p < idx \/ idx + c < Z.of_nat p) (selIdxs h) ->
      nth_error l' p = nth_error (tsl_items h) p.
Proof.
  intros Hwf E Hcount maxIdx c Hlast.
  pose proof Hwf as (Hs & Hnd & Hone).
  assert (Hne : tsl_sel h <> []).
  { intros E0. unfold selIdxs in E. rewrite E0 in E. destruct front; discriminate. }
  pose proof (Down_with_selection runCB count h front last Hs E) as H. cbn zeta in H.
  fold maxIdx in H. fold c in H.
  replace (last <? maxIdx) with true in H by (symmetry; apply Z.ltb_lt; lia).
  destruct H as (l' & Hloop & Hlen & Hrun).
  pose proof (selIdxs_in_range h Hs) as Hr.
  assert (Hmax : Forall (fun d => d <= last) (selIdxs h)).
  { rewrite E. apply sorted_last_max. rewrite <- E. apply sort_sorted. }
  assert (Hc : 0 <= c <= count /\ last + c <= maxIdx) by (unfold c; lia).
  assert (Hrc : Forall (fun d => 0 <= d /\ d + c < Z.of_nat (length (tsl_items h)))
                  (selIdxs h)).
  { rewrite List.Forall_forall in *. intros d Hd.
    specialize (Hr d Hd). specialize (Hmax d Hd). unfold maxIdx in *. lia. }
  destruct (move_loop_down (rev (selIdxs h)) c (tsl_items h))
    as (l2 & Hloop2 & _ & Hmoved & Hrest).
  { lia. } { apply selIdxs_descending, Hnd. } { apply Forall_rev, Hrc. }
  assert (l2 = l') by congruence. subst l2.
  destruct (move_loop_ok (rev (selIdxs h)) c (tsl_items h)) as (l3 & Hloop3 & _ & Hperm).
  { apply Forall_rev, Hr. }
  assert (l3 = l') by congruence. subst l3.
  exists l'. split.
  - rewrite Hrun.
    rewrite (select_loop_after_move runCB (fun idx => idx + c) h l' Hwf Hne).
    + reflexivity.
    + intros a b. lia.
    + rewrite Hlen. eapply List.Forall_impl; [|exact Hrc]. cbn. intros; lia.
  - split; [exact Hlen|]. split; [exact Hperm|]. split; [exact Hc|]. split.
    + apply Forall_rev in Hmoved. rewrite rev_involutive in Hmoved. exact Hmoved.
    + intros p Hp. apply Hrest. apply Forall_rev. exact Hp.
Qed.

(** when the last selected item is at the bottom nothing moves *)
Lemma moveSelectedItemsDown_at_bottom runCB count h front last :
  sel_in_list h -> selIdxs h = front ++ [last] ->
  Z.of_nat (length (tsl_items h)) - 1 <= last ->
  moveSelectedItemsDown runCB count h = (Ok tt, h).
Proof.
  intros Hs E Hlast.
  pose proof (Down_with_selection runCB count h front last Hs E) as H. cbn zeta in H.
  replace (last <? _) with false in H by (symmetry; apply Z.ltb_ge; lia).
  exact H.
Qed.

(** X3: [moveSelectedItemsUp] with one item selected (the mode without
    multi-selection) and a [count] that is not negative: the item ends [c]
    places further up, [c] being [count] cut to the room above it; the items
    outside the stretch stay. *)
Theorem moveSelectedItemsUp_moves_single runCB count h i :
  sel_in_list h -> tsl_sel h = [i] -> 0 <= count ->
  let idx := i - 1 in
  let c := Z.min count idx in
  0 < idx ->
  exists l',
    moveSelectedItemsUp runCB count h = (Ok tt, mkTSL l' [idx - c + 1] (tsl_ams h)) /\
    length l' = length (tsl_items h) /\
    Permutation l' (tsl_items h) /\
    (0 <= c <= count /\ 0 <= idx - c) /\
    nth_error l' (Z.to_nat (idx - c)) = nth_error (tsl_items h) (Z.to_nat idx) /\
    forall p : nat,
      (Z.of_nat p < idx - c \/ idx < Z.of_nat p) ->
      nth_error l' p = nth_error (tsl_items h) p.
Proof.
  intros Hs E Hcount idx c Hidx.
  pose proof (selIdxs_single h i E) as Esel. fold idx in Esel.
  pose proof (Up_with_selection runCB count h idx [] Hs Esel) as H.
  replace (idx >? 0) with true in H by (symmetry; apply Z.gtb_lt; lia).
  fold c in H. destruct H as (l' & Hloop & Hlen & Hrun).
  pose proof (selIdxs_in_range h Hs) as Hr. rewrite Esel in Hr, Hloop, Hrun.
  inversion Hr as [|? ? Hin _]; subst.
  cbn [rev app move_loop] in Hloop.
  destruct (pop_insert_ok (tsl_items h) idx (idx + - c) Hin) as (x & Hx & Hpi).
  rewrite Hpi in Hloop. injection Hloop as <-.
  destruct (pop_insert_positions (tsl_items h) idx (idx + - c) x) as [Hat Hout];
    [lia|unfold c; lia|exact Hx|].
  eexists. split; [|split; [|split; [|split; [|split]]]].
  - rewrite Hrun.
    rewrite (select_loop_single runCB (fun idx => idx - c) idx); [reflexivity|].
    rewrite Hlen. unfold c. lia.
  - exact Hlen.
  - unfold PyList.insert. apply remove_at_insert_perm. exact Hx.
  - unfold c. lia.
  - replace (idx - c) with (idx + - c) by lia. rewrite Hat. symmetry. exact Hx.
  - intros p Hp. apply Hout. unfold c in *. lia.
Qed.

(** *** The selected items *)

Lemma getSelectedItems_eq h :
  getSelectedItems h
  = (Ok (omap (fun i => nth_error (tsl_items h) (Z.to_nat (i - 1))) (tsl_sel h)), h).
Proof.
  unfold getSelectedItems, bind, selectedItems, ret.
  rewrite or_empty_host_array. reflexivity.
Qed.

Lemma omap_perm {A B} (f : A -> option B) (l1 l2 : list A) :
  Permutation l1 l2 -> Permutation (omap f l1) (omap f l2).
Proof.
  induction 1 as [|x l1 l2 _ IH|x y l|l1 l2 l3 _ IH1 _ IH2]; cbn.
  - reflexivity.
  - destruct (f x); [apply perm_skip|]; exact IH.
  - destruct (f x), (f y); try reflexivity. apply perm_swap.
  - etransitivity; eassumption.
Qed.

Lemma omap_map {A B C} (f : B -> option C) (g : A -> B) (l : list A) :
  omap f (map g l) = omap (fun x => f (g x)) l.
Proof. induction l as [|x l IH]; cbn; [reflexivity|]. rewrite IH. reflexivity. Qed.

Lemma omap_ext_Forall {A B} (f g : A -> option B) (l : list A) :
  Forall (fun x => f x = g x) l -> omap f l = omap g l.
Proof. induction 1 as [|x l Hx _ IH]; cbn; [reflexivity|]. rewrite Hx, IH. reflexivity. Qed.

(** X2: after [moveSelectedItemsDown] the selected items are the items that
    were selected before *)
Theorem moveSelectedItemsDown_keeps_selected_items runCB count h :
  sel_well_formed h -> tsl_sel h <> [] -> 0 <= count ->
  exists before after,
    fst (moveSelectedItemsDown runCB count h) = Ok tt /\
    fst (getSelectedItems h) = Ok before /\
    fst (getSelectedItems (snd (moveSelectedItemsDown runCB count h))) = Ok after /\
    Permutation after before.
Proof.
  intros Hwf Hne Hcount. pose proof Hwf as (Hs & _ & _).
  destruct (exists_last (l := selIdxs h)) as (front & last & E).
  { intros E. apply selIdxs_nil_inv in E. contradiction. }
  rewrite !getSelectedItems_eq.
  destruct (Z.lt_ge_cases last (Z.of_nat (length (tsl_items h)) - 1)) as [Hlt|Hge].
  - destruct (moveSelectedItemsDown_moves_block runCB count h front last Hwf E Hcount Hlt)
      as (l' & Hrun & _ & _ & _ & Hmoved & _).
    rewrite Hrun. eexists _, _. split; [reflexivity|]. split; [reflexivity|].
    split; [reflexivity|]. cbn [snd tsl_items tsl_sel].
    rewrite omap_map.
    rewrite (omap_ext_Forall _ (fun idx => nth_error (tsl_items h) (Z.to_nat idx))).
    + unfold selIdxs.
      rewrite (omap_perm _ _ _ (sort_perm (map (fun idx => idx - 1) (tsl_sel h)))).
      rewrite omap_map. reflexivity.
    + eapply List.Forall_impl; [|exact Hmoved]. cbn. intros idx Hidx.
      rewrite <- Hidx. f_equal. lia.
  - rewrite (moveSelectedItemsDown_at_bottom runCB count h front last Hs E Hge).
    eexists _, _. split; [reflexivity|]. split; [reflexivity|].
    split; reflexivity.
Qed.

Lemma moveSelectedItemsDown_keeps_selected_items_example :
  exists before after,
    fst (moveSelectedItemsDown (ret tt) 1 abc_ab_selected) = Ok tt /\
    fst (getSelectedItems abc_ab_selected) = Ok before /\
    fst (getSelectedItems (snd (moveSelectedItemsDown (ret tt) 1 abc_ab_selected)))
    = Ok after /\
    Permutation after before.
Proof.
  apply moveSelectedItemsDown_keeps_selected_items.
  - split; [repeat constructor; cbn; lia|]. split.
    + repeat constructor; cbn; intuition lia.
    + discriminate.
  - discriminate.
  - lia.
Defined.

Lemma moveSelectedItemsUp_moves_single_example :
  exists l',
    moveSelectedItemsUp (ret tt) 5 (mkTSL ["a"; "b"; "c"]%string [3] false)
    = (Ok tt, mkTSL l' [1] false) /\
    nth_error l' 0 = Some "c"%string.
Proof.
  destruct (moveSelectedItemsUp_moves_single (ret tt) 5
              (mkTSL ["a"; "b"; "c"]%string [3] false) 3)
    as (l' & Hrun & _ & _ & _ & Hat & _).
  - repeat constructor; cbn; lia.
  - reflexivity.
  - lia.
  - lia.
  - exists l'. split; [exact Hrun|exact Hat].
Defined.




(** C1: with "b" and "c" selected in the list a, b, c,
    [moveSelectedItemsUp( 1 )] returns normally and leaves the list c, a, b:
    "c", which was below "b", is now above it, and "a" sits between the two
    (the block should have become b, c, a).  [moveSelectedItemsDown( 1 )] on
    the mirrored selection keeps the order: a, b, c becomes c, a, b. *)
Theorem moveSelectedItemsUp_reverses_block :
  moveSelectedItemsUp (ret tt) 1 abc_bc_selected
  = (Ok tt, mkTSL ["c"; "a"; "b"]%string [1; 2] true) /\
  moveSelectedItemsDown (ret tt) 1 abc_ab_selected
  = (Ok tt, mkTSL ["c"; "a"; "b"]%string [2; 3] true).
Proof. split; vm_compute; reflexivity. Qed.

(** C2: in the same run the selected items were "b" and "c" before the move;
    the items selected again at the shifted indices 0 and 1 are "c" and "a".
    Moving down, the items at the shifted indices are the ones selected
    before. *)
Theorem moveSelectedItemsUp_selects_other_items :
  fst (getSelectedItems abc_bc_selected) = Ok ["b"; "c"]%string /\
  fst (getSelectedItems (snd (moveSelectedItemsUp (ret tt) 1 abc_bc_selected)))
  = Ok ["c"; "a"]%string /\
  fst (getSelectedItems abc_ab_selected) = Ok ["a"; "b"]%string /\
  fst (getSelectedItems (snd (moveSelectedItemsDown (ret tt) 1 abc_ab_selected)))
  = Ok ["a"; "b"]%string.
Proof. repeat split; vm_compute; reflexivity. Qed.

End ScrollListFacts.

(** ** The object scroll list *)

Module ObjectListFacts.
Import Host Examples HostInv PyListFacts MelObjectScrollList.

Section LockStep.
Context {Item : Type}.
Variable cls : Class Item.
Variable _appendCB : option (Item -> M (Obj Item) unit).

Local Abbreviation shown := (MelObjectScrollList.shown cls).

(** *** Display strings of a list of objects *)

Lemma shown_cons x l :
  shown (x :: l)
  = match itemAsStr cls x with
    | Ok s => match shown l with
              | Ok ss => Ok (s :: ss)
              | Raise e => Raise e
              end
    | Raise e => Raise e
    end.
Proof. reflexivity. Qed.

Lemma shown_app_ok l1 l2 s1 s2 :
  shown l1 = Ok s1 -> shown l2 = Ok s2 -> shown (l1 ++ l2) = Ok (s1 ++ s2).
Proof.
  revert s1. induction l1 as [|x l1 IH]; intros s1; cbn [app].
  - intros [= <-]. auto.
  - rewrite !shown_cons. destruct (itemAsStr cls x) as [s|e]; [|discriminate].
    destruct (shown l1) as [ss|e] eqn:E; [|discriminate].
    intros [= <-] H2. rewrite (IH ss eq_refl H2). reflexivity.
Qed.

Lemma shown_length l ss : shown l = Ok ss -> length ss = length l.
Proof.
  revert ss. induction l as [|x l IH]; intros ss.
  - intros [= <-]. reflexivity.
  - rewrite shown_cons. destruct (itemAsStr cls x) as [s|e]; [|discriminate].
    destruct (shown l) as [ss'|e]; [|discriminate].
    intros [= <-]. cbn. f_equal. apply IH. reflexivity.
Qed.

Lemma shown_nth l ss i x :
  shown l = Ok ss -> nth_error l i = Some x ->
  exists s, itemAsStr cls x = Ok s /\ nth_error ss i = Some s.
Proof.
  revert ss i. induction l as [|y l IH]; intros ss i; [destruct i; discriminate|].
  rewrite shown_cons. destruct (itemAsStr cls y) as [s|e] eqn:Ey; [|discriminate].
  destruct (shown l) as [ss'|e]; [|discriminate].
  intros [= <-]. destruct i as [|i]; cbn.
  - intros [= <-]. exists s. auto.
  - apply IH. reflexivity.
Qed.

Lemma shown_displayable l ss : shown l = Ok ss -> Forall (displayable cls) l.
Proof.
  intros Hs. apply List.Forall_forall. intros x Hx.
  apply In_nth_error in Hx as (i & Hi).
  destruct (shown_nth l ss i x Hs Hi) as (s & Hsx & _). exists s. exact Hsx.
Qed.

Lemma displayable_shown l : Forall (displayable cls) l -> exists ss, shown l = Ok ss.
Proof.
  induction 1 as [|x l [s Hx] _ [ss IH]].
  - exists []. reflexivity.
  - exists (s :: ss). rewrite shown_cons, Hx, IH. reflexivity.
Qed.

Lemma shown_remove_at k l ss :
  shown l = Ok ss -> shown (PyList.remove_at k l) = Ok (PyList.remove_at k ss).
Proof.
  revert k ss. induction l as [|x l IH]; intros k ss.
  - intros [= <-]. destruct k; reflexivity.
  - rewrite shown_cons. destruct (itemAsStr cls x) as [s|e] eqn:Ex; [|discriminate].
    destruct (shown l) as [ss'|e] eqn:El; [|discriminate].
    intros [= <-]. destruct k as [|k].
    + unfold PyList.remove_at. cbn. exact El.
    + specialize (IH k ss' eq_refl). unfold PyList.remove_at in *. cbn [firstn skipn app].
      rewrite shown_cons, Ex, IH. reflexivity.
Qed.

(** the first object whose [str] raises *)
Lemma shown_raise_inv l e :
  shown l = Raise e ->
  exists pre bad post ss,
    l = pre ++ bad :: post /\ shown pre = Ok ss /\ itemAsStr cls bad = Raise e.
Proof.
  induction l as [|x l IH]; [discriminate|].
  rewrite shown_cons. destruct (itemAsStr cls x) as [s|e0] eqn:Ex.
  - destruct (shown l) as [ss'|e1] eqn:El; [discriminate|].
    intros [= ->]. destruct (IH eq_refl) as (pre & bad & post & ss & -> & Hpre & Hbad).
    exists (x :: pre), bad, post, (s :: ss). split; [reflexivity|]. split; [|exact Hbad].
    rewrite shown_cons, Ex, Hpre. reflexivity.
  - intros [= ->]. exists [], x, l, []. auto.
Qed.

(** the invariant as one equation *)
Lemma lock_step_iff (o : Obj Item) :
  lock_step cls o <-> shown (_items o) = Ok (tsl_items (widget o)).
Proof.
  unfold lock_step. generalize (tsl_items (widget o)) as ss. generalize (_items o) as l.
  induction l as [|x l IH]; intros ss.
  - split.
    + intros [Hlen _]. destruct ss; [reflexivity|discriminate].
    + intros [= <-]. split; [reflexivity|]. cbn. intros i Hi. lia.
  - rewrite shown_cons. split.
    + intros [Hlen Hnth]. destruct ss as [|s ss]; [discriminate|].
      pose proof (Hnth 0%nat ltac:(cbn; lia)) as H0. cbn in H0. injection H0 as H0.
      rewrite <- H0.
      assert (Hl : shown l = Ok ss).
      { apply IH. split; [cbn in Hlen; lia|].
        intros i Hi. apply (Hnth (S i)). cbn. lia. }
      rewrite Hl. reflexivity.
    + destruct (itemAsStr cls x) as [s|e] eqn:Ex; [|discriminate].
      destruct (shown l) as [ss'|e] eqn:El; [|discriminate].
      intros [= <-]. destruct (proj2 (IH ss') eq_refl) as [Hlen Hnth]. split; [cbn; lia|].
      intros [|i] Hi; cbn.
      * rewrite Ex. reflexivity.
      * apply Hnth. cbn in Hi. lia.
Qed.

(** *** The operations *)

Lemma append_eq item s o :
  itemAsStr cls item = Ok s ->
  append cls _appendCB item o
  = match _appendCB with
    | Some cb => cb item
    | None => ret tt
    end (mkObj (mkTSL (tsl_items (widget o) ++ [s]) (tsl_sel (widget o))
                      (tsl_ams (widget o))) (_items o ++ [item])).
Proof.
  intros Hs. unfold append. unfold bind at 1. unfold modify at 1.
  unfold bind at 1. unfold lift. rewrite Hs. unfold bind at 1.
  unfold on_widget, Host.append, modify. cbn [widget _items]. reflexivity.
Qed.

(** when [str] raises, the object is in [_items] and the host has no string
    for it *)
Lemma append_raises item e o :
  itemAsStr cls item = Raise e ->
  append cls _appendCB item o = (Raise e, mkObj (widget o) (_items o ++ [item])).
Proof.
  intros He. unfold append. unfold bind at 1. unfold modify at 1.
  unfold bind at 1. unfold lift. rewrite He. reflexivity.
Qed.

Lemma append_keeps item o :
  callback_keeps_lock_step cls _appendCB -> displayable cls item -> lock_step cls o ->
  lock_step cls (snd (append cls _appendCB item o)).
Proof.
  intros Hcb [s Hs] Hl. rewrite (append_eq item s o Hs).
  set (o1 := mkObj _ _).
  assert (H1 : lock_step cls o1).
  { apply lock_step_iff. apply lock_step_iff in Hl. unfold o1. cbn [_items widget tsl_items].
    apply shown_app_ok; [exact Hl|]. rewrite shown_cons, Hs. reflexivity. }
  destruct _appendCB as [cb|] eqn:E; [|exact H1].
  apply (Hcb cb item o1 eq_refl H1).
Qed.

Lemma for_each_append_keeps items o :
  callback_keeps_lock_step cls _appendCB -> Forall (displayable cls) items ->
  lock_step cls o ->
  lock_step cls (snd (for_each items (append cls _appendCB) o)).
Proof.
  intros Hcb Hall. revert o. induction Hall as [|x items Hx _ IH]; intros o Hl; cbn.
  - exact Hl.
  - unfold bind. pose proof (append_keeps x o Hcb Hx Hl) as H1.
    destruct (append cls _appendCB x o) as [[[]|e] o1]; cbn in *.
    + apply IH, H1.
    + exact H1.
Qed.

Lemma clear_lock_step o : lock_step cls (snd (clear o)).
Proof. apply lock_step_iff. reflexivity. Qed.

(** popping position [k] on both sides *)
Lemma remove_both_keeps (k : nat) o x :
  lock_step cls o -> nth_error (_items o) k = Some x ->
  bind (pop_item (Z.of_nat k)) (fun _ => on_widget (removeIndexedItem (Z.of_nat k + 1))) o
  = (Ok tt, mkObj (mkTSL (PyList.remove_at k (tsl_items (widget o)))
                         (sel_after_remove (Z.of_nat k + 1) (tsl_sel (widget o)))
                         (tsl_ams (widget o)))
                  (PyList.remove_at k (_items o))) /\
  lock_step cls (mkObj (mkTSL (PyList.remove_at k (tsl_items (widget o)))
                         (sel_after_remove (Z.of_nat k + 1) (tsl_sel (widget o)))
                         (tsl_ams (widget o)))
                  (PyList.remove_at k (_items o))).
Proof.
  intros Hl Hx.
  assert (Hk : (k < length (_items o))%nat) by (apply nth_error_Some; congruence).
  pose proof Hl as [Hlen _].
  split.
  - unfold bind, pop_item.
    rewrite (pop_nonneg (_items o) (Z.of_nat k) x) by (lia || rewrite Nat2Z.id; exact Hx).
    unfold on_widget, removeIndexedItem, in_range. cbn [widget _items].
    replace (1 <=? Z.of_nat k + 1) with true by (symmetry; apply Z.leb_le; lia).
    replace (Z.of_nat k + 1 <=? Z.of_nat (length (tsl_items (widget o)))) with true
      by (symmetry; apply Z.leb_le; lia).
    cbn [andb]. rewrite Nat2Z.id.
    replace (Z.to_nat (Z.of_nat k + 1 - 1)) with k by lia. reflexivity.
  - apply lock_step_iff. apply lock_step_iff in Hl. cbn [_items widget tsl_items].
    apply shown_remove_at, Hl.
Qed.

Lemma removeByIdx_keeps idx o :
  0 <= idx -> lock_step cls o -> lock_step cls (snd (removeByIdx idx o)).
Proof.
  intros Hidx Hl. unfold removeByIdx.
  destruct (nth_error (_items o) (Z.to_nat idx)) as [x|] eqn:Hx.
  - destruct (remove_both_keeps (Z.to_nat idx) o x Hl Hx) as [Hrun Hkeep].
    rewrite Z2Nat.id in Hrun by lia. rewrite Hrun. exact Hkeep.
  - apply nth_error_None in Hx. unfold bind, pop_item.
    rewrite pop_too_big by lia. exact Hl.
Qed.

Lemma remove_matching_S fuel valueStr p (o : Obj Item) :
  remove_matching cls (S fuel) valueStr p o
  = match nth_error (_items o) p with
    | Some item =>
        match itemAsStr cls item with
        | Ok s =>
            bind (if String.eqb s valueStr
                  then bind (pop_item (Z.of_nat p))
                         (fun _ => on_widget (removeIndexedItem (Z.of_nat p + 1)))
                  else ret tt)
                 (fun _ => remove_matching cls fuel valueStr (S p)) o
        | Raise e => (Raise e, o)
        end
    | None => (Ok tt, o)
    end.
Proof.
  cbn [remove_matching]. unfold bind at 1. cbn [get_state].
  destruct (nth_error (_items o) p) as [item|]; [|reflexivity].
  unfold bind at 1. unfold lift. destruct (itemAsStr cls item); reflexivity.
Qed.

Lemma remove_matching_keeps fuel valueStr p o :
  lock_step cls o -> lock_step cls (snd (remove_matching cls fuel valueStr p o)).
Proof.
  revert p o. induction fuel as [|fuel IH]; intros p o Hl.
  - exact Hl.
  - rewrite remove_matching_S.
    destruct (nth_error (_items o) p) as [item|] eqn:Hitem; [|exact Hl].
    destruct (itemAsStr cls item) as [s|e]; [|exact Hl].
    destruct (String.eqb s valueStr).
    + destruct (remove_both_keeps p o item Hl Hitem) as [Hrun Hkeep].
      unfold bind at 1. rewrite Hrun. apply IH, Hkeep.
    + unfold bind, ret. apply IH, Hl.
Qed.

(** The loop is over within [length _items] rounds: more fuel changes
    nothing. *)
Lemma remove_matching_fuel fuel extra valueStr p (o : Obj Item) :
  (length (_items o) <= p + fuel)%nat ->
  remove_matching cls (fuel + extra) valueStr p o
  = remove_matching cls fuel valueStr p o.
Proof.
  revert p o. induction fuel as [|fuel IH]; intros p o Hlen.
  - cbn [Nat.add remove_matching].
    destruct extra as [|extra]; [reflexivity|]. rewrite remove_matching_S.
    rewrite (proj2 (nth_error_None (_items o) p)) by lia. reflexivity.
  - cbn [Nat.add]. rewrite !remove_matching_S.
    destruct (nth_error (_items o) p) as [item|] eqn:Hitem; [|reflexivity].
    destruct (itemAsStr cls item) as [s|e]; [|reflexivity].
    destruct (String.eqb s valueStr).
    + unfold bind, pop_item.
      rewrite (pop_nonneg (_items o) (Z.of_nat p) item)
        by (lia || rewrite Nat2Z.id; exact Hitem).
      unfold on_widget. cbn [widget _items].
      destruct (removeIndexedItem (Z.of_nat p + 1) (widget o)) as [[[]|e] h'];
        [|reflexivity].
      apply IH. cbn [_items]. rewrite Nat2Z.id, length_remove_at.
      * lia.
      * apply nth_error_Some. congruence.
    + unfold bind. cbn. apply IH. lia.
Qed.

Lemma index_of_nth value l k :
  index_of cls value l = Some k -> exists x, nth_error l k = Some x.
Proof.
  revert k. induction l as [|y l IH]; intros k; cbn; [discriminate|].
  destruct (py_eq cls y value).
  - intros [= <-]. eexists; reflexivity.
  - destruct (index_of cls value l) as [k'|]; cbn; [|discriminate].
    intros [= <-]. cbn. apply IH. reflexivity.
Qed.

Lemma removeByValue_keeps value o :
  lock_step cls o -> lock_step cls (snd (removeByValue cls value o)).
Proof.
  intros Hl. unfold removeByValue. unfold bind at 1. cbn [get_state].
  destruct (index_of cls value (_items o)) as [k|] eqn:Hk.
  - destruct (index_of_nth _ _ _ Hk) as (x & Hx).
    destruct (remove_both_keeps k o x Hl Hx) as [Hrun Hkeep].
    rewrite Hrun. exact Hkeep.
  - unfold bind at 1. unfold lift.
    destruct (itemAsStr cls value) as [valueStr|e]; [|exact Hl].
    apply remove_matching_keeps, Hl.
Qed.

(** the loop of [update] when every string is there *)
Lemma for_each_show_eq (items : list Item) ss (o : Obj Item) :
  shown items = Ok ss ->
  for_each items (show_item cls) o
  = (Ok tt, mkObj (mkTSL (tsl_items (widget o) ++ ss)
                         (tsl_sel (widget o)) (tsl_ams (widget o))) (_items o)).
Proof.
  revert ss o. induction items as [|x items IH]; intros ss o.
  - intros [= <-]. cbn. rewrite app_nil_r. destruct o as [[] ?]; reflexivity.
  - rewrite shown_cons. destruct (itemAsStr cls x) as [s|e] eqn:Ex; [|discriminate].
    destruct (shown items) as [ss'|e] eqn:El; [|discriminate].
    intros [= <-]. cbn [for_each]. unfold bind at 1. unfold show_item at 1.
    unfold bind at 1. unfold lift. rewrite Ex.
    unfold on_widget at 1, Host.append, modify.
    rewrite (IH ss' _ eq_refl). cbn [widget _items tsl_items tsl_sel tsl_ams].
    rewrite <- app_assoc. reflexivity.
Qed.

(** the loop of [update] when a [str] raises: the strings before it are
    shown, the rest is not *)
Lemma for_each_show_raises pre bad post ss e (o : Obj Item) :
  shown pre = Ok ss -> itemAsStr cls bad = Raise e ->
  for_each (pre ++ bad :: post) (show_item cls) o
  = (Raise e, mkObj (mkTSL (tsl_items (widget o) ++ ss)
                           (tsl_sel (widget o)) (tsl_ams (widget o))) (_items o)).
Proof.
  intros Hpre Hbad. revert ss o Hpre. induction pre as [|x pre IH]; intros ss o.
  - intros [= <-]. cbn [app for_each]. unfold bind at 1. unfold show_item.
    unfold bind at 1. unfold lift. rewrite Hbad. rewrite app_nil_r.
    destruct o as [[] ?]; reflexivity.
  - rewrite shown_cons. destruct (itemAsStr cls x) as [s|e0] eqn:Ex; [|discriminate].
    destruct (shown pre) as [ss'|e0] eqn:El; [|discriminate].
    intros [= <-]. cbn [app for_each]. unfold bind at 1. unfold show_item at 1.
    unfold bind at 1. unfold lift. rewrite Ex.
    unfold on_widget at 1, Host.append, modify.
    rewrite (IH ss' _ eq_refl). cbn [widget _items tsl_items tsl_sel tsl_ams].
    rewrite <- app_assoc. reflexivity.
Qed.

Lemma for_each_select_keeps idxs o :
  lock_step cls o -> lock_step cls (snd (for_each idxs selectByIdx o)).
Proof.
  revert o. induction idxs as [|idx idxs IH]; intros o Hl; cbn.
  - exact Hl.
  - unfold bind at 1.
    assert (H1 : lock_step cls (snd (selectByIdx idx o)) ).
    { unfold selectByIdx, on_widget, MelTextScrollList.selectByIdx, bind,
        selectIndexedItem.
      destruct (in_range (idx + 1) (widget o)); cbn; exact Hl. }
    destruct (selectByIdx idx o) as [[[]|e] o1]; cbn in *.
    + apply IH, H1.
    + exact H1.
Qed.

(** [update] up to the selection loop, when every string is there *)
Lemma update_eq b o ss :
  shown (_items o) = Ok ss ->
  update cls b o
  = (if b then for_each (map (fun idx => idx - 1) (tsl_sel (widget o))) selectByIdx
     else ret tt)
      (mkObj (mkTSL ss [] (tsl_ams (widget o))) (_items o)).
Proof.
  intros Hs. unfold update. unfold bind at 1.
  unfold getSelectedIdxs, on_widget at 1.
  rewrite ScrollListFacts.getSelectedIdxs_eq.
  unfold bind at 1. unfold on_widget at 1, removeAll, modify.
  unfold bind at 1. cbn [get_state]. cbn [_items].
  unfold bind at 1. rewrite (for_each_show_eq _ ss _ Hs).
  cbn [widget tsl_items tsl_sel tsl_ams _items app]. reflexivity.
Qed.

(** [update] when a [str] raises: a partial display *)
Lemma update_raises b o pre bad post ss e :
  _items o = pre ++ bad :: post -> shown pre = Ok ss -> itemAsStr cls bad = Raise e ->
  update cls b o = (Raise e, mkObj (mkTSL ss [] (tsl_ams (widget o))) (_items o)).
Proof.
  intros Hitems Hpre Hbad. unfold update. unfold bind at 1.
  unfold getSelectedIdxs, on_widget at 1.
  rewrite ScrollListFacts.getSelectedIdxs_eq.
  unfold bind at 1. unfold on_widget at 1, removeAll, modify.
  unfold bind at 1. cbn [get_state]. cbn [_items].
  unfold bind at 1. rewrite Hitems at 1.
  rewrite (for_each_show_raises pre bad post ss e _ Hpre Hbad).
  cbn [widget tsl_items tsl_sel tsl_ams _items app]. reflexivity.
Qed.

Lemma update_lock_step b o : lock_step cls o -> lock_step cls (snd (update cls b o)).
Proof.
  intros Hl. apply lock_step_iff in Hl. rewrite (update_eq b o _ Hl).
  set (o1 := mkObj _ _).
  assert (H1 : lock_step cls o1) by (apply lock_step_iff; exact Hl).
  destruct b; [|exact H1].
  apply for_each_select_keeps, H1.
Qed.

Lemma setItems_keeps items o :
  callback_keeps_lock_step cls _appendCB -> Forall (displayable cls) items ->
  lock_step cls (snd (setItems cls _appendCB items o)).
Proof.
  intros Hcb Hall. unfold setItems. unfold bind at 1.
  pose proof (clear_lock_step o) as H1.
  destruct (clear o) as [[[]|e] o1]; cbn in *.
  - apply for_each_append_keeps; assumption.
  - exact H1.
Qed.

(** C3 as the code has it.  With the two sequences in lock-step before the
    call, each of [append] and [setItems] given objects whose [str]
    returns, [removeByIdx] with an index that is not negative,
    [removeByValue], [clear] and [update] leaves the host list with one entry
    per object of [_items], the i-th being [itemAsStr] of the i-th object,
    also when the call raises; the user's append callback is taken to leave
    the two sequences alone. *)
Theorem lock_step_preserved (op : Op) (o : Obj Item) :
  callback_keeps_lock_step cls _appendCB ->
  lock_step cls o ->
  within_contract cls op ->
  lock_step cls (snd (run cls _appendCB op o)).
Proof.
  intros Hcb Hl Hop. destruct op as [item|idx|value|items| |b]; cbn [run];
    cbn [within_contract] in Hop.
  - apply append_keeps; assumption.
  - apply removeByIdx_keeps; assumption.
  - apply removeByValue_keeps, Hl.
  - apply setItems_keeps; assumption.
  - apply clear_lock_step.
  - apply update_lock_step, Hl.
Qed.

End LockStep.

Lemma lock_step_preserved_witness :
  lock_step string_items
    (snd (run string_items None (OpSetItems ["ns:a"; "grp|b"]%string) one_object)).
Proof.
  apply (lock_step_preserved string_items None (OpSetItems ["ns:a"; "grp|b"]%string)
           one_object).
  - intros cb item o E. discriminate E.
  - apply lock_step_iff. reflexivity.
  - cbn. repeat constructor; eexists; reflexivity.
Defined.

(** C3 as stated fails: [removeByIdx( -1 )] pops the last object of [_items]
    and then asks the host to remove position 0, which the host does not
    have: the object is gone from [_items] and its string is still shown. *)
Lemma removeByIdx_negative_breaks_lock_step :
  lock_step string_items one_object /\
  run string_items None (OpRemoveByIdx (-1)) one_object
  = (Raise HostError, mkObj (mkTSL ["x"]%string [] false) []) /\
  ~ lock_step string_items
      (snd (run string_items None (OpRemoveByIdx (-1)) one_object)).
Proof.
  split; [apply lock_step_iff; reflexivity|]. split; [reflexivity|].
  intros [Hlen _]. vm_compute in Hlen. discriminate Hlen.
Qed.

(** It fails also when [str] of the appended object raises: [append] has
    put the object into [_items] by then (line 676) and the host list has no
    entry for it. *)
Lemma append_raising_str_breaks_lock_step :
  lock_step fragile_items (mkObj (mkTSL ["x"]%string [] false) [Some "ns:x"%string]) /\
  run fragile_items None (OpAppend None)
    (mkObj (mkTSL ["x"]%string [] false) [Some "ns:x"%string])
  = (Raise TypeError, mkObj (mkTSL ["x"]%string [] false) [Some "ns:x"%string; None]) /\
  ~ lock_step fragile_items
      (snd (run fragile_items None (OpAppend None)
              (mkObj (mkTSL ["x"]%string [] false) [Some "ns:x"%string]))).
Proof.
  split; [apply lock_step_iff; reflexivity|]. split; [reflexivity|].
  intros [Hlen _]. vm_compute in Hlen. discriminate Hlen.
Qed.

End ObjectListFacts.

(** ** The instance registry *)

Module RegistryFacts.
Import Classes Registry.



Lemma skipn_S_of_cons {A} pos (l : list A) x rest :
  skipn pos l = x :: rest -> skipn (S pos) l = rest.
Proof.
  revert l. induction pos as [|pos IH]; intros l E.
  - change (l = x :: rest) in E. subst l. reflexivity.
  - destruct l as [|y l]; [discriminate|]. exact (IH l E).
Qed.

Section WithHost.
Context {H Name : Type}.
Variable api : HostAPI H Name.
Variable GetSubclasses : list WidgetClass.
Implicit Types (st : Store Name) (inst : Wrapper Name) (l : list (Wrapper Name)).


(** after [cls._INSTANCE_LIST = l] the class reads [l] *)
Lemma instance_list_assign_self cls l st :
  instance_list (registry_assign cls l st) cls = l.
Proof.
  unfold instance_list.
  assert (E : instance_ref (registry_assign cls l st) cls = fresh st).
  { unfold instance_ref, class_attr, registry_assign.
    destruct cls; cbn; rewrite ?bool_decide_eq_true_2 by reflexivity; reflexivity. }
  rewrite E. unfold registry_assign. cbn [deref]. rewrite Nat.eqb_refl. reflexivity.
Qed.


(** an assignment changes no list object that was there *)
Lemma registry_assign_deref cls l st a :
  (a < fresh st)%nat -> deref (registry_assign cls l st) a = deref st a.
Proof.
  intros Ha. unfold registry_assign. cbn [deref].
  replace (a =? fresh st)%nat with false by (symmetry; apply Nat.eqb_neq; lia).
  reflexivity.
Qed.

Lemma registry_assign_allocated cls l st :
  refs_allocated st -> refs_allocated (registry_assign cls l st).
Proof.
  intros [Hbase Hsub]. unfold refs_allocated, registry_assign. cbn [fresh base_ref sub_ref].
  split.
  - destruct cls; lia.
  - intros c a. destruct (bool_decide (c = cls)).
    + intros [= <-]. lia.
    + intros Hc. specialize (Hsub c a Hc). lia.
Qed.

(** one step of the generator from inside the loop: at the end of the list
    object the assignment of line 235 runs; an entry that is an instance of
    [cls] with a widget is yielded; any other entry is passed over *)
Lemma next_running cls h st lst pos existing :
  next api cls h (Running lst pos existing) st
  = match skipn pos (deref st lst) with
    | [] => (None, Finished, registry_assign cls existing st)
    | inst :: _ =>
        if isinstance inst cls && widget_exists api (WIDGET_CMD cls) (w_name inst) h
        then (Some inst, Running lst (S pos) (existing ++ [inst]), st)
        else next api cls h (Running lst (S pos) existing) st
    end.
Proof.
  unfold next. destruct (skipn pos (deref st lst)) as [|inst rest] eqn:E; [reflexivity|].
  rewrite (skipn_S_of_cons pos _ inst rest E). cbn [scan].
  destruct (isinstance inst cls); cbn [negb andb]; [|reflexivity].
  destruct (widget_exists api (WIDGET_CMD cls) (w_name inst) h); reflexivity.
Qed.

(** the first step binds the loop to the list object the class refers to *)
Lemma next_not_started cls h st :
  next api cls h NotStarted st
  = next api cls h (Running (instance_ref st cls) 0 []) st.
Proof. reflexivity. Qed.

(** an iteration that is not run to its end assigns nothing *)
Lemma next_yield_keeps_store cls h g st inst g' st' :
  next api cls h g st = (Some inst, g', st') -> st' = st.
Proof.
  unfold next. destruct g as [|lst pos existing|].
  - destruct (scan api cls h _ 0%nat []) as [[[i r]|] e]; congruence.
  - destruct (scan api cls h _ pos existing) as [[[i r]|] e]; congruence.
  - congruence.
Qed.

(** the loop from any position to its end, nothing else running *)
Lemma drain_running cls h st lst pos existing fuel :
  (length (skipn pos (deref st lst)) < fuel)%nat ->
  drain api fuel cls h (Running lst pos existing) st
  = (live api cls h (skipn pos (deref st lst)), Finished,
     registry_assign cls (existing ++ live api cls h (skipn pos (deref st lst))) st).
Proof.
  remember (skipn pos (deref st lst)) as rest eqn:E.
  revert pos existing fuel E. induction rest as [|inst rest IH]; intros pos existing fuel E Hf.
  - destruct fuel as [|fuel]; [cbn in Hf; lia|]. cbn [drain].
    rewrite next_running, <- E. cbn. rewrite app_nil_r. reflexivity.
  - destruct fuel as [|fuel]; [cbn in Hf; lia|]. cbn in Hf.
    symmetry in E. pose proof (skipn_S_of_cons pos _ inst rest E) as E'. symmetry in E'.
    cbn [drain]. rewrite next_running, E. cbn [live List.filter].
    destruct (isinstance inst cls && widget_exists api (WIDGET_CMD cls) (w_name inst) h).
    + rewrite (IH (S pos) (existing ++ [inst]) fuel E') by lia.
      rewrite <- app_assoc. reflexivity.
    + specialize (IH (S pos) existing (S fuel) E' ltac:(lia)).
      cbn [drain] in IH. rewrite IH. reflexivity.
Qed.

(** what a full iteration yields and leaves *)
Lemma IterInstances_eq cls h st :
  IterInstances api cls h st
  = (live api cls h (instance_list st cls), Finished,
     registry_assign cls (live api cls h (instance_list st cls)) st).
Proof.
  unfold IterInstances.
  assert (E0 : skipn 0 (deref st (instance_ref st cls)) = instance_list st cls)
    by reflexivity.
  pose proof (drain_running cls h st (instance_ref st cls) 0 []
                (S (length (instance_list st cls)))) as Hd.
  rewrite E0 in Hd. specialize (Hd ltac:(lia)).
  cbn [drain] in *. rewrite next_not_started. exact Hd.
Qed.

(** *** An iteration during which wrappers are registered *)













(** a full iteration with nothing in between is such a run: [drain] ends
    where the steps [StepNext] alone end *)
Lemma drain_is_interleave fuel cls h g st :
  interleave api (repeat StepNext fuel) cls h g st
  = (snd (fst (drain api fuel cls h g st)), snd (drain api fuel cls h g st)).
Proof.
  revert g st. induction fuel as [|fuel IH]; intros g st; cbn [drain repeat interleave].
  - reflexivity.
  - destruct (next api cls h g st) as [[[inst|] g1] st1] eqn:En.
    + rewrite IH. destruct (drain api fuel cls h g1 st1) as [[ys g2] st2]. reflexivity.
    + cbn [fst snd].
      assert (Hg1 : g1 = Finished).
      { unfold next in En. destruct g as [|lst pos existing|].
        - destruct (scan api cls h _ 0%nat []) as [[[i r]|] e]; congruence.
        - destruct (scan api cls h _ pos existing) as [[[i r]|] e]; congruence.
        - congruence. }
      subst g1. clear. revert st1.
      induction fuel as [|fuel IH]; intros st1; cbn [repeat interleave next];
        [reflexivity|apply IH].
Qed.

(** what the class itself sees afterwards: its live instances only *)
Lemma instance_list_after_IterInstances cls h st :
  instance_list (snd (IterInstances api cls h st)) cls
  = live api cls h (instance_list st cls).
Proof. rewrite IterInstances_eq. cbn [snd]. apply instance_list_assign_self. Qed.

End WithHost.
End RegistryFacts.

(** ** Rehydration and construction *)

Module ConstructFacts.
Import Classes Registry Construct Examples.

(** *** [FromStr] *)

Lemma candidates_sound subs k c :
  In c (candidates subs (Some k)) -> In c subs /\ WIDGET_CMD c = k.
Proof.
  unfold candidates. intros Hin. apply filter_In in Hin as [Hin Heq].
  apply String.eqb_eq in Heq. auto.
Qed.

Lemma candidates_complete subs k c :
  In c subs -> WIDGET_CMD c = k -> candidates subs (Some k) <> [].
Proof.
  intros Hin Heq Hnil.
  assert (Hc : In c (candidates subs (Some k))).
  { unfold candidates. apply filter_In. split; [exact Hin|]. apply String.eqb_eq, Heq. }
  rewrite Hnil in Hc. destruct Hc.
Qed.

(** the first class of a list that passes a test *)
Lemma filter_first {A} (f : A -> bool) (l : list A) c0 cs :
  List.filter f l = c0 :: cs ->
  f c0 = true /\
  exists before after, l = before ++ c0 :: after /\ Forall (fun d => f d = false) before.
Proof.
  induction l as [|x l IH]; [discriminate|]. cbn [List.filter].
  destruct (f x) eqn:Ex.
  - intros [= -> _]. split; [exact Ex|]. exists [], l. split; [reflexivity|constructor].
  - intros E. destruct (IH E) as (H0 & before & after & -> & Hb).
    split; [exact H0|]. exists (x :: before), after. split; [reflexivity|].
    constructor; assumption.
Qed.

(** C5: for a widget the host has, [BaseMelWidget.FromStr] returns a wrapper
    of that name and leaves the host's widgets as they were.  The command
    that belongs to the host's type string is [cmd.text] for 'staticText',
    [cmd.textField] for 'field' (lines 15-16) and otherwise the host
    command of that name, if there is one.  When a listed subclass has that
    command as its [WIDGET_CMD], the wrapper's class is the first listed
    subclass that has; when none has, or the type string names no command,
    the class is [BaseMelWidget]. *)
Theorem FromStr_class_matches_type hm subs theStr uiTypeStr h st :
  host_type h theStr = Some uiTypeStr ->
  exists new,
    FromStr (api hm) subs BaseMelWidget theStr (h, st)
    = (Ok new, (h, registry_append BaseMelWidget new st)) /\
    w_name new = theStr /\
    (forall k,
       (uiTypeStr = "staticText" /\ k = "text") \/
       (uiTypeStr = "field" /\ k = "textField") \/
       (uiTypeStr <> "staticText" /\ uiTypeStr <> "field" /\
        hm_getattr hm uiTypeStr = Some k) ->
       ((exists c, In c subs /\ WIDGET_CMD c = k) ->
          WIDGET_CMD (w_class new) = k /\
          exists before after,
            subs = before ++ w_class new :: after /\
            Forall (fun d => WIDGET_CMD d <> k) before) /\
       ((forall c, In c subs -> WIDGET_CMD c <> k) -> w_class new = BaseMelWidget)) /\
    (uiTypeStr <> "staticText" -> uiTypeStr <> "field" ->
     hm_getattr hm uiTypeStr = None -> w_class new = BaseMelWidget).
Proof.
  intros Ht. unfold FromStr. cbn [objectTypeUI api]. unfold host_objectTypeUI.
  rewrite Ht. eexists. split; [reflexivity|]. cbn [w_name w_class].
  split; [reflexivity|]. split.
  - intros k Hk.
    assert (Hcmd : ui_cmd (api hm) uiTypeStr = Some k).
    { unfold ui_cmd, TYPE_NAMES_TO_CMDS. cbn [cmd_getattr api].
      destruct Hk as [[-> ->]|[[-> ->]|(H1 & H2 & H3)]]; [reflexivity..|].
      apply String.eqb_neq in H1, H2. rewrite H1, H2. exact H3. }
    rewrite Hcmd. split.
    + intros (c & Hin & Hc).
      destruct (candidates subs (Some k)) as [|c0 cs] eqn:E.
      * exfalso. exact (candidates_complete subs k c Hin Hc E).
      * cbn [pick_class]. unfold candidates in E.
        destruct (filter_first _ subs c0 cs E) as (H0 & before & after & Hsplit & Hb).
        apply String.eqb_eq in H0. split; [exact H0|].
        exists before, after. split; [exact Hsplit|].
        eapply List.Forall_impl; [|exact Hb]. cbn. intros d Hd. apply String.eqb_neq, Hd.
    + intros Hnone.
      destruct (candidates subs (Some k)) as [|c0 cs] eqn:E; [reflexivity|].
      exfalso. assert (Hin0 : In c0 (c0 :: cs)) by (left; reflexivity).
      rewrite <- E in Hin0.
      destruct (candidates_sound subs k c0 Hin0) as [Hin Hc].
      exact (Hnone c0 Hin Hc).
  - intros H1 H2 H3. unfold ui_cmd, TYPE_NAMES_TO_CMDS. cbn [cmd_getattr api].
    apply String.eqb_neq in H1, H2. rewrite H1, H2, H3. reflexivity.
Qed.

Lemma FromStr_class_matches_type_witness :
  exists new,
    FromStr (api plain_host) all_subclasses BaseMelWidget "button0" (some_widgets, some_wrappers)
    = (Ok new, (some_widgets, registry_append BaseMelWidget new some_wrappers)) /\
    w_name new = "button0"%string /\
    WIDGET_CMD (w_class new) = "button"%string.
Proof.
  destruct (FromStr_class_matches_type plain_host all_subclasses "button0" "button"
              some_widgets some_wrappers eq_refl) as (new & Hrun & Hname & Hcmd & _).
  exists new. split; [exact Hrun|]. split; [exact Hname|].
  refine (proj1 (proj1 (Hcmd "button"%string _) _)).
  - right. right. split; [discriminate|]. split; [discriminate|reflexivity].
  - exists MelButton. split; [|reflexivity]. unfold all_subclasses. cbn. tauto.
Defined.

(** the label of the example host is found through the table of lines
    15-16, the button through the host command of its type's name; a type
    that names no command gives the base class *)
Lemma FromStr_on_the_example_host :
  fst (FromStr (api plain_host) all_subclasses BaseMelWidget "text0"
         (some_widgets, some_wrappers)) = Ok (mkWrapper MelLabel "text0") /\
  fst (FromStr (api plain_host) all_subclasses BaseMelWidget "button0"
         (some_widgets, some_wrappers)) = Ok (mkWrapper MelButton "button0") /\
  fst (FromStr (api refusing_commands) all_subclasses BaseMelWidget "button0"
         (some_widgets, some_wrappers)) = Ok (mkWrapper BaseMelWidget "button0").
Proof. repeat split; reflexivity. Qed.

(** *** The name probe *)

Lemma append_cancel_l (c a b : string) : (c ++ a = c ++ b)%string -> a = b.
Proof. induction c as [|x c IH]; cbn; [auto|]. intros [= E]. auto. Qed.

Lemma numbered_inj c n m : numbered c n = numbered c m -> n = m.
Proof.
  unfold numbered. intros E. apply append_cancel_l in E.
  apply (f_equal NilEmpty.uint_of_string) in E. rewrite !NilEmpty.usu in E.
  injection E as E. apply Unsigned.to_uint_inj. exact E.
Qed.

Lemma cmd_exists_name hm c name h :
  cmd_exists hm c name h = true -> In name (map fst h).
Proof.
  unfold cmd_exists. intros E. apply existsb_exists in E as (w & Hw & Hb).
  apply andb_prop in Hb as [Hn _]. apply String.eqb_eq in Hn. subst.
  apply in_map. exact Hw.
Qed.

Lemma probe_spec hm c h fuel n :
  let r := probe hm c h fuel n in
  (n <= r <= n + fuel)%nat /\
  (forall k, (n <= k < r)%nat -> cmd_exists hm c (numbered c k) h = true) /\
  ((r < n + fuel)%nat -> cmd_exists hm c (numbered c r) h = false).
Proof.
  revert n. induction fuel as [|fuel IH]; intros n; cbn.
  - split; [lia|]. split; [intros k Hk; lia|intros Hlt; lia].
  - destruct (cmd_exists hm c (numbered c n) h) eqn:E.
    + destruct (IH (S n)) as (Hr & Hall & Hend). split; [lia|]. split.
      * intros k Hk. destruct (Nat.eq_dec k n) as [->|Hne]; [exact E|].
        apply Hall. lia.
      * intros Hlt. apply Hend. lia.
    + split; [lia|]. split; [intros k Hk; lia|intros _; exact E].
Qed.

(** the loop of lines 84-86 ends, with a name the host does not have *)
Lemma uniqueName_is_free hm c h :
  cmd_exists hm c (uniqueName hm c h) h = false.
Proof.
  unfold uniqueName.
  destruct (probe_spec hm c h (length h) 0) as (Hr & Hall & Hend). cbn zeta in *.
  set (r := probe hm c h (length h) 0) in *.
  destruct (Nat.lt_ge_cases r (length h)) as [Hlt|Hge]; [apply Hend; lia|].
  destruct (cmd_exists hm c (numbered c r) h) eqn:E; [exfalso|reflexivity].
  assert (Hincl : incl (map (numbered c) (seq 0 (S r))) (map fst h)).
  { intros name Hin. apply in_map_iff in Hin as (k & <- & Hk). apply in_seq in Hk.
    apply (cmd_exists_name hm c). destruct (Nat.eq_dec k r) as [->|Hne]; [exact E|].
    apply Hall. lia. }
  assert (Hnd : List.NoDup (map (numbered c) (seq 0 (S r)))).
  { apply ScrollListFacts.NoDup_map_injective; [|apply seq_NoDup].
    intros a b. apply numbered_inj. }
  pose proof (NoDup_incl_length Hnd Hincl) as Hlen.
  rewrite !length_map, length_seq in Hlen. lia.
Qed.

(** *** [__new__] *)



End ConstructFacts.

(** ** Clearing *)

Module ClearFacts.
Import Classes Registry Examples.

(** *** Paths *)

Lemma path_eqb_eq p q : MelLayout.path_eqb p q = true <-> p = q.
Proof.
  revert q. induction p as [|a p IH]; intros [|b q]; cbn; try (split; congruence).
  rewrite andb_true_iff, String.eqb_eq, IH. split; [intros [-> ->]|intros [= -> ->]]; auto.
Qed.

Lemma path_eqb_refl p : MelLayout.path_eqb p p = true.
Proof. apply path_eqb_eq. reflexivity. Qed.

Lemma is_prefix_refl p : MelLayout.is_prefix p p = true.
Proof. induction p as [|a p IH]; cbn; [reflexivity|]. rewrite String.eqb_refl. exact IH. Qed.

Lemma is_prefix_app p q : MelLayout.is_prefix p q = true -> exists r, q = p ++ r.
Proof.
  revert q. induction p as [|a p IH]; intros q; cbn.
  - intros _. exists q. reflexivity.
  - destruct q as [|b q]; [discriminate|]. intros E.
    apply andb_prop in E as [Eab E]. apply String.eqb_eq in Eab. subst.
    destruct (IH q E) as (r & ->). exists r. reflexivity.
Qed.

(** a child is not above another child of the same layout *)
Lemma child_not_above_sibling self c1 c2 :
  MelLayout.is_child self c1 = true -> MelLayout.is_child self c2 = true ->
  MelLayout.is_prefix c1 c2 = true -> c1 = c2.
Proof.
  unfold MelLayout.is_child. intros H1 H2 Hp.
  apply andb_prop in H1 as [_ L1]. apply andb_prop in H2 as [_ L2].
  apply Nat.eqb_eq in L1, L2.
  apply is_prefix_app in Hp as (r & ->).
  rewrite length_app in L2. destruct r; [rewrite app_nil_r; reflexivity|cbn in L2; lia].
Qed.


Section WithCmds.
Variable getattr_cmd : string -> option Cmd.
Variable GetSubclasses : list WidgetClass.
Implicit Types (h : MelLayout.UI) (st : Store MelLayout.Path) (cs : list MelLayout.Path).

Local Abbreviation from_strs := (MelLayout.from_strs getattr_cmd GetSubclasses).
Local Abbreviation getChildren := (MelLayout.getChildren getattr_cmd GetSubclasses).
Local Abbreviation clear := (MelLayout.clear getattr_cmd GetSubclasses).
Local Abbreviation children_of := MelLayout.children_of.
Local Abbreviation without := MelLayout.without.

Lemma known_find n h :
  MelLayout.known n h = true ->
  exists w, List.find (fun w => MelLayout.path_eqb (fst w) n) h = Some w.
Proof.
  unfold MelLayout.known. intros E. apply existsb_exists in E as (w & Hw & Hb).
  destruct (List.find _ h) as [w'|] eqn:F; [eexists; reflexivity|].
  pose proof (find_none _ _ F w Hw) as Hn. cbn in Hn. congruence.
Qed.

Lemma known_in n h : In n (map fst h) -> MelLayout.known n h = true.
Proof.
  intros Hin. apply in_map_iff in Hin as (w & <- & Hw).
  unfold MelLayout.known. apply existsb_exists. exists w. split; [exact Hw|].
  apply path_eqb_refl.
Qed.

Lemma from_strs_ok cs h st :
  Forall (fun c => MelLayout.known c h = true) cs ->
  exists ws st', from_strs cs (h, st) = (Ok ws, (h, st')) /\ map w_name ws = cs.
Proof.
  intros Hall. revert st. induction Hall as [|c cs Hc _ IH]; intros st.
  - exists [], st. split; reflexivity.
  - cbn [MelLayout.from_strs]. unfold bind at 1.
    unfold FromStr at 1. cbn [objectTypeUI MelLayout.api].
    unfold MelLayout.host_objectTypeUI at 1.
    destruct (known_find c h Hc) as (w & ->).
    destruct (IH (registry_append BaseMelWidget
                    (mkWrapper (pick_class BaseMelWidget
                       (candidates GetSubclasses
                          (ui_cmd (MelLayout.api getattr_cmd) (snd w)))) c) st))
      as (ws & st' & Hrun & Hnames).
    unfold bind at 1. rewrite Hrun. unfold bind, ret.
    eexists _, st'. split; [reflexivity|]. cbn. rewrite Hnames. reflexivity.
Qed.

Lemma without_nil h : MelLayout.without [] h = h.
Proof.
  unfold MelLayout.without. induction h as [|w h IH]; cbn; [reflexivity|].
  f_equal. exact IH.
Qed.

Lemma without_cons c cs h :
  MelLayout.without (c :: cs) h
  = MelLayout.without cs (List.filter (fun w => negb (MelLayout.is_prefix c (fst w))) h).
Proof.
  unfold MelLayout.without. induction h as [|w h IH]; [reflexivity|].
  cbn [List.filter existsb].
  destruct (MelLayout.is_prefix c (fst w)); cbn [orb negb List.filter].
  - exact IH.
  - destruct (existsb (fun c0 => MelLayout.is_prefix c0 (fst w)) cs); cbn [negb].
    + exact IH.
    + f_equal. exact IH.
Qed.

Lemma delete_loop self (ws : list (Wrapper MelLayout.Path)) h st :
  List.NoDup (map w_name ws) ->
  Forall (fun c => MelLayout.is_child self c = true /\ MelLayout.known c h = true)
         (map w_name ws) ->
  for_each ws (fun childUI => MelLayout.on_host (MelLayout.deleteUI (w_name childUI))) (h, st)
  = (Ok tt, (without (map w_name ws) h, st)).
Proof.
  revert h. induction ws as [|w ws IH]; intros h Hnd Hall; cbn [for_each map].
  - rewrite without_nil. reflexivity.
  - cbn [map] in Hnd, Hall.
    inversion Hnd as [|? ? Hnotin Hnd']; subst.
    inversion Hall as [|? ? [Hchild Hknown] Hall']; subst.
    unfold bind at 1. unfold MelLayout.on_host at 1, MelLayout.deleteUI at 1.
    rewrite Hknown. rewrite IH.
    + rewrite without_cons. reflexivity.
    + exact Hnd'.
    + rewrite List.Forall_forall in *. intros c Hc. destruct (Hall' c Hc) as [Hcc Hck].
      split; [exact Hcc|].
      unfold MelLayout.known in *. apply existsb_exists in Hck as (x & Hx & Hxe).
      apply existsb_exists. exists x. split; [|exact Hxe].
      apply filter_In. split; [exact Hx|].
      apply path_eqb_eq in Hxe. subst c.
      destruct (MelLayout.is_prefix (w_name w) (fst x)) eqn:Hp; [|reflexivity].
      exfalso. apply Hnotin.
      rewrite <- (child_not_above_sibling self (w_name w) (fst x) Hchild Hcc Hp) in Hc.
      exact Hc.
Qed.

Lemma NoDup_map_filter {A B} (f : A -> B) (p : A -> bool) (l : list A) :
  List.NoDup (map f l) -> List.NoDup (map f (List.filter p l)).
Proof.
  induction l as [|x l IH]; cbn; intros Hnd; [constructor|].
  inversion Hnd as [|? ? Hnotin Hnd']; subst.
  destruct (p x); cbn; [constructor|]; auto.
  intros Hin. apply Hnotin. apply in_map_iff in Hin as (y & Hy & Hin).
  apply filter_In in Hin as [Hin _]. apply in_map_iff. eauto.
Qed.

Lemma no_children_left self h :
  children_of self (without (children_of self h) h) = [].
Proof.
  unfold MelLayout.children_of at 1.
  destruct (List.filter _ (without _ h)) as [|w ws] eqn:E; [reflexivity|exfalso].
  assert (Hw : In w (List.filter (fun w => MelLayout.is_child self (fst w))
                       (without (children_of self h) h))) by (rewrite E; left; reflexivity).
  apply filter_In in Hw as [Hw Hc]. unfold MelLayout.without in Hw.
  apply filter_In in Hw as [Hw Hb]. apply negb_true_iff in Hb.
  assert (existsb (fun c => MelLayout.is_prefix c (fst w)) (children_of self h) = true);
    [|congruence].
  apply existsb_exists. exists (fst w). split; [|apply is_prefix_refl].
  unfold MelLayout.children_of. apply in_map. apply filter_In. auto.
Qed.

Lemma getChildren_eq self h st :
  getChildren self (h, st) = from_strs (children_of self h) (h, st).
Proof.
  unfold MelLayout.getChildren, bind, MelLayout.on_host, MelLayout.childArray.
  fold (MelLayout.children_of self h).
  destruct (children_of self h); reflexivity.
Qed.

(** [MelLayout.clear]: with host names all different, the call returns and
    the host has no child of the layout afterwards. *)
Lemma MelLayout_clear_empties self h st :
  List.NoDup (map fst h) ->
  exists st',
    clear self (h, st) = (Ok tt, (without (children_of self h) h, st')) /\
    forall st0, exists st1,
      getChildren self (without (children_of self h) h, st0)
      = (Ok [], (without (children_of self h) h, st1)).
Proof.
  intros Hnd.
  assert (Hall : Forall (fun c => MelLayout.is_child self c = true /\
                                  MelLayout.known c h = true) (children_of self h)).
  { apply List.Forall_forall. intros c Hc. unfold MelLayout.children_of in Hc.
    apply in_map_iff in Hc as (w & <- & Hw). apply filter_In in Hw as [Hw Hcw].
    split; [exact Hcw|]. apply known_in, in_map, Hw. }
  destruct (from_strs_ok (children_of self h) h st) as (ws & st' & Hrun & Hnames).
  { eapply List.Forall_impl; [|exact Hall]. cbn. tauto. }
  exists st'. split.
  - unfold MelLayout.clear. unfold bind at 1. rewrite getChildren_eq, Hrun.
    rewrite delete_loop with (self := self); rewrite Hnames.
    + reflexivity.
    + apply NoDup_map_filter, Hnd.
    + exact Hall.
  - intros st0. exists st0. rewrite getChildren_eq, no_children_left. reflexivity.
Qed.

End WithCmds.

(** C9: [MelLayout.clear] returns and, host names being all different,
    leaves the host without the children of the layout and what was below
    them: the host lists no child of the layout, no widget that was a child
    is there, and [getChildren] returns the empty list.  After
    [MelTextScrollList.clear] the host list has no items and [len] is 0;
    after [MelObjectScrollList.clear] the host list has no items, [_items]
    is empty and [len] is 0. *)
Theorem clear_empties_container :
  (forall getattr_cmd subs self h st,
     List.NoDup (map fst h) ->
     exists h' st' st'',
       MelLayout.clear getattr_cmd subs self (h, st) = (Ok tt, (h', st')) /\
       h' = MelLayout.without (MelLayout.children_of self h) h /\
       MelLayout.children_of self h' = [] /\
       (forall w, In w h -> MelLayout.is_child self (fst w) = true -> ~ In w h') /\
       MelLayout.getChildren getattr_cmd subs self (h', st') = (Ok [], (h', st''))) /\
  (forall h,
     fst (MelTextScrollList.clear h) = Ok tt /\
     Host.tsl_items (snd (MelTextScrollList.clear h)) = [] /\
     fst (MelTextScrollList.len (snd (MelTextScrollList.clear h))) = Ok 0) /\
  (forall Item (o : MelObjectScrollList.Obj Item),
     fst (MelObjectScrollList.clear o) = Ok tt /\
     MelObjectScrollList._items (snd (MelObjectScrollList.clear o)) = [] /\
     Host.tsl_items (MelObjectScrollList.widget (snd (MelObjectScrollList.clear o))) = [] /\
     fst (MelObjectScrollList.len (snd (MelObjectScrollList.clear o))) = Ok 0).
Proof.
  split; [|split].
  - intros getattr_cmd subs self h st Hnd.
    destruct (MelLayout_clear_empties getattr_cmd subs self h st Hnd) as (st' & Hrun & Hafter).
    destruct (Hafter st') as (st'' & Hget).
    eexists _, st', st''. split; [exact Hrun|]. split; [reflexivity|].
    split; [apply no_children_left|]. split; [|exact Hget].
    intros w Hw Hchild Hin.
    assert (Hc : In (fst w) (MelLayout.children_of self
                               (MelLayout.without (MelLayout.children_of self h) h))).
    { unfold MelLayout.children_of at 1. apply in_map, filter_In. auto. }
    rewrite no_children_left in Hc. destruct Hc.
  - intros h. repeat split; reflexivity.
  - intros Item o. repeat split; reflexivity.
Qed.

Lemma clear_empties_container_witness :
  exists h' st',
    MelLayout.clear (fun s => Some s) all_subclasses ["win"; "col"]%string
      (window_with_column, Registry.initial_store)
    = (Ok tt, (h', st')) /\
    h' = [(["win"], "window"); (["win"; "col"], "columnLayout")]%string /\
    MelLayout.children_of ["win"; "col"]%string h' = [].
Proof.
  destruct (proj1 clear_empties_container (fun s => Some s) all_subclasses
              ["win"; "col"]%string window_with_column Registry.initial_store)
    as (h' & st' & st'' & Hrun & Hh & Hnone & _).
  - unfold window_with_column. cbn [map fst].
    repeat (constructor; [cbn; intuition congruence|]). constructor.
  - exists h', st'. split; [exact Hrun|]. split; [rewrite Hh; reflexivity|exact Hnone].
Defined.

End ClearFacts.

(** ** The registry on a concrete host *)

Module RegistryExamples.
Import Classes Registry Construct Examples.


(** in that run the wrapper of the deleted check box goes and the three
    others stay, the one registered during the iteration included *)
Lemma registry_after_registering_while_iterating :
  fst iterating_state
  = Running 0 4 [mkWrapper MelButton "button0"; mkWrapper MelLabel "text0";
                 mkWrapper MelButton "button1"]%string /\
  registry (snd iterating_state)
  = [mkWrapper MelButton "button0"; mkWrapper MelCheckBox "checkBox0";
     mkWrapper MelLabel "text0"; mkWrapper MelButton "button1"]%string /\
  registry (snd (next (api plain_host) BaseMelWidget two_buttons
                   (fst iterating_state) (snd iterating_state)))
  = [mkWrapper MelButton "button0"; mkWrapper MelLabel "text0";
     mkWrapper MelButton "button1"]%string.
Proof. repeat split; reflexivity. Qed.


(** A wrapper registered while one iteration runs is not lost: it is
    appended to the list object the loop walks, so that the loop comes to
    it. *)
Lemma registered_during_iteration_is_visited :
  fst during_2 = Ok (mkWrapper MelButton "button1"%string) /\
  fst (fst during_3)
  = [mkWrapper MelLabel "text0"; mkWrapper MelButton "button1"]%string /\
  snd (fst during_3) = Finished /\
  registry (snd during_3)
  = [mkWrapper MelButton "button0"; mkWrapper MelLabel "text0";
     mkWrapper MelButton "button1"]%string.
Proof. repeat split; reflexivity. Qed.

(** On the base class the stale wrapper goes and the live ones stay.  On a
    subclass line 235 gives the subclass a list of its own, holding its live
    instances only; the list of line 52 is left as it was, stale entry
    included. *)
Lemma IterInstances_on_base_and_on_subclass :
  registry (snd (IterInstances (api plain_host) BaseMelWidget some_widgets some_wrappers))
  = [mkWrapper MelButton "button0"; mkWrapper MelLabel "text0"]%string /\
  registry (snd (IterInstances (api plain_host) MelButton some_widgets some_wrappers))
  = [mkWrapper MelButton "button0"; mkWrapper MelCheckBox "checkBox0";
     mkWrapper MelLabel "text0"]%string /\
  instance_list (snd (IterInstances (api plain_host) MelButton some_widgets some_wrappers))
    MelButton
  = [mkWrapper MelButton "button0"]%string.
Proof. repeat split; vm_compute; reflexivity. Qed.

(** After an iteration on a subclass the subclass registers in its own
    list: a button made afterwards is not in the list of line 52. *)
Lemma subclass_iteration_splits_registry :
  let st1 := snd (IterInstances (api plain_host) MelButton some_widgets some_wrappers) in
  let r := new plain_host MelButton None ∅ (some_widgets, st1) in
  fst r = Ok (mkWrapper MelButton "button1"%string) /\
  instance_list (snd (snd r)) MelButton
  = [mkWrapper MelButton "button0"; mkWrapper MelButton "button1"]%string /\
  registry (snd (snd r)) = registry some_wrappers.
Proof. repeat split; reflexivity. Qed.

End RegistryExamples.

(** ** More on the text scroll list *)

Module ScrollListMore.
Import Host MelTextScrollList Examples HostInv PyListFacts ScrollListFacts.

(** X4: a selection that already touches the boundary is left alone: with the
    first item selected [moveSelectedItemsUp] returns without a host edit,
    and so does [moveSelectedItemsDown] with the last item selected,
    whatever [count] is. *)
Theorem move_at_boundary_is_noop runCB count h :
  sel_in_list h ->
  (forall rest, selIdxs h = 0 :: rest ->
     moveSelectedItemsUp runCB count h = (Ok tt, h)) /\
  (forall front, selIdxs h = front ++ [Z.of_nat (length (tsl_items h)) - 1] ->
     moveSelectedItemsDown runCB count h = (Ok tt, h)).
Proof.
  intros Hs. split.
  - intros rest E. exact (Up_with_selection runCB count h 0 rest Hs E).
  - intros front E.
    apply (moveSelectedItemsDown_at_bottom runCB count h front _ Hs E). lia.
Qed.

Lemma move_at_boundary_is_noop_witness :
  moveSelectedItemsUp (ret tt) 3 abc_ab_selected = (Ok tt, abc_ab_selected) /\
  moveSelectedItemsDown (ret tt) 3 abc_bc_selected = (Ok tt, abc_bc_selected).
Proof.
  split.
  - refine (proj1 (move_at_boundary_is_noop (ret tt) 3 abc_ab_selected _) [1] eq_refl).
    repeat constructor; cbn; lia.
  - refine (proj2 (move_at_boundary_is_noop (ret tt) 3 abc_bc_selected _) [1] eq_refl).
    repeat constructor; cbn; lia.
Defined.

(** X1: [moveSelectedItemsDown] with a [count] that is not negative is
    right for every selection: when the last selected item is not yet at
    the bottom, the call returns, the list holds
    the same items, every selected item is [c] places further down ([c] is
    [count] cut to the room below the last selected item), the selection has
    moved with the items, and the items outside the stretches the moves
    sweep are where they were. *)
Theorem moveSelectedItemsDown_shifts_selection runCB count h front last :
  sel_well_formed h -> selIdxs h = front ++ [last] -> 0 <= count ->
  last < Z.of_nat (length (tsl_items h)) - 1 ->
  let c := Z.min count (Z.of_nat (length (tsl_items h)) - 1 - last) in
  exists l',
    moveSelectedItemsDown runCB count h
    = (Ok tt, mkTSL l' (map (fun idx => idx + c + 1) (selIdxs h)) (tsl_ams h)) /\
    Permutation l' (tsl_items h) /\
    Forall (fun idx => nth_error l' (Z.to_nat (idx + c))
                       = nth_error (tsl_items h) (Z.to_nat idx)) (selIdxs h) /\
    forall p : nat,
      Forall (fun idx => Z.of_nat p < idx \/ idx + c < Z.of_nat p) (selIdxs h) ->
      nth_error l' p = nth_error (tsl_items h) p.
Proof.
  intros Hwf E Hcount Hlast c.
  destruct (moveSelectedItemsDown_moves_block runCB count h front last Hwf E Hcount Hlast)
    as (l' & Hrun & _ & Hperm & _ & Hmoved & Hrest).
  exists l'. split; [exact Hrun|]. split; [exact Hperm|]. split; [exact Hmoved|exact Hrest].
Qed.

Lemma moveSelectedItemsDown_shifts_selection_witness :
  exists l',
    moveSelectedItemsDown (ret tt) 5 abc_ab_selected
    = (Ok tt, mkTSL l' [2; 3] true) /\
    nth_error l' 1 = Some "a"%string /\ nth_error l' 2 = Some "b"%string.
Proof.
  destruct (moveSelectedItemsDown_shifts_selection (ret tt) 5 abc_ab_selected [0] 1)
    as (l' & Hrun & _ & Hmoved & _).
  - split; [repeat constructor; cbn; lia|]. split.
    + repeat constructor; cbn; intuition lia.
    + discriminate.
  - reflexivity.
  - lia.
  - cbn. lia.
  - exists l'. split; [exact Hrun|].
    inversion Hmoved as [|? ? H0 Hm']; subst. inversion Hm' as [|? ? H1 _]; subst.
    split; [exact H0|exact H1].
Defined.

Lemma selectByIdx_in_range runCB k h :
  0 <= k < Z.of_nat (length (tsl_items h)) ->
  selectByIdx runCB k false h
  = (Ok tt, mkTSL (tsl_items h)
              (if tsl_ams h
               then (if mem (k + 1) (tsl_sel h) then tsl_sel h else tsl_sel h ++ [k + 1])
               else [k + 1])
              (tsl_ams h)).
Proof.
  intros Hk. unfold selectByIdx, bind, selectIndexedItem, in_range.
  replace (1 <=? k + 1) with true by (symmetry; apply Z.leb_le; lia).
  replace (k + 1 <=? Z.of_nat (length (tsl_items h))) with true
    by (symmetry; apply Z.leb_le; lia).
  reflexivity.
Qed.

Lemma attemptToSelect_eq runCB idx h :
  let n := Z.of_nat (length (tsl_items h)) in
  attemptToSelect runCB idx false h
  = if n =? 0 then (Ok tt, h)
    else selectByIdx runCB (Z.max 0 (Z.min idx (n - 1))) false h.
Proof.
  cbn zeta. unfold attemptToSelect, len, numberOfItems.
  cbv beta delta [bind ret]. cbv beta iota.
  destruct (Z.of_nat (length (tsl_items h)) =? 0) eqn:En; [reflexivity|].
  apply Z.eqb_neq in En.
  destruct (idx >=? Z.of_nat (length (tsl_items h))) eqn:E1; cbv beta iota.
  - apply Z.geb_le in E1.
    replace (Z.of_nat (length (tsl_items h)) - 1 <? 0) with false
      by (symmetry; apply Z.ltb_ge; lia).
    f_equal. lia.
  - rewrite Z.geb_leb in E1. apply Z.leb_gt in E1.
    destruct (idx <? 0) eqn:E2; [apply Z.ltb_lt in E2|apply Z.ltb_ge in E2];
      f_equal; lia.
Qed.

(** X5: [attemptToSelect] never fails: on an empty list it does nothing; on
    any other list it selects the index cut to [0 .. len-1], and the items
    are untouched. *)
Theorem attemptToSelect_clamps runCB idx h :
  let r := attemptToSelect runCB idx false h in
  let n := Z.of_nat (length (tsl_items h)) in
  let k := Z.max 0 (Z.min idx (n - 1)) in
  fst r = Ok tt /\
  tsl_items (snd r) = tsl_items h /\
  (n = 0 -> snd r = h) /\
  (0 < n -> In (k + 1) (tsl_sel (snd r)) /\
            (tsl_ams h = false -> tsl_sel (snd r) = [k + 1])).
Proof.
  cbn zeta. rewrite attemptToSelect_eq. cbn zeta.
  set (n := Z.of_nat (length (tsl_items h))).
  destruct (n =? 0) eqn:En.
  - apply Z.eqb_eq in En. split; [reflexivity|]. split; [reflexivity|].
    split; [reflexivity|]. intros Hn. lia.
  - apply Z.eqb_neq in En. assert (Hn : 0 < n) by (unfold n in *; lia).
    rewrite selectByIdx_in_range by (fold n; lia). cbn [fst snd tsl_items tsl_sel].
    split; [reflexivity|]. split; [reflexivity|]. split; [lia|]. intros _. split.
    + destruct (tsl_ams h); [|left; reflexivity].
      destruct (mem _ (tsl_sel h)) eqn:E.
      * unfold mem in E. apply existsb_exists in E as (j & Hj & Hij).
        apply Z.eqb_eq in Hij. subst. exact Hj.
      * apply in_or_app. right. left. reflexivity.
    + intros ->. reflexivity.
Qed.

Lemma attemptToSelect_clamps_witness :
  In 3 (tsl_sel (snd (attemptToSelect (ret tt) 10 false abc_ab_selected))).
Proof.
  refine (proj1 (proj2 (proj2 (proj2
            (attemptToSelect_clamps (ret tt) 10 abc_ab_selected))) _)).
  cbn. lia.
Defined.

(** X6: [setItems] replaces the items and clears the selection; afterwards
    [getItems] hands back the host's answer, which is [None] for an empty
    list, so that subscripting the wrapper of an empty list is a type error,
    not an index error. *)
Theorem setItems_then_read (l : list string) h :
  let h' := snd (setItems (Some l) h) in
  fst (setItems (Some l) h) = Ok tt /\
  fst (getItems h') = Ok (host_array l) /\
  fst (len h') = Ok (Z.of_nat (length l)) /\
  fst (getSelectedIdxs h') = Ok [] /\
  (forall idx x, 0 <= idx -> nth_error l (Z.to_nat idx) = Some x ->
     fst (getitem idx h') = Ok x) /\
  (l = [] -> forall idx, fst (getitem idx h') = Raise TypeError).
Proof.
  cbn zeta. rewrite setItems_eq. cbn [fst snd].
  split; [reflexivity|]. split; [reflexivity|]. split; [reflexivity|].
  split; [reflexivity|]. split.
  - intros idx x Hidx Hx. unfold getitem, bind, getItems, allItems. cbn [tsl_items].
    destruct l as [|y l]; [destruct (Z.to_nat idx); discriminate|].
    cbn [host_array lift subscript fst]. apply (getitem_nonneg (y :: l) idx x Hidx Hx).
  - intros -> idx. reflexivity.
Qed.

Lemma setItems_then_read_witness :
  fst (getitem 1 (snd (setItems (Some ["a"; "b"]%string) abc_bc_selected))) = Ok "b"%string /\
  fst (getitem 0 (snd (setItems (Some []) abc_bc_selected))) = Raise TypeError.
Proof.
  split.
  - exact (proj1 (proj2 (proj2 (proj2 (proj2
             (setItems_then_read ["a"; "b"]%string abc_bc_selected)))))
             1 "b"%string ltac:(lia) eq_refl).
  - exact (proj2 (proj2 (proj2 (proj2 (proj2
             (setItems_then_read [] abc_bc_selected))))) eq_refl 0).
Defined.

(** X7: [removeSelectedItems] with nothing selected does nothing; with one
    item selected it removes that item and no other. *)
Theorem removeSelectedItems_single h :
  (tsl_sel h = [] -> removeSelectedItems h = (Ok tt, h)) /\
  (forall i, tsl_sel h = [i] -> 1 <= i <= Z.of_nat (length (tsl_items h)) ->
     fst (removeSelectedItems h) = Ok tt /\
     tsl_items (snd (removeSelectedItems h))
     = PyList.remove_at (Z.to_nat (i - 1)) (tsl_items h)).
Proof.
  unfold removeSelectedItems. cbv beta delta [bind]. rewrite getSelectedIdxs_eq.
  cbv beta iota. split.
  - intros ->. reflexivity.
  - intros i -> Hi. cbn [map for_each]. unfold bind, removeByIdx, removeIndexedItem, in_range.
    replace (i - 1 + 1) with i by lia.
    replace (1 <=? i) with true by (symmetry; apply Z.leb_le; lia).
    replace (i <=? Z.of_nat (length (tsl_items h))) with true
      by (symmetry; apply Z.leb_le; lia).
    cbn. split; reflexivity.
Qed.

Lemma removeSelectedItems_single_witness :
  removeSelectedItems abc_none_selected = (Ok tt, abc_none_selected) /\
  tsl_items (snd (removeSelectedItems (mkTSL ["a"; "b"; "c"]%string [2] false)))
  = ["a"; "c"]%string.
Proof.
  split.
  - exact (proj1 (removeSelectedItems_single abc_none_selected) eq_refl).
  - refine (proj2 (proj2 (removeSelectedItems_single
                            (mkTSL ["a"; "b"; "c"]%string [2] false)) 2 eq_refl _)).
    cbn. lia.
Defined.

End ScrollListMore.

(** ** More on the object scroll list *)

Module ObjectListMore.
Import Host Examples HostInv PyListFacts MelObjectScrollList ObjectListFacts.

Section Methods.
Context {Item : Type}.
Variable cls : Class Item.
Implicit Types (o : Obj Item) (items : list Item).

Local Abbreviation shown := (MelObjectScrollList.shown cls).

(** a loop of host commands on the widget *)
Lemma for_each_on_widget {A} (f : A -> M TextScrollList unit) (l : list A) o :
  for_each l (fun x => on_widget (f x)) o
  = (fst (for_each l f (widget o)), mkObj (snd (for_each l f (widget o))) (_items o)).
Proof.
  revert o. induction l as [|x l IH]; intros o; cbn [for_each].
  - destruct o; reflexivity.
  - unfold bind at 1 2 3. unfold on_widget at 1.
    destruct (f x (widget o)) as [[[]|e] h1]; cbn [fst snd].
    + rewrite IH. reflexivity.
    + reflexivity.
Qed.

(** X8: [update] rebuilds the display from [_items], whatever the host list
    showed before, and leaves [_items] as it was.  When [str] returns for
    every object the host afterwards shows [itemAsStr] of each object in
    order, and [update( False )] returns.  When [str] of an object raises,
    [update] raises that exception and leaves a partial display: the strings
    of the objects before that one, and nothing selected. *)
Theorem update_restores_display b o :
  _items (snd (update cls b o)) = _items o /\
  (forall ss, shown (_items o) = Ok ss ->
     tsl_items (widget (snd (update cls b o))) = ss /\
     fst (update cls false o) = Ok tt) /\
  (forall pre bad post ss e,
     _items o = pre ++ bad :: post -> shown pre = Ok ss ->
     itemAsStr cls bad = Raise e ->
     update cls b o = (Raise e, mkObj (mkTSL ss [] (tsl_ams (widget o))) (_items o))).
Proof.
  assert (Hok : forall ss, shown (_items o) = Ok ss ->
            _items (snd (update cls b o)) = _items o /\
            tsl_items (widget (snd (update cls b o))) = ss /\
            fst (update cls false o) = Ok tt).
  { intros ss Hs. rewrite !(update_eq cls _ o ss Hs). destruct b.
    - unfold selectByIdx.
      rewrite (for_each_on_widget
                 (fun idx => MelTextScrollList.selectByIdx (ret tt) idx false)).
      cbn [fst snd _items widget].
      destruct (ScrollListFacts.select_loop_outcome (ret tt) (fun idx => idx)
                  (map (fun idx => idx - 1) (tsl_sel (widget o)))
                  (mkTSL ss [] (tsl_ams (widget o)))) as (_ & Hitems & _).
      cbn zeta in Hitems. split; [reflexivity|]. split; [exact Hitems|reflexivity].
    - cbn. auto. }
  split; [|split].
  - destruct (shown (_items o)) as [ss|e] eqn:Hs.
    + apply (Hok ss eq_refl).
    + destruct (shown_raise_inv cls _ e Hs) as (pre & bad & post & ss & Hi & Hpre & Hbad).
      rewrite (update_raises cls b o pre bad post ss e Hi Hpre Hbad). reflexivity.
  - intros ss Hs. destruct (Hok ss Hs) as (_ & H2 & H3). auto.
  - intros pre bad post ss e. apply update_raises.
Qed.

(** X9: [update( True )] keeps the selection: when [str] returns for every
    object and the selected positions are positions of [_items], the call
    returns and the same positions are selected afterwards. *)
Theorem update_keeps_selection o ss :
  shown (_items o) = Ok ss ->
  Forall (fun i => 1 <= i <= Z.of_nat (length (_items o))) (tsl_sel (widget o)) ->
  List.NoDup (tsl_sel (widget o)) ->
  (tsl_ams (widget o) = false -> (length (tsl_sel (widget o)) <= 1)%nat) ->
  update cls true o
  = (Ok tt, mkObj (mkTSL ss (tsl_sel (widget o)) (tsl_ams (widget o))) (_items o)).
Proof.
  intros Hs Hr Hnd Hone. rewrite (update_eq cls true o ss Hs). unfold selectByIdx.
  rewrite (for_each_on_widget (fun idx => MelTextScrollList.selectByIdx (ret tt) idx false)).
  cbn [widget _items].
  pose proof (shown_length cls _ _ Hs) as Hlen.
  assert (Hmap : map (fun idx => idx + 1) (map (fun idx => idx - 1) (tsl_sel (widget o)))
                 = tsl_sel (widget o)).
  { rewrite map_map. rewrite <- (map_id (tsl_sel (widget o))) at 2.
    apply map_ext. intros; lia. }
  destruct (tsl_ams (widget o)) eqn:Hams.
  - rewrite (ScrollListFacts.select_loop_multi (ret tt) (fun idx => idx)).
    + cbn [fst snd app]. rewrite Hmap. reflexivity.
    + apply Forall_map. eapply List.Forall_impl; [|exact Hr]. cbn.
      rewrite Hlen. intros; lia.
    + cbn [app]. rewrite Hmap. exact Hnd.
  - specialize (Hone eq_refl).
    destruct (tsl_sel (widget o)) as [|i [|j sel]] eqn:E; [reflexivity| |cbn in Hone; lia].
    cbn [map]. rewrite (ScrollListFacts.select_loop_single (ret tt) (fun idx => idx)).
    + cbn [fst snd]. replace (i - 1 + 1) with i by lia. reflexivity.
    + inversion Hr as [|? ? Hi _]; subst. cbn [tsl_items]. rewrite Hlen. lia.
Qed.

(** the objects at a list of indices *)
Lemma comprehension_getitem_ok items (idxs : list Z) :
  Forall (fun i => 0 <= i < Z.of_nat (length items)) idxs ->
  exists ys, PyList.comprehension (PyList.getitem items) idxs = Ok ys /\
             map Some ys = map (fun i => nth_error items (Z.to_nat i)) idxs.
Proof.
  induction 1 as [|idx idxs Hidx _ (ys & IH & Hys)]; cbn.
  - exists []. split; reflexivity.
  - destruct (nth_error items (Z.to_nat idx)) as [x|] eqn:Hx.
    + rewrite (getitem_nonneg items idx x) by (lia || exact Hx). rewrite IH.
      exists (x :: ys). split; [reflexivity|]. cbn. rewrite Hys. reflexivity.
    + apply nth_error_None in Hx. lia.
Qed.

(** the display strings of the objects at some positions are the strings
    at those positions *)
Lemma shown_at {I} items ss (pos : I -> nat) (idxs : list I) (ys : list Item) :
  shown items = Ok ss ->
  map Some ys = map (fun i => nth_error items (pos i)) idxs ->
  shown ys = Ok (omap (fun i => nth_error ss (pos i)) idxs).
Proof.
  intros Hs. revert ys. induction idxs as [|i idxs IH]; intros [|y ys]; cbn [map];
    try discriminate.
  - reflexivity.
  - intros [= Hy Hys]. symmetry in Hy.
    destruct (shown_nth cls items ss (pos i) y Hs Hy) as (s & Hsy & Hsi).
    rewrite shown_cons, Hsy, (IH ys Hys). cbn. rewrite Hsi. reflexivity.
Qed.

(** X10: with the two sequences in lock-step, [getSelectedItems] returns the
    objects behind the selected strings: their [itemAsStr] are the strings
    the host reports as selected, in the same order. *)
Theorem getSelectedItems_are_the_shown_ones o :
  lock_step cls o -> sel_in_list (widget o) ->
  exists ys ss,
    getSelectedItems o = (Ok ys, o) /\
    fst (MelTextScrollList.getSelectedItems (widget o)) = Ok ss /\
    shown ys = Ok ss.
Proof.
  intros Hl Hs. pose proof (proj1 (lock_step_iff cls o) Hl) as Hshown.
  pose proof Hl as [Hlen _].
  destruct (comprehension_getitem_ok (_items o)
              (map (fun idx => idx - 1) (tsl_sel (widget o)))) as (ys & Hc & Hys).
  { apply Forall_map. eapply List.Forall_impl; [|exact Hs]. cbn. intros; lia. }
  exists ys. eexists. split; [|split].
  - unfold getSelectedItems. unfold bind at 1. unfold getSelectedIdxs, on_widget.
    rewrite ScrollListFacts.getSelectedIdxs_eq. unfold bind at 1. cbn [get_state _items].
    unfold lift. rewrite Hc. destruct o; reflexivity.
  - rewrite ScrollListFacts.getSelectedItems_eq. reflexivity.
  - rewrite map_map in Hys.
    exact (shown_at (_items o) _ (fun i => Z.to_nat (i - 1)) _ ys Hshown Hys).
Qed.

(** [index_of] finds the first object equal to [value] *)
Lemma index_of_first value items k :
  index_of cls value items = Some k ->
  exists x, nth_error items k = Some x /\ py_eq cls x value = true /\
    forall j y, (j < k)%nat -> nth_error items j = Some y -> py_eq cls y value = false.
Proof.
  revert k. induction items as [|z items IH]; intros k; cbn; [discriminate|].
  destruct (py_eq cls z value) eqn:Ez.
  - intros [= <-]. exists z. split; [reflexivity|]. split; [exact Ez|]. intros j y Hj. lia.
  - destruct (index_of cls value items) as [k'|]; cbn; [|discriminate].
    intros [= <-]. destruct (IH k' eq_refl) as (x & Hx & Hex & Hbefore).
    exists x. split; [exact Hx|]. split; [exact Hex|].
    intros [|j] y Hj; cbn.
    + intros [= <-]. exact Ez.
    + apply Hbefore. lia.
Qed.

(** X11: [removeByValue] of a value that is in [_items] removes its first
    occurrence, from [_items] and from the host list, and nothing else. *)
Theorem removeByValue_removes_first value o k :
  lock_step cls o ->
  index_of cls value (_items o) = Some k ->
  fst (removeByValue cls value o) = Ok tt /\
  _items (snd (removeByValue cls value o)) = PyList.remove_at k (_items o) /\
  tsl_items (widget (snd (removeByValue cls value o)))
  = PyList.remove_at k (tsl_items (widget o)) /\
  exists x, nth_error (_items o) k = Some x /\ py_eq cls x value = true /\
    forall j y, (j < k)%nat -> nth_error (_items o) j = Some y ->
                py_eq cls y value = false.
Proof.
  intros Hl Hk. destruct (index_of_first value (_items o) k Hk) as (x & Hx & Hrest).
  destruct (remove_both_keeps cls k o x Hl Hx) as [Hrun _].
  assert (E : removeByValue cls value o
              = (Ok tt, mkObj (mkTSL (PyList.remove_at k (tsl_items (widget o)))
                                 (sel_after_remove (Z.of_nat k + 1) (tsl_sel (widget o)))
                                 (tsl_ams (widget o)))
                              (PyList.remove_at k (_items o)))).
  { unfold removeByValue. unfold bind at 1. cbn [get_state]. rewrite Hk. exact Hrun. }
  rewrite E. cbn [fst snd _items widget tsl_items].
  split; [reflexivity|]. split; [reflexivity|]. split; [reflexivity|].
  exists x. split; [exact Hx|exact Hrest].
Qed.

Lemma remove_matching_no_match fuel valueStr p o :
  Forall (fun item => itemAsStr cls item <> Ok valueStr) (_items o) ->
  snd (remove_matching cls fuel valueStr p o) = o /\
  (Forall (displayable cls) (_items o) ->
   remove_matching cls fuel valueStr p o = (Ok tt, o)).
Proof.
  intros Hall. revert p. induction fuel as [|fuel IH]; intros p; [split; reflexivity|].
  rewrite remove_matching_S.
  destruct (nth_error (_items o) p) as [item|] eqn:Hitem; [|split; reflexivity].
  apply nth_error_In in Hitem.
  pose proof (proj1 (List.Forall_forall _ _) Hall item Hitem) as Hne. cbn beta in Hne.
  destruct (itemAsStr cls item) as [s|e] eqn:Hs.
  - assert (Hsv : String.eqb s valueStr = false)
      by (apply String.eqb_neq; intros ->; apply Hne; reflexivity).
    rewrite Hsv. unfold bind, ret. apply IH.
  - split; [reflexivity|]. intros Hd.
    destruct (proj1 (List.Forall_forall _ _) Hd item Hitem) as [s Hs']. congruence.
Qed.

(** X12: [removeByValue] of a value that is not in [_items] and that no
    object is displayed like changes nothing; it does not raise when [str]
    returns for the value and for the objects of [_items]. *)
Theorem removeByValue_absent value o :
  index_of cls value (_items o) = None ->
  Forall (fun item => itemAsStr cls item <> itemAsStr cls value) (_items o) ->
  snd (removeByValue cls value o) = o /\
  (displayable cls value -> Forall (displayable cls) (_items o) ->
   removeByValue cls value o = (Ok tt, o)).
Proof.
  intros Hk Hall.
  assert (E : removeByValue cls value o
              = match itemAsStr cls value with
                | Ok valueStr => remove_matching cls (length (_items o)) valueStr 0 o
                | Raise e => (Raise e, o)
                end).
  { unfold removeByValue. unfold bind at 1. cbn [get_state]. rewrite Hk.
    unfold bind at 1. unfold lift. destruct (itemAsStr cls value); reflexivity. }
  rewrite E. clear E.
  destruct (itemAsStr cls value) as [valueStr|e] eqn:Hv.
  - destruct (remove_matching_no_match (length (_items o)) valueStr 0 o Hall) as [H1 H2].
    split; [exact H1|]. intros _. exact H2.
  - split; [reflexivity|]. intros [s Hs]. congruence.
Qed.

(** X13: [selectByValue] of a value that is in [_items] selects the host
    position of its first occurrence and does not raise; without
    multi-selection that is then the whole selection. *)
Theorem selectByValue_selects_first runCB value o k :
  lock_step cls o ->
  index_of cls value (_items o) = Some k ->
  let r := selectByValue cls runCB value false o in
  fst r = Ok tt /\ _items (snd r) = _items o /\
  tsl_items (widget (snd r)) = tsl_items (widget o) /\
  In (Z.of_nat k + 1) (tsl_sel (widget (snd r))) /\
  (tsl_ams (widget o) = false -> tsl_sel (widget (snd r)) = [Z.of_nat k + 1]).
Proof.
  intros Hl Hk. destruct (index_of_first value (_items o) k Hk) as (x & Hx & _).
  assert (Hlt : (k < length (_items o))%nat) by (apply nth_error_Some; congruence).
  pose proof Hl as [Hlen _].
  assert (E : selectByValue cls runCB value false o
              = (Ok tt, mkObj (mkTSL (tsl_items (widget o))
                   (if tsl_ams (widget o)
                    then (if mem (Z.of_nat k + 1) (tsl_sel (widget o))
                          then tsl_sel (widget o)
                          else tsl_sel (widget o) ++ [Z.of_nat k + 1])
                    else [Z.of_nat k + 1])
                   (tsl_ams (widget o))) (_items o))).
  { unfold selectByValue. unfold bind at 1. cbn [get_state]. rewrite Hk.
    unfold bind at 1. unfold on_widget, selectIndexedItem, in_range.
    replace (1 <=? Z.of_nat k + 1) with true by (symmetry; apply Z.leb_le; lia).
    replace (Z.of_nat k + 1 <=? Z.of_nat (length (tsl_items (widget o)))) with true
      by (symmetry; apply Z.leb_le; lia).
    reflexivity. }
  cbn zeta. rewrite E. cbn [fst snd _items widget tsl_items tsl_sel].
  split; [reflexivity|]. split; [reflexivity|]. split; [reflexivity|]. split.
  - destruct (tsl_ams (widget o)); [|left; reflexivity].
    destruct (mem _ (tsl_sel (widget o))) eqn:Em.
    + unfold mem in Em. apply existsb_exists in Em as (j & Hj & Hij).
      apply Z.eqb_eq in Hij. subst. exact Hj.
    + apply in_or_app. right. left. reflexivity.
  - intros ->. reflexivity.
Qed.

(** the loop of [setItems] without an append callback, when every string
    is there *)
Lemma for_each_append_ok l ss o :
  shown l = Ok ss ->
  for_each l (append cls None) o
  = (Ok tt, mkObj (mkTSL (tsl_items (widget o) ++ ss)
                     (tsl_sel (widget o)) (tsl_ams (widget o)))
                  (_items o ++ l)).
Proof.
  revert ss o. induction l as [|x l IH]; intros ss o.
  - intros [= <-]. cbn. rewrite !app_nil_r. destruct o as [[] ?]; reflexivity.
  - rewrite shown_cons. destruct (itemAsStr cls x) as [s|e] eqn:Ex; [|discriminate].
    destruct (shown l) as [ss'|e] eqn:El; [|discriminate].
    intros [= <-]. cbn [for_each]. unfold bind at 1.
    rewrite (append_eq cls None x s o Ex). unfold ret at 1.
    rewrite (IH ss' _ eq_refl). cbn [widget _items tsl_items tsl_sel tsl_ams].
    rewrite <- !app_assoc. reflexivity.
Qed.

(** the same loop when a [str] raises: the object is in [_items], its
    string is not in the host list, and the objects after it are nowhere *)
Lemma for_each_append_raises pre bad post ss e o :
  shown pre = Ok ss -> itemAsStr cls bad = Raise e ->
  for_each (pre ++ bad :: post) (append cls None) o
  = (Raise e, mkObj (mkTSL (tsl_items (widget o) ++ ss)
                       (tsl_sel (widget o)) (tsl_ams (widget o)))
                    (_items o ++ pre ++ [bad])).
Proof.
  intros Hpre Hbad. revert ss o Hpre. induction pre as [|x pre IH]; intros ss o.
  - intros [= <-]. cbn [app for_each]. unfold bind at 1.
    rewrite (append_raises cls None bad e o Hbad). rewrite app_nil_r.
    destruct o as [[] ?]; reflexivity.
  - rewrite shown_cons. destruct (itemAsStr cls x) as [s|e0] eqn:Ex; [|discriminate].
    destruct (shown pre) as [ss'|e0] eqn:El; [|discriminate].
    intros [= <-]. cbn [app for_each]. unfold bind at 1.
    rewrite (append_eq cls None x s o Ex). unfold ret at 1.
    rewrite (IH ss' _ eq_refl). cbn [widget _items tsl_items tsl_sel tsl_ams].
    rewrite <- !app_assoc. reflexivity.
Qed.

(** X14: without an append callback and with [str] returning for every
    object, [setItems] returns, makes [_items] the given objects and the host
    list their display strings, with nothing selected; [getItems] then
    returns the objects and [len] their number.  When [str] of an object
    raises, [setItems] raises that exception: [_items] then holds the
    objects up to and including that one, and the host list the strings of
    those before it. *)
Theorem setItems_then_getItems items o :
  (forall ss, shown items = Ok ss ->
     let o' := snd (setItems cls None items o) in
     fst (setItems cls None items o) = Ok tt /\
     fst (getItems o') = Ok items /\
     tsl_items (widget o') = ss /\
     tsl_sel (widget o') = [] /\
     fst (len o') = Ok (Z.of_nat (length items))) /\
  (forall pre bad post ss e,
     items = pre ++ bad :: post -> shown pre = Ok ss -> itemAsStr cls bad = Raise e ->
     setItems cls None items o
     = (Raise e, mkObj (mkTSL ss [] (tsl_ams (widget o))) (pre ++ [bad]))).
Proof.
  split.
  - intros ss Hs.
    assert (E : setItems cls None items o
                = (Ok tt, mkObj (mkTSL ss [] (tsl_ams (widget o))) items)).
    { unfold setItems. unfold bind at 1. unfold clear.
      cbv beta delta [bind modify on_widget removeAll]. cbn [widget _items].
      rewrite (for_each_append_ok items ss _ Hs). reflexivity. }
    cbn zeta. rewrite E. cbn [fst snd widget _items tsl_items tsl_sel].
    repeat split. unfold len, on_widget, numberOfItems. cbn.
    rewrite (shown_length cls _ _ Hs). reflexivity.
  - intros pre bad post ss e -> Hpre Hbad.
    unfold setItems. unfold bind at 1. unfold clear.
    cbv beta delta [bind modify on_widget removeAll]. cbn [widget _items].
    rewrite (for_each_append_raises pre bad post ss e _ Hpre Hbad). reflexivity.
Qed.

End Methods.

Lemma update_restores_display_witness :
  update fragile_items true
    (mkObj (mkTSL ["stale"; "stale"; "stale"]%string [2] false)
           [Some "ns:x"; None; Some "ns:z"]%string)
  = (Raise TypeError,
     mkObj (mkTSL ["x"]%string [] false) [Some "ns:x"; None; Some "ns:z"]%string).
Proof.
  exact (proj2 (proj2 (update_restores_display fragile_items true
                         (mkObj (mkTSL ["stale"; "stale"; "stale"]%string [2] false)
                                [Some "ns:x"; None; Some "ns:z"]%string)))
           [Some "ns:x"%string] None [Some "ns:z"%string] ["x"%string] TypeError
           eq_refl eq_refl eq_refl).
Defined.

Lemma getSelectedItems_are_the_shown_ones_witness :
  exists ys ss,
    getSelectedItems (mkObj (mkTSL ["x"; "y"]%string [2] false) ["ns:x"; "ns:y"]%string)
    = (Ok ys, mkObj (mkTSL ["x"; "y"]%string [2] false) ["ns:x"; "ns:y"]%string) /\
    fst (MelTextScrollList.getSelectedItems (mkTSL ["x"; "y"]%string [2] false)) = Ok ss /\
    shown string_items ys = Ok ss.
Proof.
  apply (getSelectedItems_are_the_shown_ones string_items).
  - apply lock_step_iff. reflexivity.
  - repeat constructor; cbn; lia.
Defined.

Lemma removeByValue_removes_first_witness :
  _items (snd (removeByValue string_items "b"%string
                 (mkObj (mkTSL ["a"; "b"; "b"]%string [] false) ["a"; "b"; "b"]%string)))
  = ["a"; "b"]%string.
Proof.
  refine (proj1 (proj2 (removeByValue_removes_first string_items "b"%string
                          (mkObj (mkTSL ["a"; "b"; "b"]%string [] false)
                                 ["a"; "b"; "b"]%string) 1 _ eq_refl))).
  apply lock_step_iff. reflexivity.
Defined.

Lemma removeByValue_absent_witness :
  removeByValue string_items "zz"%string one_object = (Ok tt, one_object).
Proof.
  refine (proj2 (removeByValue_absent string_items "zz"%string one_object eq_refl _) _ _).
  - repeat constructor. cbn. discriminate.
  - eexists; reflexivity.
  - repeat constructor. eexists; reflexivity.
Defined.

Lemma selectByValue_selects_first_witness :
  tsl_sel (widget (snd (selectByValue string_items (ret tt) "ns:y"%string false
                          (mkObj (mkTSL ["x"; "y"]%string [1] false)
                                 ["ns:x"; "ns:y"]%string))))
  = [2].
Proof.
  refine (proj2 (proj2 (proj2 (proj2
            (selectByValue_selects_first string_items (ret tt) "ns:y"%string
               (mkObj (mkTSL ["x"; "y"]%string [1] false) ["ns:x"; "ns:y"]%string)
               1 _ eq_refl)))) eq_refl).
  apply lock_step_iff. reflexivity.
Defined.

Lemma update_keeps_selection_witness :
  update string_items true
    (mkObj (mkTSL ["stale"; "stale"]%string [2] false) ["ns:x"; "ns:y"]%string)
  = (Ok tt, mkObj (mkTSL ["x"; "y"]%string [2] false) ["ns:x"; "ns:y"]%string).
Proof.
  apply (update_keeps_selection string_items
           (mkObj (mkTSL ["stale"; "stale"]%string [2] false) ["ns:x"; "ns:y"]%string)
           ["x"; "y"]%string).
  - reflexivity.
  - repeat constructor; cbn; lia.
  - repeat constructor; cbn; tauto.
  - intros _. cbn. lia.
Defined.

Lemma setItems_then_getItems_witness :
  setItems fragile_items None [Some "ns:x"; None; Some "ns:z"]%string
    (mkObj (mkTSL ["old"]%string [1] false) [Some "old"%string])
  = (Raise TypeError, mkObj (mkTSL ["x"]%string [] false) [Some "ns:x"%string; None]).
Proof.
  exact (proj2 (setItems_then_getItems fragile_items
                  [Some "ns:x"; None; Some "ns:z"]%string
                  (mkObj (mkTSL ["old"]%string [1] false) [Some "old"%string]))
           [Some "ns:x"%string] None [Some "ns:z"%string] ["x"%string] TypeError
           eq_refl eq_refl eq_refl).
Defined.

End ObjectListMore.

(** ** Display strings *)

Module StrFacts.
Import Str MelObjectScrollList Examples.

Local Open Scope string_scope.
#[local] Arguments String.append : simpl nomatch.

(** [c] does not occur in [s] *)
Local Abbreviation free_of c s := (~ In c (list_ascii_of_string s)).

Lemma append_snoc cur c s : (cur ++ String c "") ++ s = cur ++ String c s.
Proof. induction cur as [|x cur IH]; cbn; [reflexivity|]. f_equal. exact IH. Qed.

Lemma append_empty_r s : s ++ "" = s.
Proof. induction s as [|x s IH]; cbn; [reflexivity|]. f_equal. exact IH. Qed.

Lemma append_assoc_str (a b c : string) : a ++ (b ++ c) = (a ++ b) ++ c.
Proof. induction a as [|x a IH]; cbn; [reflexivity|]. f_equal. exact IH. Qed.

Lemma split_from_nonempty sep cur s : split_from sep cur s <> [].
Proof.
  revert cur. induction s as [|c s IH]; intros cur; cbn; [discriminate|].
  destruct (Ascii.eqb c sep); [discriminate|apply IH].
Qed.

Lemma last_cons_nonempty (x : string) l d : l <> [] -> List.last (x :: l) d = List.last l d.
Proof. destruct l; [congruence|reflexivity]. Qed.

(** a string without the separator is one piece *)
Lemma split_from_free sep cur s :
  free_of sep s -> split_from sep cur s = [cur ++ s].
Proof.
  revert cur. induction s as [|c s IH]; intros cur Hfree; cbn.
  - rewrite append_empty_r. reflexivity.
  - cbn in Hfree. destruct (Ascii.eqb c sep) eqn:E.
    + apply Ascii.eqb_eq in E. exfalso. apply Hfree. left. exact E.
    + rewrite IH by tauto. rewrite append_snoc. reflexivity.
Qed.

(** the last piece starts after the last separator *)
Lemma last_piece_after_sep sep cur pre rest :
  last_piece (split_from sep cur (pre ++ String sep rest))
  = last_piece (split_from sep "" rest).
Proof.
  revert cur. induction pre as [|c pre IH]; intros cur; cbn.
  - rewrite Ascii.eqb_refl. unfold last_piece.
    apply last_cons_nonempty, split_from_nonempty.
  - destruct (Ascii.eqb c sep).
    + unfold last_piece. rewrite last_cons_nonempty by apply split_from_nonempty.
      apply IH.
    + apply IH.
Qed.

(** the last piece is an end of the string, and holds every end that is
    free of the separator *)
Lemma last_piece_keeps_tail sep cur pre rest :
  free_of sep rest ->
  exists pre2, last_piece (split_from sep cur (pre ++ rest)) = pre2 ++ rest.
Proof.
  intros Hfree. revert cur. induction pre as [|c pre IH]; intros cur; cbn.
  - rewrite split_from_free by exact Hfree. exists cur. reflexivity.
  - destruct (Ascii.eqb c sep).
    + unfold last_piece. rewrite last_cons_nonempty by apply split_from_nonempty.
      apply IH.
    + apply IH.
Qed.

Lemma last_piece_free sep cur s :
  free_of sep cur -> free_of sep (last_piece (split_from sep cur s)).
Proof.
  revert cur. induction s as [|c s IH]; intros cur Hcur; cbn.
  - exact Hcur.
  - destruct (Ascii.eqb c sep) eqn:E.
    + unfold last_piece. rewrite last_cons_nonempty by apply split_from_nonempty.
      apply IH. cbn. tauto.
    + apply IH. apply Ascii.eqb_neq in E.
      clear -Hcur E. induction cur as [|x cur IHc]; cbn in *.
      * intros [H|[]]. congruence.
      * intros [H|H]; [apply Hcur; left; exact H|]. apply IHc; [|exact H]. tauto.
Qed.

(** the last piece is an end of the string *)
Lemma last_piece_is_suffix sep s :
  exists pre, s = pre ++ last_piece (split sep s).
Proof.
  unfold split.
  assert (H : forall cur, exists pre,
             cur ++ s = pre ++ last_piece (split_from sep cur s)).
  { induction s as [|c s IH]; intros cur; cbn.
    - exists "". rewrite append_empty_r. reflexivity.
    - destruct (Ascii.eqb c sep).
      + unfold last_piece. rewrite last_cons_nonempty by apply split_from_nonempty.
        destruct (IH "") as (pre & Hpre). cbn in Hpre.
        exists (cur ++ String c pre). rewrite Hpre at 1.
        change (String c (pre ++ last_piece (split_from sep "" s)))
          with (String c pre ++ last_piece (split_from sep "" s)).
        apply append_assoc_str.
      + destruct (IH (cur ++ String c "")) as (pre & Hpre).
        exists pre. rewrite <- append_snoc. exact Hpre. }
  destruct (H "") as (pre & Hpre). exists pre. exact Hpre.
Qed.

Lemma free_of_suffix c pre s : free_of c (pre ++ s) -> free_of c s.
Proof.
  induction pre as [|x pre IH]; cbn; [auto|]. intros H. apply IH. tauto.
Qed.

Section Display.
Context {Item : Type}.
Variable cls : Class Item.

(** X15: [itemAsStr] raises what [str( item )] raises.  When [str]
    returns, then with [DISPLAY_NAMESPACES] off the display string is what
    follows the last ':' or '|' of [str( item )]: it is an end of that
    string and has neither character in it; a string without them is shown
    as it is.  With [DISPLAY_NAMESPACES] on the string is shown as it is. *)
Theorem itemAsStr_strips_namespace_and_path (item : Item) :
  (forall e, py_str cls item = Raise e -> itemAsStr cls item = Raise e) /\
  (forall s, py_str cls item = Ok s ->
     exists shown_as,
       itemAsStr cls item = Ok shown_as /\
       (DISPLAY_NAMESPACES cls = true -> shown_as = s) /\
       (DISPLAY_NAMESPACES cls = false ->
          (exists pre, s = pre ++ shown_as) /\
          free_of ":"%char shown_as /\
          free_of "|"%char shown_as /\
          (forall pre sep name,
             s = pre ++ String sep name ->
             sep = ":"%char \/ sep = "|"%char ->
             free_of ":"%char name -> free_of "|"%char name ->
             shown_as = name) /\
          (free_of ":"%char s -> free_of "|"%char s -> shown_as = s))).
Proof.
  unfold itemAsStr. split.
  - intros e ->. destruct (DISPLAY_NAMESPACES cls); reflexivity.
  - intros s ->. destruct (DISPLAY_NAMESPACES cls).
    + exists s. split; [reflexivity|]. split; [reflexivity|discriminate].
    + eexists. split; [reflexivity|]. split; [discriminate|]. intros _.
      split; [|split; [|split; [|split]]].
      * destruct (last_piece_is_suffix ":" s) as (p1 & H1).
        destruct (last_piece_is_suffix "|" (last_piece (split ":" s))) as (p2 & H2).
        exists (p1 ++ p2). rewrite H1 at 1. rewrite H2 at 1. apply append_assoc_str.
      * destruct (last_piece_is_suffix "|" (last_piece (split ":" s))) as (p2 & H2).
        apply (free_of_suffix _ p2). rewrite <- H2.
        apply last_piece_free. cbn. tauto.
      * apply last_piece_free. cbn. tauto.
      * intros pre sep name Hs Hsep Hc Hp. rewrite Hs.
        destruct Hsep as [-> | ->].
        -- unfold split at 2. rewrite last_piece_after_sep.
           rewrite split_from_free by exact Hc. cbn.
           unfold split. rewrite split_from_free by exact Hp. reflexivity.
        -- unfold split.
           destruct (last_piece_keeps_tail ":" "" pre (String "|" name)) as (pre2 & ->).
           { cbn. intros [H|H]; [discriminate|contradiction]. }
           rewrite last_piece_after_sep.
           rewrite split_from_free by exact Hp. reflexivity.
      * intros Hc Hp. unfold split. rewrite (split_from_free ":" "" s Hc). cbn.
        rewrite (split_from_free "|" "" s Hp). reflexivity.
Qed.

End Display.

Lemma itemAsStr_strips_namespace_and_path_witness :
  itemAsStr string_items "root|grp|ns:ball" = Ok "ball".
Proof.
  destruct (proj2 (itemAsStr_strips_namespace_and_path string_items "root|grp|ns:ball")
              "root|grp|ns:ball" eq_refl) as (shown_as & Hrun & _ & Hoff).
  rewrite Hrun. f_equal.
  refine (proj1 (proj2 (proj2 (proj2 (Hoff eq_refl))))
            "root|grp|ns" ":"%char "ball" eq_refl (or_introl eq_refl) _ _).
  - cbn. intuition discriminate.
  - cbn. intuition discriminate.
Defined.

End StrFacts.

(** ** More on the registry *)

Module RegistryMore.
Import Classes Registry Construct Examples RegistryFacts ConstructFacts.

Lemma BaseMelWidget_in_mro (c : WidgetClass) : In BaseMelWidget (mro c).
Proof. destruct c; cbn; tauto. Qed.

Lemma class_in_own_mro (c : WidgetClass) : issubclass c c = true.
Proof. destruct c; reflexivity. Qed.

Section WithHost.
Context {H Name : Type}.
Variable api : HostAPI H Name.
Implicit Types (st : Store Name) (inst new : Wrapper Name) (l : list (Wrapper Name)).

Lemma filter_idempotent {A} (f : A -> bool) (l : list A) :
  List.filter f (List.filter f l) = List.filter f l.
Proof.
  induction l as [|x l IH]; [reflexivity|]. cbn [List.filter].
  destruct (f x) eqn:E; [|exact IH]. cbn [List.filter]. rewrite E. f_equal. exact IH.
Qed.

Lemma live_idempotent cls h l :
  live api cls h (live api cls h l) = live api cls h l.
Proof. apply filter_idempotent. Qed.

(** X16: a full [IterInstances] on [cls] yields the registered instances of
    [cls] whose widget [cls.WIDGET_CMD] reports as existing, in the order of
    registration; that list of wrappers becomes [cls._INSTANCE_LIST]; no
    other class attribute is touched, and no list that was there is
    changed. *)
Theorem IterInstances_yields_live cls h st :
  let r := IterInstances api cls h st in
  fst (fst r) = live api cls h (instance_list st cls) /\
  snd (fst r) = Finished /\
  instance_list (snd r) cls = fst (fst r) /\
  (forall d, d <> cls -> own_INSTANCE_LIST (snd r) d = own_INSTANCE_LIST st d) /\
  (forall a, (a < fresh st)%nat -> deref (snd r) a = deref st a) /\
  Forall (fun inst => isinstance inst cls = true /\
                      widget_exists api (WIDGET_CMD cls) (w_name inst) h = true /\
                      In inst (instance_list st cls)) (fst (fst r)).
Proof.
  cbn zeta. rewrite IterInstances_eq. cbn [fst snd].
  split; [reflexivity|]. split; [reflexivity|]. split.
  - apply instance_list_assign_self.
  - split; [|split].
    + intros d Hd. unfold own_INSTANCE_LIST, registry_assign. cbn [base_ref sub_ref].
      destruct d;
        try (rewrite bool_decide_eq_false_2 by exact Hd; reflexivity).
      destruct cls; [congruence|reflexivity..].
    + intros a Ha. apply registry_assign_deref, Ha.
    + apply List.Forall_forall. intros inst Hin. unfold live in Hin.
      apply filter_In in Hin as [Hin Hb]. apply andb_prop in Hb. tauto.
Qed.

(** X17: with the host unchanged, a second full [IterInstances] on the same
    class yields the same wrappers and leaves the same list. *)
Theorem IterInstances_twice cls h st :
  let st1 := snd (IterInstances api cls h st) in
  fst (fst (IterInstances api cls h st1)) = fst (fst (IterInstances api cls h st)) /\
  instance_list (snd (IterInstances api cls h st1)) cls = instance_list st1 cls.
Proof.
  cbn zeta. rewrite !IterInstances_eq. cbn [fst snd].
  rewrite !instance_list_assign_self.
  rewrite live_idempotent. split; reflexivity.
Qed.

(** X18: as long as the generator has not run to its end the class
    attributes are as they were: an iteration that is abandoned prunes
    nothing. *)
Theorem unfinished_iteration_assigns_nothing fuel cls h g st :
  let r := drain api fuel cls h g st in
  snd (fst r) <> Finished -> snd r = st.
Proof.
  cbn zeta. revert g st. induction fuel as [|fuel IH]; intros g st; cbn [drain].
  - reflexivity.
  - destruct (next api cls h g st) as [[[inst|] g1] st1] eqn:En.
    + pose proof (next_yield_keeps_store api cls h g st inst g1 st1 En) as ->.
      specialize (IH g1 st).
      destruct (drain api fuel cls h g1 st) as [[ys g2] st2]. cbn in *. exact IH.
    + cbn. unfold next in En.
      destruct g as [|lst pos existing|].
      * destruct (scan api cls h _ 0%nat []) as [[[i r]|] e];
          [discriminate|]. injection En as <- <-. congruence.
      * destruct (scan api cls h _ pos existing) as [[[i r]|] e];
          [discriminate|]. injection En as <- <-. congruence.
      * injection En as <- <-. congruence.
Qed.

(** registering appends: [cls._INSTANCE_LIST.append( new )] makes [new]
    the last entry of the list [cls] sees and keeps the entries that were
    there *)
Lemma registry_append_is_last cls new st :
  instance_list (registry_append cls new st) cls = instance_list st cls ++ [new].
Proof.
  unfold registry_append, instance_list at 1.
  assert (E : instance_ref (set_deref (instance_ref st cls) (instance_list st cls ++ [new]) st)
                cls = instance_ref st cls) by reflexivity.
  rewrite E. unfold set_deref. cbn [deref]. rewrite Nat.eqb_refl. reflexivity.
Qed.

End WithHost.

Lemma IterInstances_yields_live_witness :
  own_INSTANCE_LIST
    (snd (IterInstances (api plain_host) MelButton some_widgets some_wrappers))
    BaseMelWidget
  = own_INSTANCE_LIST some_wrappers BaseMelWidget.
Proof.
  refine (proj1 (proj2 (proj2 (proj2
            (IterInstances_yields_live (api plain_host) MelButton some_widgets
               some_wrappers)))) BaseMelWidget _).
  discriminate.
Defined.

Lemma unfinished_iteration_assigns_nothing_witness :
  snd (drain (api plain_host) 1 BaseMelWidget some_widgets NotStarted some_wrappers)
  = some_wrappers.
Proof.
  apply (unfinished_iteration_assigns_nothing (api plain_host) 1 BaseMelWidget
           some_widgets NotStarted some_wrappers).
  vm_compute. discriminate.
Defined.

(** *** Construction *)

(** X19: the name [__new__] proposes is the command's name with the least
    counter, from 0, for which the host has no widget: every smaller counter
    names a widget the host has. *)
Theorem uniqueName_is_least hm c h :
  exists n,
    uniqueName hm c h = numbered c n /\
    cmd_exists hm c (numbered c n) h = false /\
    forall k, (k < n)%nat -> cmd_exists hm c (numbered c k) h = true.
Proof.
  exists (probe hm c h (length h) 0). split; [reflexivity|]. split.
  - apply uniqueName_is_free.
  - destruct (probe_spec hm c h (length h) 0) as (_ & Hall & _).
    intros k Hk. apply Hall. lia.
Qed.

Lemma uniqueName_is_least_witness :
  exists n,
    uniqueName plain_host "button" some_widgets = numbered "button" n /\
    cmd_exists plain_host "button" (numbered "button" 0) some_widgets = true.
Proof.
  destruct (uniqueName_is_least plain_host "button"%string some_widgets)
    as (n & Hu & Hfree & Hall).
  exists n. split; [exact Hu|]. apply Hall.
  destruct n; [vm_compute in Hfree; discriminate|lia].
Defined.

(** X20: when the host's creation command returns, [__new__] returns a
    wrapper of class [cls] whose name is the proposed name, and that wrapper
    is the last entry of [cls._INSTANCE_LIST]; the host is as the creation
    command left it. *)
Theorem new_registers_wrapper hm cls parent kw h st h' :
  hm_create hm (WIDGET_CMD cls) (uniqueName hm (WIDGET_CMD cls) h)
    (creation_kw hm cls parent kw) h = (Ok tt, h') ->
  exists st',
    new hm cls parent kw (h, st)
    = (Ok (mkWrapper cls (uniqueName hm (WIDGET_CMD cls) h)), (h', st')) /\
    instance_list st' cls
    = instance_list st cls ++ [mkWrapper cls (uniqueName hm (WIDGET_CMD cls) h)] /\
    isinstance (mkWrapper cls (uniqueName hm (WIDGET_CMD cls) h)) cls = true.
Proof.
  intros Hc. unfold new. rewrite Hc. eexists. split; [reflexivity|]. split.
  - apply registry_append_is_last.
  - apply class_in_own_mro.
Qed.

Lemma new_registers_wrapper_witness :
  exists st',
    new plain_host MelButton None ∅ (some_widgets, some_wrappers)
    = (Ok (mkWrapper MelButton "button1"%string),
       (some_widgets ++ [("button1", "button")]%string, st')) /\
    instance_list st' MelButton
    = instance_list some_wrappers MelButton ++ [mkWrapper MelButton "button1"%string] /\
    isinstance (mkWrapper MelButton "button1"%string) MelButton = true.
Proof.
  apply (new_registers_wrapper plain_host MelButton None ∅ some_widgets some_wrappers).
  reflexivity.
Defined.

(** X21: [FromStr] on a name the host does not know raises the host's error
    and registers nothing; on a name the host knows it registers the wrapper
    it returns as the last entry of [cls._INSTANCE_LIST], whatever class the
    wrapper got. *)
Theorem FromStr_registers_or_raises hm subs cls theStr h st :
  match host_type h theStr with
  | None => FromStr (api hm) subs cls theStr (h, st) = (Raise HostError, (h, st))
  | Some _ =>
      exists new st',
        FromStr (api hm) subs cls theStr (h, st) = (Ok new, (h, st')) /\
        w_name new = theStr /\
        (w_class new = cls \/ In (w_class new) subs) /\
        instance_list st' cls = instance_list st cls ++ [new]
  end.
Proof.
  unfold FromStr. cbn [objectTypeUI api]. unfold host_objectTypeUI.
  destruct (host_type h theStr) as [t|]; [|reflexivity].
  eexists _, _. split; [reflexivity|]. cbn [w_name w_class].
  split; [reflexivity|]. split.
  - destruct (ui_cmd (api hm) t) as [k|]; cbn; [|left; reflexivity].
    destruct (List.filter _ subs) as [|c0 cs] eqn:E; cbn; [left; reflexivity|].
    right. assert (Hin : In c0 (List.filter (fun subCls => String.eqb (WIDGET_CMD subCls) k) subs))
      by (rewrite E; left; reflexivity).
    apply filter_In in Hin. tauto.
  - apply registry_append_is_last.
Qed.

Lemma FromStr_registers_or_raises_witness :
  FromStr (api plain_host) all_subclasses MelMenuItem "nothing"%string
    (some_widgets, some_wrappers)
  = (Raise HostError, (some_widgets, some_wrappers)).
Proof.
  exact (FromStr_registers_or_raises plain_host all_subclasses MelMenuItem
           "nothing"%string some_widgets some_wrappers).
Defined.

End RegistryMore.

(** ** Keyword arguments *)

Module KwargsFacts.
Import Classes Construct Examples.
Local Open Scope string_scope.

Lemma kw_pop_fst k d (kw : Kwargs) : fst (kw_pop k d kw) = default d (kw !! k).
Proof. unfold kw_pop. destruct (kw !! k); reflexivity. Qed.

Lemma kw_pop_snd k d (kw : Kwargs) : snd (kw_pop k d kw) = delete k kw.
Proof.
  unfold kw_pop, Kwargs in *. destruct (kw !! k) eqn:E; [reflexivity|].
  cbn. symmetry. apply delete_id. exact E.
Qed.

Lemma kw_setdefault_lookup k v (kw : Kwargs) j :
  kw_setdefault k v kw !! j
  = if decide (k = j) then Some (default v (kw !! k)) else kw !! j.
Proof.
  unfold kw_setdefault, Kwargs in *.
  destruct (kw !! k) eqn:E; destruct (decide (k = j)) as [<-|Hne].
  - rewrite E. reflexivity.
  - reflexivity.
  - cbn. apply lookup_insert_eq.
  - apply lookup_insert_ne. exact Hne.
Qed.

(** the change-callback keyword of a class is none of the keywords
    [__new__] handles itself *)
Lemma change_cb_name_cases cls :
  In (KWARG_CHANGE_CB_NAME cls) ["cc"; "separatorMovedCommand"; "c"; "sc"; "pmc"]%string.
Proof. destruct cls; cbn; tauto. Qed.

(** the keyword arguments of the creation call, written out *)
Lemma creation_kw_eq hm cls parent (kw : Kwargs) :
  let kw1 := delete "p"%string kw in
  let kw2 := match parent with
             | Some p => <["parent"%string := VStr p]> kw1
             | None => kw1
             end in
  let width := default (default (of_default (DEFAULT_WIDTH cls)) (kw2 !! "width"%string))
                 (delete "width"%string kw2 !! "w"%string) in
  let kw3 := delete "w"%string (delete "width"%string kw2) in
  let kw4 := if is_int width then <["width"%string := width]> kw3 else kw3 in
  let height := default (default (of_default (DEFAULT_HEIGHT (hm_v2011 hm) cls))
                           (kw4 !! "height"%string))
                  (delete "height"%string kw4 !! "h"%string) in
  let kw5 := delete "h"%string (delete "height"%string kw4) in
  let kw6 := if is_int height then <["height"%string := height]> kw5 else kw5 in
  creation_kw hm cls parent kw = delete (KWARG_CHANGE_CB_NAME cls) kw6.
Proof.
  cbn zeta. unfold creation_kw.
  rewrite kw_pop_snd.
  set (kw2 := match parent with Some p => _ | None => _ end).
  rewrite (surjective_pairing (kw_pop "width" _ kw2)), kw_pop_fst, kw_pop_snd.
  rewrite (surjective_pairing (kw_pop "w" _ _)), kw_pop_fst, kw_pop_snd.
  set (kw4 := if is_int _ then _ else _).
  rewrite (surjective_pairing (kw_pop "height" _ kw4)), kw_pop_fst, kw_pop_snd.
  rewrite (surjective_pairing (kw_pop "h" _ _)), kw_pop_fst, kw_pop_snd.
  set (kw6 := if is_int _ then _ else _).
  rewrite (surjective_pairing (kw_pop (KWARG_CHANGE_CB_NAME cls) _ kw6)), kw_pop_snd.
  reflexivity.
Qed.


Ltac kw_lookup :=
  repeat first
    [ rewrite lookup_delete_eq
    | rewrite lookup_insert_eq
    | rewrite lookup_delete_ne by (discriminate || congruence)
    | rewrite lookup_insert_ne by (discriminate || congruence) ].

(** X22: what reaches the creation command: the short keywords [p], [w], [h]
    and the change-callback keyword never do; [parent] is the constructor's
    [parent] argument when that is not [None]; [width] is the value of [w],
    else of [width], else the class default, and is passed only if it is an
    [int] (so [w] wins over [width], and a value that is not an [int] drops
    both); the same for [height] with [h]; every other keyword is passed
    unchanged. *)
Theorem creation_kw_keys hm cls parent (kw : Kwargs) :
  let kw' := creation_kw hm cls parent kw in
  let width := default (default (of_default (DEFAULT_WIDTH cls)) (kw !! "width"%string))
                 (kw !! "w"%string) in
  let height := default (default (of_default (DEFAULT_HEIGHT (hm_v2011 hm) cls))
                           (kw !! "height"%string))
                  (kw !! "h"%string) in
  kw' !! "p"%string = None /\ kw' !! "w"%string = None /\ kw' !! "h"%string = None /\
  kw' !! KWARG_CHANGE_CB_NAME cls = None /\
  kw' !! "parent"%string
  = match parent with
    | Some p => Some (VStr p)
    | None => kw !! "parent"%string
    end /\
  kw' !! "width"%string = (if is_int width then Some width else None) /\
  kw' !! "height"%string = (if is_int height then Some height else None) /\
  (forall k : string,
     ~ In k ["p"; "parent"; "width"; "w"; "height"; "h"; KWARG_CHANGE_CB_NAME cls]%string ->
     kw' !! k = kw !! k).
Proof.
  cbn zeta. rewrite creation_kw_eq. cbn zeta. unfold Kwargs in *.
  assert (Hcb := change_cb_name_cases cls).
  set (cb := KWARG_CHANGE_CB_NAME cls) in *.
  assert (Hcb' : cb <> "p" /\ cb <> "parent" /\ cb <> "width" /\ cb <> "w"
                 /\ cb <> "height" /\ cb <> "h").
  { cbn in Hcb. repeat split; intros E; rewrite E in Hcb;
      repeat (destruct Hcb as [Hcb|Hcb]; [discriminate Hcb|]); exact Hcb. }
  destruct Hcb' as (H1 & H2 & H3 & H4 & H5 & H6). clear Hcb.
  destruct parent as [p|]; kw_lookup.
  all: destruct (is_int (default (default (of_default (DEFAULT_WIDTH cls))
                                   (kw !! "width"%string)) (kw !! "w"%string))) eqn:Ew;
    kw_lookup.
  all: destruct (is_int (default (default (of_default (DEFAULT_HEIGHT (hm_v2011 hm) cls))
                                   (kw !! "height"%string)) (kw !! "h"%string))) eqn:Eh;
    kw_lookup.
  all: repeat split; try reflexivity.
  all: intros k Hk; cbn in Hk;
    assert (k <> "p" /\ k <> "parent" /\ k <> "width" /\ k <> "w" /\ k <> "height"
            /\ k <> "h" /\ k <> cb) as (K1 & K2 & K3 & K4 & K5 & K6 & K7)
      by (repeat split; intros E; apply Hk; rewrite E; tauto);
    kw_lookup; reflexivity.
Qed.

Lemma creation_kw_keys_witness :
  creation_kw plain_host MelTextField (Some "form0"%string)
    (<["w"%string := VInt 80]> (<["width"%string := VInt 200]>
       (<["tx"%string := VStr "hello"]> ∅)))
  !! "tx"%string = Some (VStr "hello").
Proof.
  refine (eq_trans (proj2 (proj2 (proj2 (proj2 (proj2 (proj2 (proj2
            (creation_kw_keys plain_host MelTextField (Some "form0"%string)
               (<["w"%string := VInt 80]> (<["width"%string := VInt 200]>
                  (<["tx"%string := VStr "hello"]> ∅)))))))))) "tx"%string _) _).
  - cbn. intuition discriminate.
  - reflexivity.
Defined.

(** X23: [MelScrollLayout] and [MelTabLayout] always pass [childResizable]
    and never [cr]: an explicit [childResizable] wins, else the value of
    [cr], else [True].  [MelCheckBox] always passes [l] and never [label]:
    here the long name [label] wins over [l], and the default is the empty
    string.  Both leave every other keyword alone. *)
Theorem subclass_kw_defaults (kw : Kwargs) :
  (childResizable_kw kw !! "cr"%string = None /\
   childResizable_kw kw !! "childResizable"%string
   = Some (default (default (VBool true) (kw !! "cr"%string))
             (kw !! "childResizable"%string)) /\
   forall k : string, k <> "cr"%string -> k <> "childResizable"%string ->
     childResizable_kw kw !! k = kw !! k) /\
  (checkBox_kw kw !! "label"%string = None /\
   checkBox_kw kw !! "l"%string
   = Some (default (default (VStr "") (kw !! "l"%string)) (kw !! "label"%string)) /\
   forall k : string, k <> "label"%string -> k <> "l"%string ->
     checkBox_kw kw !! k = kw !! k).
Proof.
  unfold Kwargs in *. split.
  - unfold childResizable_kw.
    rewrite (surjective_pairing (kw_pop "cr" _ kw)), kw_pop_fst, kw_pop_snd.
    unfold Kwargs in *. rewrite !kw_setdefault_lookup. unfold Kwargs in *.
    repeat split.
    + rewrite decide_False by discriminate. apply lookup_delete_eq.
    + rewrite decide_True by reflexivity. kw_lookup. reflexivity.
    + intros k K1 K2. rewrite kw_setdefault_lookup. unfold Kwargs in *.
      rewrite decide_False by congruence. kw_lookup. reflexivity.
  - unfold checkBox_kw. unfold Kwargs in *.
    destruct (kw !! "label"%string) as [v|] eqn:El.
    + rewrite (surjective_pairing (kw_pop "label" _ kw)), kw_pop_fst, kw_pop_snd.
      unfold Kwargs in *. rewrite El. cbn [default].
      split; [|split; [|intros k K1 K2]];
        rewrite kw_setdefault_lookup; unfold Kwargs in *;
        case_decide; try congruence; kw_lookup; reflexivity.
    + split; [|split; [|intros k K1 K2]];
        rewrite kw_setdefault_lookup; unfold Kwargs in *;
        case_decide; try congruence; rewrite ?El; reflexivity.
Qed.

Lemma subclass_kw_defaults_witness :
  checkBox_kw (<["label"%string := VStr "on"]> (<["l"%string := VStr "off"]> ∅))
  !! "l"%string = Some (VStr "on").
Proof.
  exact (proj1 (proj2 (proj2 (subclass_kw_defaults
           (<["label"%string := VStr "on"]> (<["l"%string := VStr "off"]> ∅)))))).
Defined.

End KwargsFacts.

(** ** More on layouts *)

Module LayoutMore.
Import Classes Registry Examples ClearFacts.

Lemma is_prefix_trans p q r :
  MelLayout.is_prefix p q = true -> MelLayout.is_prefix q r = true ->
  MelLayout.is_prefix p r = true.
Proof.
  revert q r. induction p as [|a p IH]; intros q r; cbn; [reflexivity|].
  destruct q as [|b q]; [discriminate|]. destruct r as [|c r]; cbn; [discriminate|].
  intros H1 H2. apply andb_prop in H1 as [E1 H1]. apply andb_prop in H2 as [E2 H2].
  apply String.eqb_eq in E1, E2. subst. rewrite String.eqb_refl. cbn.
  exact (IH q r H1 H2).
Qed.

Lemma is_prefix_length p q :
  MelLayout.is_prefix p q = true -> (length p <= length q)%nat.
Proof.
  intros H. apply is_prefix_app in H as (r & ->). rewrite length_app. lia.
Qed.

Section WithCmds.
Variable getattr_cmd : string -> option Cmd.
Variable GetSubclasses : list WidgetClass.

(** X24: [getChildren] returns one wrapper per child the host lists, in the
    host's order and under the host's names; it only queries the host. *)
Theorem getChildren_wraps_children self h st :
  exists ws st',
    MelLayout.getChildren getattr_cmd GetSubclasses self (h, st) = (Ok ws, (h, st')) /\
    map w_name ws = MelLayout.children_of self h /\
    Forall (fun w => MelLayout.is_child self (w_name w) = true) ws.
Proof.
  assert (Hall : Forall (fun c => MelLayout.is_child self c = true /\
                                  MelLayout.known c h = true)
                   (MelLayout.children_of self h)).
  { apply List.Forall_forall. intros c Hc. unfold MelLayout.children_of in Hc.
    apply in_map_iff in Hc as (w & <- & Hw). apply filter_In in Hw as [Hw Hcw].
    split; [exact Hcw|]. apply known_in, in_map, Hw. }
  destruct (from_strs_ok getattr_cmd GetSubclasses (MelLayout.children_of self h) h st)
    as (ws & st' & Hrun & Hnames).
  { eapply List.Forall_impl; [|exact Hall]. cbn. tauto. }
  exists ws, st'. split; [rewrite getChildren_eq; exact Hrun|]. split; [exact Hnames|].
  rewrite <- Hnames in Hall. apply Forall_map in Hall.
  eapply List.Forall_impl; [|exact Hall]. cbn. tauto.
Qed.

(** X25: [clear] deletes nothing outside the layout: with host names all
    different it returns, the layout itself and every widget that is not
    below it are still there, and what is there afterwards was there
    before. *)
Theorem clear_keeps_the_rest self h st :
  List.NoDup (map fst h) ->
  exists h' st',
    MelLayout.clear getattr_cmd GetSubclasses self (h, st) = (Ok tt, (h', st')) /\
    (forall w, In w h' -> In w h) /\
    (forall w, In w h ->
       fst w = self \/ MelLayout.is_prefix self (fst w) = false -> In w h').
Proof.
  intros Hnd.
  destruct (MelLayout_clear_empties getattr_cmd GetSubclasses self h st Hnd)
    as (st' & Hrun & _).
  eexists _, st'. split; [exact Hrun|]. unfold MelLayout.without. split.
  - intros w Hw. apply filter_In in Hw. tauto.
  - intros w Hw Hout. apply filter_In. split; [exact Hw|].
    apply negb_true_iff.
    destruct (existsb _ (MelLayout.children_of self h)) eqn:E; [exfalso|reflexivity].
    apply existsb_exists in E as (c & Hc & Hp).
    unfold MelLayout.children_of in Hc. apply in_map_iff in Hc as (x & <- & Hx).
    apply filter_In in Hx as [_ Hchild]. unfold MelLayout.is_child in Hchild.
    apply andb_prop in Hchild as [Hsp Hlen]. apply Nat.eqb_eq in Hlen.
    destruct Hout as [Hself|Hnot].
    + apply is_prefix_length in Hp. rewrite Hself in Hp. lia.
    + rewrite (is_prefix_trans self (fst x) (fst w) Hsp Hp) in Hnot. discriminate.
Qed.

End WithCmds.

Lemma clear_keeps_the_rest_witness :
  exists h' st',
    MelLayout.clear (fun s => Some s) all_subclasses ["win"; "col"]%string
      (window_with_column, Registry.initial_store) = (Ok tt, (h', st')) /\
    (forall w, In w h' -> In w window_with_column) /\
    (forall w, In w window_with_column ->
       fst w = ["win"; "col"]%string \/
       MelLayout.is_prefix ["win"; "col"]%string (fst w) = false -> In w h').
Proof.
  apply (clear_keeps_the_rest (fun s => Some s) all_subclasses ["win"; "col"]%string
           window_with_column Registry.initial_store).
  unfold window_with_column. cbn [map fst].
  repeat (constructor; [cbn; intuition congruence|]). constructor.
Defined.

End LayoutMore.

(** ** More on panes *)

Module PaneMore.
Import MelPaneLayout PaneFacts.

Lemma nth_error_set_nth {A} k (x : A) l :
  (k < length l)%nat -> nth_error (set_nth k x l) k = Some x.
Proof.
  intros Hk. unfold set_nth.
  rewrite nth_error_app2 by (rewrite length_firstn; lia).
  rewrite length_firstn. replace (k - Init.Nat.min k (length l))%nat with O by lia.
  destruct (skipn k l) eqn:E; [|reflexivity].
  apply (f_equal (@length A)) in E. rewrite length_skipn in E. cbn in E. lia.
Qed.

Lemma length_set_nth {A} k (x : A) l : length (set_nth k x l) = length l.
Proof.
  unfold set_nth. rewrite length_app, length_firstn.
  destruct (skipn k l) eqn:E; apply (f_equal (@length A)) in E;
    rewrite length_skipn in E; cbn in *; lia.
Qed.

(** X26: [getPaneSize], [setPaneSize] and [__setitem__] each make one host
    call, with pane number [idx + 1], and [getPaneActiveIdx] returns the
    host's number less one.  For an index of a pane, [getPaneSize] after
    [setPaneSize] returns the size that was set; for any other index both
    raise the host's error and no size changes. *)
Theorem pane_index_is_converted_once idx (size : Z * Z) ui (h : Pane) :
  p_calls (snd (getPaneSize idx h)) = p_calls h ++ [QueryPaneSize (idx + 1)] /\
  p_calls (snd (setPaneSize idx size h))
  = p_calls h ++ [EditPaneSize (idx + 1) (fst size) (snd size)] /\
  p_calls (snd (setitem idx ui h)) = p_calls h ++ [EditSetPane ui (idx + 1)] /\
  fst (getPaneActiveIdx h) = Ok (p_active h - 1) /\
  (0 <= idx < Z.of_nat (length (p_sizes h)) ->
     fst (setPaneSize idx size h) = Ok tt /\
     fst (getPaneSize idx (snd (setPaneSize idx size h))) = Ok size) /\
  (~ 0 <= idx < Z.of_nat (length (p_sizes h)) ->
     fst (setPaneSize idx size h) = Raise HostError /\
     fst (getPaneSize idx h) = Raise HostError /\
     p_sizes (snd (setPaneSize idx size h)) = p_sizes h).
Proof.
  split; [apply getPaneSize_calls|]. split; [apply setPaneSize_calls|].
  split; [apply setitem_calls|]. split; [reflexivity|].
  unfold setPaneSize, getPaneSize, edit_paneSize, query_paneSize, has_pane. split.
  - intros Hi.
    replace (1 <=? idx + 1) with true by (symmetry; apply Z.leb_le; lia).
    replace (idx + 1 <=? Z.of_nat (length (p_sizes h))) with true
      by (symmetry; apply Z.leb_le; lia).
    cbn [andb fst snd p_sizes log]. split; [reflexivity|].
    rewrite length_set_nth.
    replace (idx + 1 <=? Z.of_nat (length (p_sizes h))) with true
      by (symmetry; apply Z.leb_le; lia).
    cbn [andb]. rewrite nth_error_set_nth by lia. destruct size; reflexivity.
  - intros Hi.
    assert (E : (1 <=? idx + 1) && (idx + 1 <=? Z.of_nat (length (p_sizes h))) = false).
    { apply andb_false_iff.
      destruct (Z.lt_ge_cases idx 0); [left; apply Z.leb_gt; lia|right; apply Z.leb_gt; lia]. }
    rewrite E. repeat split; reflexivity.
Qed.

Lemma pane_index_is_converted_once_witness :
  fst (getPaneSize 1 (snd (setPaneSize 1 (7, 9) two_panes))) = Ok (7, 9).
Proof.
  refine (proj2 (proj1 (proj2 (proj2 (proj2 (proj2
            (pane_index_is_converted_once 1 (7, 9) ""%string two_panes))))) _)).
  cbn. lia.
Defined.

End PaneMore.

(** ** Events and the parent chain *)

Module EventFacts.
Import Events.

(** X27: [processEvent] runs the method of the nearest object, from the
    widget upwards, that has it.  When none has it, a chain that ends in a
    window drops the event, and a chain that ends in [None] or in a widget
    without [parent] raises an attribute error. *)
Theorem processEvent_finds_nearest_handler (o : PyObj) (methodName : string) :
  match processEvent o methodName with
  | Ok (Some t) =>
      has_method t methodName = true /\
      exists before after,
        chain o = before ++ t :: after /\
        Forall (fun x => has_method x methodName = false) before
  | Ok None =>
      Forall (fun x => has_method x methodName = false) (chain o) /\
      exists name ms, List.last (chain o) ONone = OWindow name ms
  | Raise e =>
      e = AttributeError /\
      Forall (fun x => has_method x methodName = false) (chain o) /\
      match List.last (chain o) ONone with
      | ONone | ORehydrated _ _ => True
      | _ => False
      end
  end.
Proof.
  induction o as [|name ms|name ms|name ms p IH].
  - cbn. repeat split. repeat constructor.
  - cbn [processEvent]. destruct (has_method (OWindow name ms) methodName) eqn:E.
    + split; [exact E|]. exists [], []. split; [reflexivity|constructor].
    + split; [repeat constructor; exact E|]. exists name, ms. reflexivity.
  - cbn [processEvent]. destruct (has_method (ORehydrated name ms) methodName) eqn:E.
    + split; [exact E|]. exists [], []. split; [reflexivity|constructor].
    + repeat split. repeat constructor; exact E.
  - cbn [processEvent]. destruct (has_method (OWidget name ms p) methodName) eqn:E.
    + split; [exact E|]. exists [], (chain p). split; [reflexivity|constructor].
    + assert (Hlast : List.last (chain (OWidget name ms p)) ONone
                      = List.last (chain p) ONone).
      { cbn [chain]. destruct p; reflexivity. }
      rewrite Hlast. cbn [chain].
      destruct (processEvent p methodName) as [[t|]|e].
      * destruct IH as (Ht & before & after & Hc & Hb). split; [exact Ht|].
        exists (OWidget name ms p :: before), after. split.
        -- rewrite Hc. reflexivity.
        -- constructor; assumption.
      * destruct IH as (Hall & Hw). split; [constructor; assumption|exact Hw].
      * destruct IH as (He & Hall & Hr). split; [exact He|].
        split; [constructor; assumption|exact Hr].
Qed.

(** X28: [getTopParent] of a widget made by its constructor returns the
    object the parent chain ends in: a window, [None], or a widget without
    [parent]; on a widget without [parent] it raises an attribute error. *)
Theorem getTopParent_is_chain_end (self : PyObj) :
  match getTopParent self with
  | Ok top =>
      has_parent self = true /\ has_parent top = false /\
      top = List.last (chain self) ONone /\ In top (chain self)
  | Raise e => e = AttributeError /\ has_parent self = false
  end.
Proof.
  assert (Hclimb : forall p, has_parent (climb p) = false /\
                             climb p = List.last (chain p) ONone /\ In (climb p) (chain p)).
  { induction p as [|name ms|name ms|name ms p IH]; cbn [climb chain].
    1-3: split; [reflexivity|split; [reflexivity|left; reflexivity]].
    destruct IH as (H1 & H2 & H3). split; [exact H1|]. split.
    - rewrite H2. destruct p; reflexivity.
    - right. exact H3. }
  destruct self as [|name ms|name ms|name ms p]; cbn [getTopParent];
    try (split; reflexivity).
  destruct (Hclimb p) as (H1 & H2 & H3). split; [reflexivity|]. split; [exact H1|].
  split.
  - rewrite H2. cbn [chain]. destruct p; reflexivity.
  - right. exact H3.
Qed.

End EventFacts.

(** ** More on visibility *)

Module VisibilityMore.
Import Visibility.

(** X29: [show] puts back whatever size the last [hide] cached, also on a
    widget that is visible and was resized since; on a widget that was never
    hidden it leaves the size alone.  Hiding twice caches the hidden size, so
    that a following [show] leaves the widget at (1,1). *)
Theorem show_restores_cached_size (o : Obj) :
  (_preSize o = None -> fst (getSize (snd (show o))) = fst (getSize o)) /\
  (forall sz, _preSize o = Some sz -> fst (getSize (snd (show o))) = Ok sz) /\
  (forall sz, fst (getSize (snd (show (snd (setSize sz (snd (show (snd (hide o)))))))))
              = fst (getSize o)) /\
  fst (getSize (snd (show (snd (hide (snd (hide o))))))) = Ok (1, 1).
Proof.
  destruct o as [[w h v] pre]. cbn. split; [intros ->; reflexivity|].
  split; [intros [a b] ->; reflexivity|]. split; reflexivity.
Qed.

Lemma show_restores_cached_size_witness :
  fst (getSize (snd (show (mkObj (mkControl 1 1 false) (Some (120, 24)))))) = Ok (120, 24).
Proof.
  exact (proj1 (proj2 (show_restores_cached_size
           (mkObj (mkControl 1 1 false) (Some (120, 24))))) (120, 24) eq_refl).
Defined.

End VisibilityMore.
